(** * Frame parser of the D6T-32L-01A thermal-sensor visualiser

    A shallow embedding of [d6t/d6t_32l_01a/Src/visualize.py]:
    [parse_uart_data], [visualize_heatmap] and the main loop, together
    with the parts of the Python runtime they call ([bytes.decode],
    [str.strip], [str.split], [float], the [.1f] format, and the fragment
    of [re] the three patterns use).  The properties of the parser stated
    in the specification come first; further properties of the parser,
    of the display and of the loop that joins them follow. *)

From Stdlib Require Import QArith Qabs SpecFloat Ascii String DecimalPos DecimalN.
From Stdlib Require Import Strings.Byte.
From stdpp Require Import numbers base option list.

Local Open Scope N_scope.

(** ** Text: Python [str] values

    A [str] is a sequence of Unicode code points. *)

Abbreviation char := N (only parsing).
Abbreviation str := (list char) (only parsing).

Definition chr (a : ascii) : char := N_of_ascii a.

(** [lit "abc"] is the [str] written ['abc'] in the source. *)
Definition lit (s : string) : str := map chr (list_ascii_of_string s).

Definition LF : char := 10.
Definition SPACE : char := 32.

(** [Py_UNICODE_ISSPACE]: the characters [str.strip] and [str.split]
    treat as whitespace. *)
Definition isspace (c : char) : bool :=
  ((9 <=? c) && (c <=? 13)) || ((28 <=? c) && (c <=? 32))
  || (c =? 133) || (c =? 160) || (c =? 5760)
  || ((8192 <=? c) && (c <=? 8202))
  || (c =? 8232) || (c =? 8233) || (c =? 8239) || (c =? 8287)
  || (c =? 12288).

(** The code points of the digit zero of every decimal script (general
    category Nd, Unicode 14); the nine code points after each are its
    digits one to nine. *)
Definition decimal_zeros : list N :=
  [48; 1632; 1776; 1984; 2406; 2534; 2662; 2790; 2918; 3046; 3174; 3302;
   3430; 3558; 3664; 3792; 3872; 4160; 4240; 6112; 6160; 6470; 6608; 6784;
   6800; 6992; 7088; 7232; 7248; 42528; 43216; 43264; 43472; 43504; 43600;
   44016; 65296; 66720; 68912; 69734; 69872; 69942; 70096; 70384; 70736;
   70864; 71248; 71360; 71472; 71904; 72016; 72784; 73040; 73120; 92768;
   92864; 93008; 120782; 120792; 120802; 120812; 120822; 123200; 123632;
   125264; 130032].

(** The zero of the block of ten digits that [c] lies in.  The table is
    in increasing order, so the search stops at the first block beyond
    [c]. *)
Fixpoint decimal_block (c : N) (zs : list N) : option N :=
  match zs with
  | [] => None
  | z :: zs' =>
      if c <? z then None
      else if c <=? z + 9 then Some z
      else decimal_block c zs'
  end.

(** A table in increasing order. *)
Fixpoint increasing (zs : list N) : bool :=
  match zs with
  | z :: zs' =>
      match zs' with
      | z' :: _ => (z <? z') && increasing zs'
      | [] => true
      end
  | [] => true
  end.

(** [Py_UNICODE_TODECIMAL]: the value of a decimal digit. *)
Definition to_decimal (c : char) : option N :=
  (fun z => c - z) <$> decimal_block c decimal_zeros.

(** [Py_UNICODE_ISDECIMAL]: what [\d] matches in a [str] pattern. *)
Definition isdecimal (c : char) : bool := bool_decide (is_Some (to_decimal c)).

(** [len(s)], as an integer. *)
Definition len (s : str) : Z := Z.of_nat (length s).

Fixpoint lstrip (s : str) : str :=
  match s with
  | c :: s' => if isspace c then lstrip s' else s
  | [] => []
  end.

Fixpoint rstrip (s : str) : str :=
  match s with
  | [] => []
  | c :: s' =>
      match rstrip s' with
      | [] => if isspace c then [] else [c]
      | r => c :: r
      end
  end.

(** [s.strip()] *)
Definition strip (s : str) : str := rstrip (lstrip s).

Definition flush (word : str) : list str :=
  match word with [] => [] | _ => [word] end.

(** [split_from word s]: the words of [s], the first of them prefixed by
    the already scanned [word]. *)
Fixpoint split_from (word : str) (s : str) : list str :=
  match s with
  | [] => flush word
  | c :: s' =>
      if isspace c then flush word ++ split_from [] s'
      else split_from (word ++ [c]) s'
  end.

(** [s.split()]: the maximal runs of non-whitespace characters. *)
Definition split (s : str) : list str := split_from [] s.

(** ** Floats: Python [float(s)]

    A Python float is an IEEE 754 binary64 number, here a [spec_float] in
    canonical form (53-bit mantissa, exponents from -1074). *)

Abbreviation float := spec_float (only parsing).

Definition zero : float := S754_zero false.

Local Open Scope Z_scope.

(** The binary64 number nearest to [(-1)^sign * n / d], ties to even. *)
Definition round_binary64 (sign : bool) (n d : Z) : float :=
  if n <=? 0 then S754_zero sign else
  let e1 := Z.log2 n - Z.log2 d - 52 in
  let scaled e := if 0 <=? e then (n, d * 2 ^ e) else (n * 2 ^ (- e), d) in
  let e2 := let '(a, b) := scaled e1 in if a / b <? 2 ^ 52 then e1 - 1 else e1 in
  let e := Z.max e2 (-1074) in
  let '(a, b) := scaled e in
  let q := a / b in
  let r := a mod b in
  let q' := if (b <? 2 * r) || ((b =? 2 * r) && Z.odd q) then q + 1 else q in
  let '(m, e') := if q' =? 2 ^ 53 then (2 ^ 52, e + 1) else (q', e) in
  if m =? 0 then S754_zero sign
  else if 971 <? e' then S754_infinity sign
  else S754_finite sign (Z.to_pos m) e'.

Local Open Scope N_scope.

(** [_PyUnicode_TransformDecimalAndSpaceToASCII]: non-ASCII whitespace
    becomes a space, a non-ASCII decimal digit its ASCII digit, and any
    other non-ASCII character a question mark. *)
Definition to_ascii (c : char) : char :=
  if c <? 127 then c
  else if isspace c then 32
  else match to_decimal c with Some d => 48 + d | None => 63 end.

(** [Py_ISSPACE] *)
Definition ascii_isspace (c : char) : bool :=
  ((9 <=? c) && (c <=? 13)) || (c =? 32).

Fixpoint ascii_lstrip (s : str) : str :=
  match s with
  | c :: s' => if ascii_isspace c then ascii_lstrip s' else s
  | [] => []
  end.

Definition ascii_isdigit (c : char) : bool := (48 <=? c) && (c <=? 57).

(** [_Py_string_to_number_with_underscores]: an underscore is dropped
    when it stands between two digits, and is an error elsewhere. *)
Fixpoint drop_underscores (prev : char) (s : str) : option str :=
  match s with
  | [] => if prev =? 95 then None else Some []
  | c :: s' =>
      if c =? 95 then
        if ascii_isdigit prev then drop_underscores c s' else None
      else if (prev =? 95) && negb (ascii_isdigit c) then None
      else (c ::.) <$> drop_underscores c s'
  end.

Fixpoint digits (s : str) : str * str :=
  match s with
  | c :: s' =>
      if ascii_isdigit c then let '(ds, r) := digits s' in (c :: ds, r)
      else ([], s)
  | [] => ([], [])
  end.

Definition digits_value (ds : str) : Z :=
  fold_left (fun acc c => (10 * acc + (Z.of_N c - 48))%Z) ds 0%Z.

Definition lower (c : char) : char :=
  if (65 <=? c) && (c <=? 90) then c + 32 else c.

Definition sign_of (s : str) : bool * str :=
  match s with
  | c :: s' => if c =? 45 then (true, s') else if c =? 43 then (false, s') else (false, s)
  | [] => (false, [])
  end.

(** The exponent part [e[+-]ddd] of a literal; [None] when the text is
    not one. *)
Definition exponent (s : str) : option Z :=
  match s with
  | [] => Some 0%Z
  | c :: s' =>
      if lower c =? 101 then
        let '(neg, s'') := sign_of s' in
        match digits s'' with
        | ((_ :: _) as ds, []) =>
            Some (if neg then (- digits_value ds)%Z else digits_value ds)
        | _ => None
        end
      else None
  end.

(** The number a stripped ASCII literal denotes ([PyOS_string_to_double]
    on the whole text); [None] when the text is not a literal. *)
Definition string_to_double (s : str) : option float :=
  let '(neg, s1) := sign_of s in
  let name := map lower s1 in
  if bool_decide (name = lit "inf") || bool_decide (name = lit "infinity")
  then Some (S754_infinity neg)
  else if bool_decide (name = lit "nan") then Some S754_nan
  else
    let '(ip, s2) := digits s1 in
    let '(fp, s3) :=
      match s2 with
      | c :: s2' => if c =? 46 then digits s2' else ([], s2)
      | [] => ([], [])
      end in
    match ip ++ fp with
    | [] => None
    | m =>
        match exponent s3 with
        | None => None
        | Some x =>
            let e := (x - Z.of_nat (length fp))%Z in
            Some (if (0 <=? e)%Z
                  then round_binary64 neg (digits_value m * 10 ^ e) 1
                  else round_binary64 neg (digits_value m) (10 ^ (- e)))
        end
    end.

Definition ascii_strip (s : str) : str :=
  rev (ascii_lstrip (rev (ascii_lstrip s))).

(** [float(s)] for a [str]; [None] stands for [ValueError]. *)
Definition py_float (s : str) : option float :=
  a ← drop_underscores 0 (map to_ascii s);
  string_to_double (ascii_strip a).

(** ** Regular expressions: the fragment of [re] the parser uses

    The three patterns of the source are built from literal text, character
    sets, [set+], [r?], concatenation, [r{n}], one capturing group, and
    the anchors [^] and [$] (used under [re.MULTILINE] only).  Matching is
    backtracking with Python's priorities: every quantifier is greedy, and
    [matches] lists the ways a pattern can match at a position, the one
    Python picks first. *)

Inductive regex : Type :=
  | Lit (s : str)                 (* literal text *)
  | Class (p : char -> bool)      (* one character of a set *)
  | Plus (p : char -> bool)       (* set+ *)
  | Opt (r : regex)               (* r? *)
  | Seq (r1 r2 : regex)           (* r1 r2 *)
  | Rep (n : nat) (r : regex)     (* r{n} *)
  | Group (r : regex)             (* ( r ), the group number 1 *)
  | Bol                           (* ^ under re.MULTILINE *)
  | Eol.                          (* $ under re.MULTILINE *)

(** A position in the subject: the character before it (if any), the text
    from it on, and what group 1 has captured so far. *)
Record mstate : Type := MState {
  prev : option char;
  rest : str;
  grp : option str
}.

Definition at_line_start (p : option char) : bool :=
  match p with None => true | Some c => c =? LF end.

Definition at_line_end (s : str) : bool :=
  match s with [] => true | c :: _ => c =? LF end.

Fixpoint lit_match (s : str) (st : mstate) : list mstate :=
  match s with
  | [] => [st]
  | c :: s' =>
      match rest st with
      | x :: xs =>
          if x =? c then lit_match s' (MState (Some x) xs (grp st)) else []
      | [] => []
      end
  end.

(** One or more characters of the set [p], the longest run first. *)
Fixpoint plus_match (p : char -> bool) (s : str) (g : option str) : list mstate :=
  match s with
  | c :: s' =>
      if p c then plus_match p s' g ++ [MState (Some c) s' g] else []
  | [] => []
  end.

(** The text between two positions of the same subject. *)
Definition consumed (st m : mstate) : str :=
  take (length (rest st) - length (rest m)) (rest st).

Fixpoint matches (r : regex) (st : mstate) : list mstate :=
  match r with
  | Lit s => lit_match s st
  | Class p =>
      match rest st with
      | c :: s' => if p c then [MState (Some c) s' (grp st)] else []
      | [] => []
      end
  | Plus p => plus_match p (rest st) (grp st)
  | Opt r' => matches r' st ++ [st]
  | Seq r1 r2 => matches r1 st ≫= matches r2
  | Rep n r' =>
      (fix rep (n : nat) (st : mstate) : list mstate :=
         match n with
         | O => [st]
         | S k => matches r' st ≫= rep k
         end) n st
  | Group r' =>
      (fun m => MState (prev m) (rest m) (Some (consumed st m)))
        <$> matches r' st
  | Bol => if at_line_start (prev st) then [st] else []
  | Eol => if at_line_end (rest st) then [st] else []
  end.

(** The match of [r] that starts exactly at the given position. *)
Definition match_at (r : regex) (p : option char) (s : str) : option mstate :=
  list.head (matches r (MState p s None)).

(** [re.search(r, s)]: the match at the leftmost position that has one. *)
Fixpoint search_from (r : regex) (p : option char) (s : str) : option mstate :=
  match match_at r p s with
  | Some m => Some m
  | None =>
      match s with
      | [] => None
      | c :: s' => search_from r (Some c) s'
      end
  end.

Definition search (r : regex) (s : str) : option mstate := search_from r None s.

(** [re.findall(r, s)] for a pattern with one group: group 1 of the
    successive non-overlapping matches, left to right.  [skip] counts the
    characters still covered by the previous match; after a match of no
    characters the scan moves on by one character. *)
Fixpoint findall_from (r : regex) (skip : nat) (p : option char) (s : str) : list str :=
  match skip with
  | S k =>
      match s with
      | [] => []
      | c :: s' => findall_from r k (Some c) s'
      end
  | O =>
      match match_at r p s with
      | Some m =>
          default [] (grp m) ::
          match s with
          | [] => []
          | c :: s' => findall_from r (length s - length (rest m) - 1) (Some c) s'
          end
      | None =>
          match s with
          | [] => []
          | c :: s' => findall_from r 0 (Some c) s'
          end
      end
  end.

Definition findall (r : regex) (s : str) : list str := findall_from r 0 None s.

(** [[0-9A-Fa-f]] *)
Definition hexdigit (c : char) : bool :=
  ((48 <=? c) && (c <=? 57)) || ((65 <=? c) && (c <=? 70))
  || ((97 <=? c) && (c <=? 102)).

(** [-?\d+\.\d+] *)
Definition decimal_re : regex :=
  Seq (Opt (Lit (lit "-"))) (Seq (Plus isdecimal) (Seq (Lit (lit ".")) (Plus isdecimal))).

(** ** The parser: [visualize.py] *)

(** Seconds to wait for valid data: the [int] 10 of line 11.  A float is
    compared with an [int] by value, here with the float 10.0. *)
Definition PARSE_TIMEOUT : float := S754_finite false 5629499534213120 (-49).

(** [r'PTAT: (-?\d+\.\d+) C, PEC: 0x[0-9A-Fa-f]{2}'] *)
Definition ptat_re : regex :=
  Seq (Lit (lit "PTAT: "))
    (Seq (Group decimal_re)
       (Seq (Lit (lit " C, PEC: 0x")) (Rep 2 (Class hexdigit)))).

(** [r'Avg Pixel Temp: (-?\d+\.\d+) C'] *)
Definition avg_re : regex :=
  Seq (Lit (lit "Avg Pixel Temp: ")) (Seq (Group decimal_re) (Lit (lit " C"))).

(** [r'^(-?\d+\.\d+(?: -?\d+\.\d+){31})$'] with [re.MULTILINE] *)
Definition grid_re : regex :=
  Seq Bol
    (Seq (Group (Seq decimal_re (Rep 31 (Seq (Lit (lit " ")) decimal_re))))
       Eol).

Inductive exn : Type := ValueError | TypeError | IndexError.

(** A numpy array of floats with two axes, as the list of its rows. *)
Abbreviation grid := (list (list float)) (only parsing).

(** [np.zeros((rows, cols))] *)
Definition zeros (rows cols : nat) : grid := replicate rows (replicate cols zero).

(** The local variables that live across iterations of the loop. *)
Record locals : Type := Locals {
  ptat : option float;
  avg_temp : option float;
  pixels : grid;
  buffer : str
}.

(** What the function hands back: the tuple [ptat, avg_temp, pixels], each
    component possibly [None]. *)
Definition retval : Type := option float * option float * option grid.

Inductive outcome : Type :=
  | Continue (st : locals)
  | Return (v : retval)
  | Raise (e : exn).

Inductive result : Type :=
  | Returned (v : retval)
  | Raised (e : exn).

(** [float(match.group(1))] *)
Definition float_group (m : mstate) : exn + float :=
  match grp m with
  | None => inl TypeError
  | Some g =>
      match py_float g with
      | Some f => inr f
      | None => inl ValueError
      end
  end.

(** Lines 32-34 and 37-39: a scalar is overwritten when its pattern is
    found in the buffer, and kept otherwise. *)
Definition update_scalar (r : regex) (buffer : str) (old : option float)
  : exn + option float :=
  match search r buffer with
  | Some m =>
      match float_group m with
      | inr f => inr (Some f)
      | inl e => inl e
      end
  | None => inr old
  end.

(** [list(map(float, s.split()))]; [None] stands for [ValueError]. *)
Definition row_data_of (s : str) : option (list float) := mapM py_float (split s).

(** Lines 46-49, the loop over [rows]: the exception that ended it, if
    any, and the array as the loop left it. *)
Fixpoint fill_rows (rows : list nat) (grid_lines : list str) (pixels : grid)
  : option exn * grid :=
  match rows with
  | [] => (None, pixels)
  | row :: rows' =>
      match grid_lines !! row with
      | None => (Some IndexError, pixels)
      | Some gl =>
          match row_data_of gl with
          | None => (Some ValueError, pixels)
          | Some row_data =>
              fill_rows rows' grid_lines
                (if (length row_data =? 32)%nat
                 then <[row := row_data]> pixels
                 else pixels)
          end
      end
  end.

(** Lines 45-54: the [try] block and its handler. *)
Definition grid_branch (ptat avg_temp : option float) (pixels : grid)
    (grid_lines : list str) : outcome :=
  match fill_rows (seq 0 32) grid_lines pixels with
  | (None, pixels') => Return (ptat, avg_temp, Some pixels')
  | (Some ValueError, pixels') => Continue (Locals ptat avg_temp pixels' [])
  | (Some e, _) => Raise e
  end.

(** Lines 56-59. *)
Definition reset_if_large (st : locals) : locals :=
  if (10000 <? len (buffer st))%Z
  then Locals (ptat st) (avg_temp st) (pixels st) []
  else st.

(** Lines 31-59: the rest of an iteration once the line is in the
    buffer. *)
Definition scan (st : locals) : outcome :=
  match update_scalar ptat_re (buffer st) (ptat st) with
  | inl e => Raise e
  | inr ptat =>
      match update_scalar avg_re (buffer st) (avg_temp st) with
      | inl e => Raise e
      | inr avg_temp =>
          let st' := Locals ptat avg_temp (pixels st) (buffer st) in
          if bool_decide (is_Some avg_temp) && bool_decide (is_Some ptat) then
            let grid_lines := findall grid_re (buffer st) in
            if (32 <=? length grid_lines)%nat
            then grid_branch ptat avg_temp (pixels st) grid_lines
            else Continue (reset_if_large st')
          else Continue (reset_if_large st')
      end
  end.

(** Lines 25-59: one iteration, on the decoded text [raw] that
    [ser.readline()] delivered. *)
Definition body (st : locals) (raw : str) : outcome :=
  let line := strip raw in
  match line with
  | [] => Continue st
  | _ =>
      scan (Locals (ptat st) (avg_temp st) (pixels st)
              (buffer st ++ line ++ [LF]))
  end.

(** The serial port and the clock, as the function observes them: the
    successive readings of [time.time()], which are floats, and the
    successive lines that [ser.readline()] returns, already decoded
    (decoding with [errors='ignore'] never fails). *)
Record world : Type := World {
  clock : list float;
  port : list str
}.

(** [x - y] on floats: the binary64 number nearest to the difference. *)
Definition float_sub (x y : float) : float := SFsub 53 1024 x y.

(** Line 24, [time.time() - start_time < PARSE_TIMEOUT], for the reading
    [now] of the clock. *)
Definition in_window (start_time now : float) : bool :=
  SFltb (float_sub now start_time) PARSE_TIMEOUT.

(** Lines 18-21. *)
Definition initial : locals := Locals None None (zeros 32 32) [].

(** Lines 24-62: the [while] loop.  [None] means that the observations
    ran out before the function came to an end. *)
Fixpoint loop (start_time : float) (clock : list float) (port : list str)
    (st : locals)
  : option result :=
  match clock with
  | [] => None
  | now :: clock' =>
      if in_window start_time now then
        match port with
        | [] => None
        | raw :: port' =>
            match body st raw with
            | Continue st' => loop start_time clock' port' st'
            | Return v => Some (Returned v)
            | Raise e => Some (Raised e)
            end
        end
      else Some (Returned (None, None, None))
  end.

Definition parse_uart_data (ser : world) : option result :=
  match clock ser with
  | [] => None
  | start_time :: clock' => loop start_time clock' (port ser) initial
  end.

(** ** The caller's view of a call

    [parse_uart_data] once more, this time handing back, beside its
    result, what it leaves of the world: the clock readings it has not
    taken and the reads it has not made.  The next call goes on from
    there. *)
Fixpoint loop_io (start_time : float) (clock : list float) (port : list str)
    (st : locals) : option (result * world) :=
  match clock with
  | [] => None
  | now :: clock' =>
      if in_window start_time now then
        match port with
        | [] => None
        | raw :: port' =>
            match body st raw with
            | Continue st' => loop_io start_time clock' port' st'
            | Return v => Some (Returned v, World clock' port')
            | Raise e => Some (Raised e, World clock' port')
            end
        end
      else Some (Returned (None, None, None), World clock' port)
  end.

Definition parse_uart_data_io (ser : world) : option (result * world) :=
  match clock ser with
  | [] => None
  | start_time :: clock' => loop_io start_time clock' (port ser) initial
  end.

(** ** The display: [visualize_heatmap] and the main loop *)

(** The decimal digits of a number, most significant first. *)
Fixpoint uint_str (d : Decimal.uint) : str :=
  match d with
  | Decimal.Nil => []
  | Decimal.D0 d => 48 :: uint_str d
  | Decimal.D1 d => 49 :: uint_str d
  | Decimal.D2 d => 50 :: uint_str d
  | Decimal.D3 d => 51 :: uint_str d
  | Decimal.D4 d => 52 :: uint_str d
  | Decimal.D5 d => 53 :: uint_str d
  | Decimal.D6 d => 54 :: uint_str d
  | Decimal.D7 d => 55 :: uint_str d
  | Decimal.D8 d => 56 :: uint_str d
  | Decimal.D9 d => 57 :: uint_str d
  end.

Definition decimal_str (n : N) : str := uint_str (N.to_uint n).

(** The integer nearest to [num / den], the even one of two that are
    equally near. *)
Definition round_half_even (num den : N) : N :=
  let q := num / den in
  let r := num mod den in
  match 2 * r ?= den with
  | Lt => q
  | Gt => q + 1
  | Eq => if N.even q then q else q + 1
  end.

(** [f'{x:.1f}'] for a float [x]: the decimal with one digit after the
    point that is nearest to [x]. *)
Definition format_1f (x : float) : str :=
  match x with
  | S754_nan => lit "nan"
  | S754_infinity s => (if s then lit "-" else []) ++ lit "inf"
  | S754_zero s => (if s then lit "-" else []) ++ lit "0.0"
  | S754_finite s m e =>
      let tenths :=
        match e with
        | Z0 => 10 * Npos m
        | Zpos p => 10 * Npos m * 2 ^ Npos p
        | Zneg p => round_half_even (10 * Npos m) (2 ^ Npos p)
        end in
      (if s then lit "-" else [])
        ++ decimal_str (tenths / 10) ++ lit "." ++ decimal_str (tenths mod 10)
  end.

(** [f'{x:.1f}'] for what [parse_uart_data] returns: [None] has no such
    format. *)
Definition format_scalar (x : option float) : exn + str :=
  match x with
  | Some f => inr (format_1f f)
  | None => inl TypeError
  end.

(** The degree sign. *)
Definition DEGREE : char := 176.

(** [f'Thermal Heatmap\nPTAT: {ptat:.1f}°C | Avg: {avg_temp:.1f}°C'] *)
Definition title (ptat avg_temp : option float) : exn + str :=
  match format_scalar ptat with
  | inl e => inl e
  | inr p =>
      match format_scalar avg_temp with
      | inl e => inl e
      | inr a =>
          inr (lit "Thermal Heatmap" ++ [LF] ++ lit "PTAT: " ++ p
                 ++ [DEGREE] ++ lit "C | Avg: " ++ a ++ [DEGREE] ++ lit "C")
      end
  end.

(** [f"Received data - PTAT: {ptat:.1f}°C, Avg: {avg_temp:.1f}°C"] *)
Definition received (ptat avg_temp : option float) : exn + str :=
  match format_scalar ptat with
  | inl e => inl e
  | inr p =>
      match format_scalar avg_temp with
      | inl e => inl e
      | inr a =>
          inr (lit "Received data - PTAT: " ++ p ++ [DEGREE] ++ lit "C, Avg: "
                 ++ a ++ [DEGREE] ++ lit "C")
      end
  end.

(** The calls made on the figure, its axes and its images.  An image is
    known by the position of the [imshow] call that made it; arguments
    that are the same in every call are left out. *)
Inductive call :=
  | Imshow (data : grid)
  | Colorbar (im : nat)
  | SetTitle (s : str)
  | SetXlabel (s : str)
  | SetYlabel (s : str)
  | SetData (im : nat) (data : grid)
  | SetClim (im : nat) (vmin vmax : float)
  | Draw
  | FlushEvents.

(** An exception that ends the main loop: one raised by the program's
    own code, in the parser or when a scalar is formatted, or one that
    comes out of a call on the figure. *)
Inductive raised : Type :=
  | Own (e : exn)
  | Within (c : call).

(** A piece of the display code: from the calls made on the figure so
    far, oldest first, to the calls made after it, with its value or the
    exception that ended it. *)
Definition display (A : Type) : Type := list call → list call * (raised + A).

#[global] Instance display_ret : MRet display := fun A a fig => (fig, inr a).

#[global] Instance display_bind : MBind display :=
  fun A B f m fig =>
    match m fig with
    | (fig', inr a) => f a fig'
    | (fig', inl r) => (fig', inl r)
    end.

(** The value of an expression, or the exception it raises. *)
Definition eval {A} (x : exn + A) : display A :=
  fun fig =>
    (fig, match x with
          | inl e => inl (Own e)
          | inr a => inr a
          end).

Section Display.

(** [np.min] and [np.max] of an array. *)
Variables np_min np_max : grid → float.

(** Whether a call on the figure raises, given the calls made before
    it.  That is up to matplotlib and to what happens to the window;
    nothing is assumed about it.  As the list grows with every call that
    returns, and the first call that raises ends the loop, no question is
    asked twice: every course of events has its [raises]. *)
Variable raises : list call → call → bool.

(** A call on the figure.  A call that returns is entered in the list,
    and its position is handed back; a call that raises leaves no
    entry. *)
Definition invoke (c : call) : display nat :=
  fun fig =>
    if raises fig c then (fig, inl (Within c))
    else (fig ++ [c], inr (length fig)).

(** Lines 64-81.  [fig] holds the calls made so far; the result is
    [fig] with the calls of this one, and the image or the exception the
    call ends with.  The title is formatted before [set_title] is
    called. *)
Definition visualize_heatmap (ptat avg_temp : option float) (pixels : grid)
    (fig : list call) (im : option nat) : list call * (raised + nat) :=
  (im ← match im with
        | None =>
            im ← invoke (Imshow pixels);
            invoke (Colorbar im);;
            t ← eval (title ptat avg_temp);
            invoke (SetTitle t);;
            invoke (SetXlabel (lit "Column"));;
            invoke (SetYlabel (lit "Row"));;
            mret im
        | Some im =>
            invoke (SetData im pixels);;
            t ← eval (title ptat avg_temp);
            invoke (SetTitle t);;
            invoke (SetClim im (np_min pixels) (np_max pixels));;
            mret im
        end;
   invoke Draw;;
   invoke FlushEvents;;
   mret im) fig.

(** Lines 93-99, one turn of [while True]: what is left of the world,
    the figure, and the image to go on with or the exception that ends
    the loop.  Console output is not part of the model, the formatting
    of what is printed is. *)
Definition main_iteration (ser : world) (fig : list call) (im : option nat)
  : option (world * list call * (raised + option nat)) :=
  match parse_uart_data_io ser with
  | None => None
  | Some (Raised e, ser') => Some (ser', fig, inl (Own e))
  | Some (Returned (ptat, avg_temp, pixels), ser') =>
      match pixels with
      | Some pixels =>
          match received ptat avg_temp with
          | inl e => Some (ser', fig, inl (Own e))
          | inr _ =>
              match visualize_heatmap ptat avg_temp pixels fig im with
              | (fig', inr im') => Some (ser', fig', inr (Some im'))
              | (fig', inl e) => Some (ser', fig', inl e)
              end
          end
      | None => Some (ser', fig, inr im)
      end
  end.

(** [n] turns of the loop of lines 92-99, from an empty figure when
    [fig] is [[]] and [im] is [None].  An exception ends the loop. *)
Fixpoint main_loop (n : nat) (ser : world) (fig : list call) (im : option nat)
  : option (world * list call * (raised + option nat)) :=
  match n with
  | O => Some (ser, fig, inr im)
  | S n' =>
      match main_iteration ser fig im with
      | Some (ser', fig', inr im') => main_loop n' ser' fig' im'
      | r => r
      end
  end.

End Display.

(** ** Bytes from the port

    Line 25, [ser.readline().decode('utf-8', errors='ignore')]: the
    characters that the bytes of a read encode in UTF-8.  A byte that
    begins no well-formed sequence is left out. *)

(** A byte [10xxxxxx]. *)
Definition continuation (b : N) : bool := (128 <=? b) && (b <=? 191).

(** The well-formed sequences of two, three and four bytes: no overlong
    forms, no surrogates, nothing above U+10FFFF. *)
Definition two_bytes (b0 b1 : N) : bool :=
  (194 <=? b0) && (b0 <=? 223) && continuation b1.

Definition three_bytes (b0 b1 b2 : N) : bool :=
  (((b0 =? 224) && (160 <=? b1) && (b1 <=? 191))
   || ((225 <=? b0) && (b0 <=? 236) && continuation b1)
   || ((b0 =? 237) && (128 <=? b1) && (b1 <=? 159))
   || ((238 <=? b0) && (b0 <=? 239) && continuation b1))
  && continuation b2.

Definition four_bytes (b0 b1 b2 b3 : N) : bool :=
  (((b0 =? 240) && (144 <=? b1) && (b1 <=? 191))
   || ((241 <=? b0) && (b0 <=? 243) && continuation b1)
   || ((b0 =? 244) && (128 <=? b1) && (b1 <=? 143)))
  && continuation b2 && continuation b3.

Fixpoint decode_ignore (bs : list byte) : str :=
  match bs with
  | [] => []
  | x0 :: bs1 =>
      let b0 := Byte.to_N x0 in
      if b0 <? 128 then b0 :: decode_ignore bs1
      else
        match bs1 with
        | [] => []
        | x1 :: bs2 =>
            let b1 := Byte.to_N x1 in
            if two_bytes b0 b1
            then (b0 - 192) * 64 + (b1 - 128) :: decode_ignore bs2
            else
              match bs2 with
              | [] => decode_ignore bs1
              | x2 :: bs3 =>
                  let b2 := Byte.to_N x2 in
                  if three_bytes b0 b1 b2
                  then (b0 - 224) * 4096 + (b1 - 128) * 64 + (b2 - 128)
                         :: decode_ignore bs3
                  else
                    match bs3 with
                    | [] => decode_ignore bs1
                    | x3 :: bs4 =>
                        let b3 := Byte.to_N x3 in
                        if four_bytes b0 b1 b2 b3
                        then (b0 - 240) * 262144 + (b1 - 128) * 4096
                               + (b2 - 128) * 64 + (b3 - 128)
                               :: decode_ignore bs4
                        else decode_ignore bs1
                    end
              end
        end
  end.

(** [parse_uart_data] on a port that delivers the bytes [reads], one
    element per [readline]. *)
Definition parse_uart_data_bytes (clock : list float) (reads : list (list byte))
  : option result :=
  parse_uart_data (World clock (decode_ignore <$> reads)).

(** ** What a match is

    [sem r p w t g g']: the pattern [r] matches the text [w] when [w] is
    preceded by the character [p] and followed by the text [t]; group 1
    holds [g] before the match and [g'] after it. *)

Definition last_char (p : option char) (w : str) : option char :=
  match list.last w with Some c => Some c | None => p end.

Fixpoint sem (r : regex) (p : option char) (w t : str) (g g' : option str) : Prop :=
  match r with
  | Lit s => w = s ∧ g' = g
  | Class f => ∃ c, w = [c] ∧ f c = true ∧ g' = g
  | Plus f => w ≠ [] ∧ Forall (fun c => f c = true) w ∧ g' = g
  | Opt r' => sem r' p w t g g' ∨ (w = [] ∧ g' = g)
  | Seq r1 r2 =>
      ∃ w1 w2 g1, w = w1 ++ w2 ∧ sem r1 p w1 (w2 ++ t) g g1
                  ∧ sem r2 (last_char p w1) w2 t g1 g'
  | Rep n r' =>
      (fix rep (n : nat) (p : option char) (w : str) (g : option str) : Prop :=
         match n with
         | O => w = [] ∧ g' = g
         | S k =>
             ∃ w1 w2 g1, w = w1 ++ w2 ∧ sem r' p w1 (w2 ++ t) g g1
                         ∧ rep k (last_char p w1) w2 g1
         end) n p w g
  | Group r' => ∃ g1, sem r' p w t g g1 ∧ g' = Some w
  | Bol => w = [] ∧ at_line_start p = true ∧ g' = g
  | Eol => w = [] ∧ at_line_end t = true ∧ g' = g
  end.

(** [m] lies [w] further in the subject than [st]. *)
Definition reach (st : mstate) (w : str) (m : mstate) : Prop :=
  rest st = w ++ rest m ∧ prev m = last_char (prev st) w.

(** A pattern that cannot consume a line feed. *)
Fixpoint nl_free (r : regex) : Prop :=
  match r with
  | Lit s => LF ∉ s
  | Class f | Plus f => f LF = false
  | Opt r' | Rep _ r' | Group r' => nl_free r'
  | Seq r1 r2 => nl_free r1 ∧ nl_free r2
  | Bol | Eol => True
  end.

(** The same position in a subject that goes on with [t]. *)
Definition extend (t : str) (m : mstate) : mstate :=
  MState (prev m) (rest m ++ t) (grp m).

(** ** The wire format, in the words of the specification *)

(** The buffer that holds the lines [ls]. *)
Definition unlines (ls : list str) : str := concat ((fun l => l ++ [LF]) <$> ls).

(** The longest run of decimal digits at the start of a text, and what
    follows it. *)
Fixpoint span_decimal (s : str) : str * str :=
  match s with
  | c :: s' =>
      if isdecimal c then let '(ds, r) := span_decimal s' in (c :: ds, r)
      else ([], s)
  | [] => ([], [])
  end.

(** Digits, a point, digits. *)
Definition is_unsigned_decimal (w : str) : bool :=
  match span_decimal w with
  | (_ :: _, c :: ((_ :: _) as fp)) => (c =? 46) && forallb isdecimal fp
  | _ => false
  end.

(** A signed decimal: an optional minus sign, digits, a point, digits. *)
Definition is_signed_decimal (w : str) : bool :=
  match w with
  | c :: w' => if c =? 45 then is_unsigned_decimal w' else is_unsigned_decimal w
  | [] => false
  end.

(** The fields of a text cut at every occurrence of [sep]. *)
Fixpoint fields (sep : char) (s : str) : list str :=
  match s with
  | [] => [[]]
  | c :: s' =>
      if c =? sep then [] :: fields sep s'
      else match fields sep s' with
           | f :: fs => (c :: f) :: fs
           | [] => [[c]]
           end
  end.

(** [sep.join(ws)] *)
Fixpoint join (sep : char) (ws : list str) : str :=
  match ws with
  | [] => []
  | [w] => w
  | w :: ws' => w ++ sep :: join sep ws'
  end.

(** A grid line: exactly 32 signed decimals, one space between
    neighbours. *)
Definition is_grid_line (l : str) : bool :=
  let fs := fields SPACE l in
  (length fs =? 32)%nat && forallb is_signed_decimal fs.

(** A line of exactly 32 signed decimals separated by whitespace of any
    kind. *)
Definition is_grid_line_any_space (l : str) : bool :=
  let fs := split l in
  (length fs =? 32)%nat && forallb is_signed_decimal fs.

(** The same two notions as predicates on the parts of a text. *)
Definition decimal_text (w : str) : Prop :=
  ∃ sg ip fp, w = sg ++ ip ++ 46%N :: fp ∧ (sg = [45%N] ∨ sg = [])
              ∧ ip ≠ [] ∧ Forall (fun c => isdecimal c = true) ip
              ∧ fp ≠ [] ∧ Forall (fun c => isdecimal c = true) fp.

Definition grid_text (w : str) : Prop :=
  ∃ ds, length ds = 32%nat ∧ Forall decimal_text ds ∧ w = join SPACE ds.

(** The rows of numbers that grid lines denote; a text that is no number
    denotes nothing. *)
Definition grid_of (gls : list str) : option grid := mapM row_data_of gls.

(** [PTAT: <d> C, PEC: 0x<hh>] *)
Definition ptat_line (d : str) (h1 h2 : char) : str :=
  lit "PTAT: " ++ d ++ lit " C, PEC: 0x" ++ [h1; h2].

(** [Avg Pixel Temp: <d> C] *)
Definition avg_line (d : str) : str := lit "Avg Pixel Temp: " ++ d ++ lit " C".

(** ** Sample streams *)

(** The reading of a clock that stands at [q] seconds: the float nearest
    to [q]. *)
Definition seconds (q : Q) : float :=
  round_binary64 (Qnum q <? 0)%Z (Z.abs (Qnum q)) (Z.pos (Qden q)).

(** [n] readings of a clock that starts at [t0] seconds and advances by
    a hundredth of a second between readings. *)
Definition ticks (t0 : Q) (n : nat) : list float :=
  (fun i => seconds (t0 + inject_Z (Z.of_nat i) / 100)) <$> seq 0 n.

(** What [readline] returns for a line of text sent with CR LF. *)
Definition sent (l : str) : str := l ++ [13%N; LF].

(** A line of 32 zeros: [0.0 0.0 ... 0.0]. *)
Definition zeros_line : str := join SPACE (replicate 32 (lit "0.0")).

(** The end-to-end example of the specification. *)
Definition example_lines : list str :=
  lit "PTAT: 25.3 C, PEC: 0x1F" :: lit "Avg Pixel Temp: 24.8 C"
    :: replicate 32 zeros_line.

Definition example_world : world :=
  World (ticks 0 40) (sent <$> example_lines).

(** [is_nearest f q]: the normal binary64 number [f] lies within half a
    unit in the last place of the rational [q], so that [f] is what
    [float] returns for a literal that denotes [q]. *)
Definition is_nearest (f : float) (q : Q) : Prop :=
  match f with
  | S754_finite s m e =>
      (2 ^ 52 ≤ Z.pos m < 2 ^ 53)%Z
      ∧ (Qabs ((if s then -1 else 1) * inject_Z (Z.pos m) * 2 ^ e - q)
         <= (1 # 2) * 2 ^ e)%Q
  | S754_zero _ => (q == 0)%Q
  | _ => False
  end.

(** The binary64 numbers nearest to 25.3 and to 24.8. *)
Definition f25_3 : float := S754_finite false 7121316910779597 (-48).
Definition f24_8 : float := S754_finite false 6980579422424269 (-48).

Definition example_frame : retval := (Some f25_3, Some f24_8, Some (zeros 32 32)).

(** The (None, None, None) of line 62. *)
Definition no_data : retval := (None, None, None).

(** A line of 10001 letters x. *)
Definition long_line : str := replicate (N.to_nat 10001) 120%N.

(** The buffer that holds the whole example, and the local variables of
    an iteration that has just put its last line there. *)
Definition example_buffer : str := unlines example_lines.

Definition example_locals : locals := Locals None None (zeros 32 32) example_buffer.

(** A stream that carries both scalars and no grid, on a clock that
    passes the deadline at its third check. *)
Definition no_grid_world : world :=
  World (seconds <$> [0; 1; 2; 11]%Q)
    (sent <$> [lit "PTAT: 25.3 C, PEC: 0x1F"; lit "Avg Pixel Temp: 24.8 C"]).

(** A stream that repeats each scalar line with another value before the
    grid. *)
Definition duplicate_world : world :=
  World (ticks 0 40)
    (sent <$> ([lit "PTAT: 25.3 C, PEC: 0x1F"; lit "PTAT: 99.9 C, PEC: 0x2A";
                lit "Avg Pixel Temp: 24.8 C"; lit "Avg Pixel Temp: 11.1 C"]
               ++ replicate 32 zeros_line)).

(** For the pattern [r] of a scalar: in a buffer of whole lines the
    scalar is read from the first line that matches, whatever follows
    that line; and text appended to a buffer that already has a match
    does not change the scalar. *)
Definition first_match_wins (r : regex) : Prop :=
  (∀ pre l post m old,
     Forall (fun l' => search r l' = None) pre → search r l = Some m →
     update_scalar r (unlines (pre ++ l :: post)) old = update_scalar r l old)
  ∧ (∀ ls more old old',
       is_Some (search r (unlines ls)) →
       update_scalar r (unlines ls ++ more) old
       = update_scalar r (unlines ls) old').

(** A stream in which a line of 10001 characters stands between the
    scalar lines and the grid, and the local variables right after that
    line has been read. *)
Definition reset_world : world :=
  World (ticks 0 40)
    (sent <$> ([lit "PTAT: 25.3 C, PEC: 0x1F"; lit "Avg Pixel Temp: 24.8 C";
                long_line] ++ replicate 32 zeros_line)).

Definition after_reset : locals := Locals (Some f25_3) (Some f24_8) (zeros 32 32) [].

(** The local variables of the example when its last line is still to be
    read. *)
Definition almost_complete : locals :=
  Locals (Some f25_3) (Some f24_8) (zeros 32 32)
    (unlines (lit "PTAT: 25.3 C, PEC: 0x1F" :: lit "Avg Pixel Temp: 24.8 C"
                :: replicate 31 zeros_line)).

(** A line of 32 zeros with a tab between neighbours, one with two spaces
    between the first two, and the example with its grid sent in
    tab-separated lines, on a clock that passes the deadline after the
    last line. *)
Definition tab_line : str := join 9%N (replicate 32 (lit "0.0")).

Definition wide_line : str := lit "0.0  " ++ join SPACE (replicate 31 (lit "0.0")).

Definition tab_world : world :=
  World (ticks 0 35 ++ [seconds 11])
    (sent <$> (lit "PTAT: 25.3 C, PEC: 0x1F" :: lit "Avg Pixel Temp: 24.8 C"
                 :: replicate 32 tab_line)).

(** Line 26, [if not line]: a read that holds nothing but whitespace. *)
Definition is_blank (raw : str) : bool := bool_decide (strip raw = []).

(** The example with a read that timed out before its first line. *)
Definition blank_world : world :=
  World (seconds 0 :: ticks 0 40) ([] :: (sent <$> example_lines)).

(** A grid line of 32 values of ten characters each, 351 characters in
    all, and a well-formed frame of such lines on a clock that passes the
    deadline after the last line. *)
Definition long_value_line : str := join SPACE (replicate 32 (lit "-12.345678")).

Definition long_value_world : world :=
  World (seconds 0 :: ticks 0 34 ++ [seconds 11])
    (sent <$> (lit "PTAT: 25.3 C, PEC: 0x1F" :: lit "Avg Pixel Temp: 24.8 C"
                 :: replicate 32 long_value_line)).

(** A line of 32 ones, and a stream that starts with the last two grid
    lines of one frame (all ones) and goes on with the next frame (all
    zeros). *)
Definition ones_line : str := join SPACE (replicate 32 (lit "1.0")).

Definition mid_frame_lines : list str :=
  replicate 2 ones_line
    ++ lit "PTAT: 25.3 C, PEC: 0x1F" :: lit "Avg Pixel Temp: 24.8 C"
    :: replicate 30 zeros_line.

(** The reads of one well-formed frame: a PTAT line, an average line
    and 32 grid lines, the first 33 of them within the bound of the
    buffer. *)
Definition frame_reads (raws : list str) (dp da : str) (rows : list str) : Prop :=
  ∃ h1 h2,
    strip <$> raws = ptat_line dp h1 h2 :: avg_line da :: rows
    ∧ is_signed_decimal dp = true ∧ hexdigit h1 = true ∧ hexdigit h2 = true
    ∧ is_signed_decimal da = true
    ∧ length rows = 32%nat ∧ Forall (fun l => is_grid_line l = true) rows
    ∧ (len (unlines (take 33 (ptat_line dp h1 h2 :: avg_line da :: rows)))
       ≤ 10000)%Z.

(** A call that does not make an image or a colorbar, and that acts, if
    on an image, on image [i]. *)
Definition updates (i : nat) (c : call) : Prop :=
  match c with
  | Imshow _ | Colorbar _ => False
  | SetData j _ | SetClim j _ _ => j = i
  | _ => True
  end.




(** What the figure is after any number of turns from an empty one:
    still empty, or made of one image, its colorbar, and calls that
    update them. *)
Definition figure_ok (fig : list call) (im : option nat) : Prop :=
  match im with
  | None => fig = []
  | Some i =>
      i = 0%nat
      ∧ ∃ px rest, fig = Imshow px :: Colorbar 0 :: rest
                   ∧ Forall (updates 0) rest
  end.

(** Two frames, one after the other, each on its own stretch of the
    clock. *)
Definition two_frames_world : world :=
  World (seconds 0 :: ticks 0 34 ++ seconds 20 :: ticks 20 34 ++ [])
    ((sent <$> example_lines) ++ (sent <$> example_lines) ++ []).

(** The digits of a text as a number in decimal notation. *)
Definition digit_uint (c : char) (d : Decimal.uint) : Decimal.uint :=
  match c - 48 with
  | 0 => Decimal.D0 d
  | 1 => Decimal.D1 d
  | 2 => Decimal.D2 d
  | 3 => Decimal.D3 d
  | 4 => Decimal.D4 d
  | 5 => Decimal.D5 d
  | 6 => Decimal.D6 d
  | 7 => Decimal.D7 d
  | 8 => Decimal.D8 d
  | _ => Decimal.D9 d
  end.

Fixpoint uint_of_digits (s : str) : Decimal.uint :=
  match s with
  | [] => Decimal.Nil
  | c :: s' => digit_uint c (uint_of_digits s')
  end.

(** A reading with one digit after the point, as [%.1f] prints it: an
    optional minus sign, one to fourteen ASCII digits with no zero in
    front of them unless the zero is the only one, a point and one more
    digit. *)
Definition one_decimal (d : str) : Prop :=
  ∃ (neg : bool) ip f,
    d = (if neg then [45] else []) ++ ip ++ [46; f]
    ∧ Forall (fun c => ascii_isdigit c = true) ip ∧ ip ≠ []
    ∧ (length ip ≤ 14)%nat
    ∧ (list.head ip = Some 48 → ip = [48])
    ∧ ascii_isdigit f = true.

(** A byte that begins no UTF-8 sequence of more than one byte: an ASCII
    byte, a continuation byte, or one of C0, C1, F5 to FF. *)
Definition no_lead (x : byte) : Prop :=
  (Byte.to_N x < 194 ∨ 244 < Byte.to_N x)%N.

Definition is_ascii (x : byte) : bool := Byte.to_N x <? 128.

(** The bytes of an ASCII text. *)
Definition bytes (s : string) : list byte := list_byte_of_string s.

(** The line that a read adds to the buffer, if any (lines 25-29), and
    the lines that a sequence of reads adds. *)
Definition appended (raw : str) : option str :=
  match strip raw with
  | [] => None
  | line => Some line
  end.

Definition lines_read (raws : list str) : list str := omap appended raws.

(** The lines [ls] contain a frame: a well-formed PTAT line, which is
    the first of the lines to hold a PTAT reading, a well-formed average
    line, which is the first to hold an average reading, and 32 or more
    well-formed grid lines, the first 32 of which are [rows].  The lines
    may stand in any order, among other lines.  No line holds a line
    feed: [readline] stops at the first. *)
Definition holds_frame (ls : list str) (dp : str) (h1 h2 : char) (da : str)
    (rows : list str) : Prop :=
  Forall (fun l => LF ∉ l) ls
  ∧ is_signed_decimal dp = true ∧ hexdigit h1 = true ∧ hexdigit h2 = true
  ∧ is_signed_decimal da = true
  ∧ (∃ before after,
       ls = before ++ ptat_line dp h1 h2 :: after
       ∧ Forall (fun l => search ptat_re l = None) before)
  ∧ (∃ before after,
       ls = before ++ avg_line da :: after
       ∧ Forall (fun l => search avg_re l = None) before)
  ∧ take 32 (List.filter is_grid_line ls) = rows
  ∧ length rows = 32%nat.

(** A frame whose lines arrive out of order and among other text: two
    grid lines, the average line, a line of text, the PTAT line and 30
    grid lines; the reads begin with one that timed out and end with a
    further line of text. *)
Definition scattered_lines : list str :=
  replicate 2 ones_line
    ++ lit "Avg Pixel Temp: 24.8 C" :: lit "D6T-32L ready"
    :: lit "PTAT: 25.3 C, PEC: 0x1F" :: replicate 30 zeros_line.

Definition scattered_reads : list str :=
  [] :: (sent <$> scattered_lines) ++ [sent (lit "end of frame")].

(** The local variables when all lines of [scattered_lines] but the last
    are in the buffer. *)
Definition scattered_locals : locals :=
  Locals None None (zeros 32 32) (unlines (removelast scattered_lines)).

(** What the figure is when the loop has come to an end, by an exception
    or not: as [figure_ok] has it, or with an image that did not get its
    colorbar. *)
Definition figure_begun (fig : list call) : Prop :=
  fig = []
  ∨ (∃ px, fig = [Imshow px])
  ∨ ∃ px rest, fig = Imshow px :: Colorbar 0 :: rest ∧ Forall (updates 0) rest.


Definition colorbar_raises (fig : list call) (c : call) : bool :=
  match c with
  | Colorbar _ => true
  | _ => false
  end.

(** The calls of a list, made one after the other until one raises:
    the figure after them, and the call that raised, if any. *)
Fixpoint attempt (raises : list call → call → bool) (fig : list call)
    (cs : list call) : list call * option call :=
  match cs with
  | [] => (fig, None)
  | c :: cs' =>
      if raises fig c then (fig, Some c) else attempt raises (fig ++ [c]) cs'
  end.

(** The calls that [visualize_heatmap] sets out to make for a frame
    with title [t], with and without an image to begin with. *)
Definition calls_of (np_min np_max : grid → float) (t : str) (px : grid)
    (fig : list call) (im : option nat) : list call :=
  match im with
  | None =>
      [Imshow px; Colorbar (length fig); SetTitle t; SetXlabel (lit "Column");
       SetYlabel (lit "Row"); Draw; FlushEvents]
  | Some i =>
      [SetData i px; SetTitle t; SetClim i (np_min px) (np_max px); Draw;
       FlushEvents]
  end.

(** An array of 32 rows of 32 numbers. *)
Definition shape_ok (px : grid) : Prop :=
  length px = 32%nat ∧ Forall (fun rd => length rd = 32%nat) px.

(** The states the loop can be in when it reads. *)
Inductive reachable : locals -> Prop :=
  | reachable_initial : reachable initial
  | reachable_step st raw st' :
      reachable st -> body st raw = Continue st' -> reachable st'.

(* ================================================================= *)
(** * Properties *)

Local Open Scope nat_scope.
Local Arguments N.eqb : simpl never.
Local Arguments N.leb : simpl never.
Local Arguments N.ltb : simpl never.

(** ** The runtime model on sample inputs *)

Example strip_sample :
  strip (lit " " ++ [9; 32] ++ lit "a b " ++ [LF])%N = lit "a b"
  ∧ strip [31; 32; 133]%N = [].
Proof. by vm_compute. Qed.

Example split_sample :
  split (lit " a  bc" ++ [9%N] ++ lit "d" ++ [28%N] ++ lit "e" ++ [12288%N]
           ++ lit "f ")
  = [lit "a"; lit "bc"; lit "d"; lit "e"; lit "f"]
  ∧ split (lit "x" ++ [0%N] ++ lit "y") = [lit "x" ++ [0%N] ++ lit "y"].
Proof. by vm_compute. Qed.

Example float_accepts :
  py_float (lit "1.5") = Some (S754_finite false 6755399441055744 (-52))
  ∧ py_float (lit " 1.5 ") = py_float (lit "1.5")
  ∧ py_float (lit "+1.5") = py_float (lit "1.5")
  ∧ py_float [1633; 46; 1637]%N = py_float (lit "1.5")
  ∧ py_float ([160%N] ++ lit "1.5") = py_float (lit "1.5")
  ∧ py_float (lit "1_0.5") = py_float (lit "10.5")
  ∧ py_float (lit "1e5") = py_float (lit "100000.0")
  ∧ py_float (lit "5.") = py_float (lit "5.0")
  ∧ py_float (lit ".5") = py_float (lit "0.5")
  ∧ py_float (lit "-0.0") = Some (S754_zero true)
  ∧ py_float (lit "1e400") = Some (S754_infinity false)
  ∧ py_float (lit "-Infinity") = Some (S754_infinity true)
  ∧ py_float (lit "nan") = Some S754_nan.
Proof. by vm_compute. Qed.

Example float_rejects :
  Forall (fun s => py_float s = None)
    [lit ""; lit "  "; lit "abc"; lit "."; lit "-"; lit "--1"; lit "1 .5";
     lit "1__0.5"; lit "_1.5"; lit "1_.5"; lit "1.5_"; lit "1e"; lit "1e_5";
     lit "0x10"; lit "1,5"; lit "infinit"; [28%N] ++ lit "1.5"].
Proof. repeat constructor. Qed.

Example search_sample :
  grp <$> search ptat_re (lit "xxPTAT: -25.3 C, PEC: 0x1FPTAT: 5.3 C, PEC: 0x1F")
  = Some (Some (lit "-25.3"))
  ∧ search ptat_re (lit "PTAT: 25.3 C, PEC: 0x1") = None
  ∧ grp <$> search ptat_re (lit "PTAT: 25.3 C, PEC: 0x1G PTAT: 7.0 C, PEC: 0xab")
    = Some (Some (lit "7.0"))
  ∧ grp <$> search ptat_re
              (lit "PTAT: " ++ [1633; 1634; 46; 1637]%N ++ lit " C, PEC: 0xaB")
    = Some (Some [1633; 1634; 46; 1637]%N)
  ∧ search ptat_re (lit "PTAT: --1.5 C, PEC: 0x00") = None
  ∧ search ptat_re (lit "PTAT: 1.5 C, PEC: 0X00") = None
  ∧ grp <$> search avg_re (lit "Avg Pixel Temp: 12.5 Cx") = Some (Some (lit "12.5"))
  ∧ search avg_re (lit "Avg Pixel Temp: 1. C") = None
  ∧ search avg_re (lit "avg pixel temp: 1.0 C") = None.
Proof. by vm_compute. Qed.

Example findall_sample :
  findall grid_re (zeros_line ++ [LF] ++ lit "abc" ++ [LF] ++ zeros_line)
  = [zeros_line; zeros_line]
  ∧ findall grid_re (lit " " ++ zeros_line ++ [LF] ++ zeros_line ++ lit " " ++ [LF])
    = []
  ∧ findall grid_re (join SPACE (replicate 31 (lit "0.0")) ++ [LF]
                       ++ join SPACE (replicate 33 (lit "0.0")) ++ [LF])
    = []
  ∧ findall grid_re (zeros_line ++ [13%N; LF] ++ zeros_line ++ [LF])
    = [zeros_line]
  ∧ findall grid_re (join SPACE (replicate 32 (lit "-1.5")) ++ [LF])
    = [join SPACE (replicate 32 (lit "-1.5"))]
  ∧ findall grid_re (join SPACE (replicate 32 (lit "+1.5")) ++ [LF]) = []
  ∧ findall grid_re (join SPACE (replicate 32 (lit "1")) ++ [LF]) = [].
Proof. by vm_compute. Qed.

(** The difference of two readings of the clock is rounded before it is
    compared with the timeout: from 0.1 to 10.1 it is the float 10.0,
    which is not below 10, although the two floats are less than ten
    seconds apart. *)
Example window_sample :
  in_window (seconds (1 # 10)) (seconds (101 # 10)) = false
  ∧ in_window (seconds (1 # 10)) (seconds (1009 # 100)) = true
  ∧ in_window (seconds 0) (seconds 10) = false
  ∧ in_window (seconds 5) (seconds 0) = true
  ∧ in_window (seconds 0) S754_nan = false.
Proof. by vm_compute. Qed.

(** ** Characters *)

Lemma decimal_block_Some c zs z :
  decimal_block c zs = Some z → z ∈ zs ∧ (z ≤ c ≤ z + 9)%N.
Proof.
  induction zs as [|z0 zs IH]; simpl; [done|].
  destruct (N.ltb_spec c z0); [done|].
  destruct (N.leb_spec c (z0 + 9)).
  - intros [= <-]. split; [left|lia].
  - intros [? ?]%IH. split; [by right|done].
Qed.

Lemma increasing_head z0 zs z :
  increasing (z0 :: zs) = true → z ∈ zs → (z0 < z)%N.
Proof.
  revert z0. induction zs as [|z1 zs IH]; intros z0; [by intros _ ?%elem_of_nil|].
  cbn [increasing]. intros [Hlt Hinc]%andb_true_iff. apply N.ltb_lt in Hlt.
  intros [->|Hz]%elem_of_cons; [done|].
  specialize (IH z1 Hinc Hz). lia.
Qed.

Lemma decimal_block_is_Some c zs z :
  increasing zs = true → z ∈ zs → (z ≤ c ≤ z + 9)%N →
  is_Some (decimal_block c zs).
Proof.
  induction zs as [|z0 zs IH]; [by intros _ ?%elem_of_nil|].
  intros Hinc Hz Hc. simpl.
  destruct (N.ltb_spec c z0) as [Hlt|_].
  - apply elem_of_cons in Hz as [->|Hz]; [lia|].
    pose proof (increasing_head z0 zs z Hinc Hz). lia.
  - destruct (N.leb_spec c (z0 + 9)) as [|Hgt]; [done|].
    apply elem_of_cons in Hz as [->|Hz]; [lia|].
    apply IH; [|done..]. destruct zs; [done|].
    cbn [increasing] in Hinc. by apply andb_true_iff in Hinc as [_ ?].
Qed.

Lemma isdecimal_spec c :
  isdecimal c = true ↔ ∃ z, z ∈ decimal_zeros ∧ (z ≤ c ≤ z + 9)%N.
Proof.
  unfold isdecimal, to_decimal. rewrite bool_decide_eq_true, fmap_is_Some.
  split.
  - intros [z Hz%decimal_block_Some]. by exists z.
  - intros (z & Hin & Hb). by apply (decimal_block_is_Some c _ z).
Qed.

(** ** The matcher enumerates exactly the matches *)

Lemma last_char_cons p c w : last_char p (c :: w) = last_char (Some c) w.
Proof. unfold last_char. rewrite last_cons. by destruct (list.last w). Qed.

Lemma last_char_app p w1 w2 :
  last_char p (w1 ++ w2) = last_char (last_char p w1) w2.
Proof.
  unfold last_char. rewrite last_app. by destruct (list.last w2).
Qed.

Lemma mstate_eq m1 m2 :
  prev m1 = prev m2 → rest m1 = rest m2 → grp m1 = grp m2 → m1 = m2.
Proof. destruct m1, m2; simpl; congruence. Qed.

Lemma reach_nil st m : reach st [] m ↔ rest st = rest m ∧ prev m = prev st.
Proof. done. Qed.

Lemma reach_trans st w1 m1 w2 m :
  reach st w1 m1 → reach m1 w2 m → reach st (w1 ++ w2) m.
Proof.
  intros [H1 H2] [H3 H4]. split.
  - by rewrite H1, H3, (assoc_L (++)).
  - by rewrite H4, H2, last_char_app.
Qed.

Lemma reach_length st w m :
  reach st w m → length (rest st) - length (rest m) = length w.
Proof. intros [-> _]. rewrite length_app. lia. Qed.

Lemma consumed_reach st w m : reach st w m → consumed st m = w.
Proof.
  intros H. unfold consumed. rewrite (reach_length _ _ _ H).
  destruct H as [-> _]. by rewrite take_app_length.
Qed.

Lemma lit_match_spec s st m :
  m ∈ lit_match s st ↔ reach st s m ∧ grp m = grp st.
Proof.
  revert st. induction s as [|c s IH]; intros st; simpl.
  - rewrite list_elem_of_singleton, reach_nil. split.
    + by intros ->.
    + intros [[? ?] ?]. by apply mstate_eq.
  - unfold reach. rewrite last_char_cons. destruct (rest st) as [|x xs] eqn:E.
    + rewrite elem_of_nil. split; [done|]. by intros [[? _] _].
    + destruct (N.eqb_spec x c) as [->|Hne].
      * rewrite IH. unfold reach. simpl. split.
        -- intros [[-> ?] ?]. done.
        -- intros [[[= ->] ?] ?]. done.
      * rewrite elem_of_nil. split; [done|]. intros [[[= ? _] _] _]. done.
Qed.

Lemma plus_match_spec f s g m :
  m ∈ plus_match f s g ↔
  ∃ w, w ≠ [] ∧ Forall (fun c => f c = true) w ∧ s = w ++ rest m
       ∧ prev m = list.last w ∧ grp m = g.
Proof.
  revert m. induction s as [|c s IH]; intros m; simpl.
  - rewrite elem_of_nil. split; [done|].
    intros (w & Hw & _ & Hs & _). by destruct w.
  - destruct (f c) eqn:Hc.
    + rewrite elem_of_app, IH, list_elem_of_singleton. split.
      * intros [(w & Hw & Hall & -> & Hp & Hg) | ->].
        -- exists (c :: w). repeat split; [done|by constructor|..|done].
           rewrite Hp. by destruct w.
        -- exists [c]. repeat split; [done|by repeat constructor].
      * intros (w & Hw & Hall & Hs & Hp & Hg).
        destruct w as [|c' w]; [done|]. simplify_eq/=.
        inversion_clear Hall as [|?? _ Hall'].
        destruct w as [|c'' w].
        -- right. by apply mstate_eq.
        -- left. exists (c'' :: w). done.
    + rewrite elem_of_nil. split; [done|].
      intros (w & Hw & Hall & Hs & _). destruct w as [|c' w]; [done|].
      simplify_eq/=. inversion_clear Hall. congruence.
Qed.

Lemma rep_spec r n :
  (∀ st m, m ∈ matches r st ↔
           ∃ w, reach st w m ∧ sem r (prev st) w (rest m) (grp st) (grp m)) →
  ∀ st m, m ∈ matches (Rep n r) st ↔
          ∃ w, reach st w m ∧ sem (Rep n r) (prev st) w (rest m) (grp st) (grp m).
Proof.
  intros IHr. induction n as [|n IHn]; intros st m.
  - simpl. rewrite list_elem_of_singleton. split.
    + intros ->. by exists [].
    + intros (w & Hr & -> & Hg). apply reach_nil in Hr as [? ?].
      by apply mstate_eq.
  - change (matches (Rep (S n) r) st) with (matches r st ≫= matches (Rep n r)).
    rewrite list_elem_of_bind. split.
    + intros (m1 & Hm & Hm1). apply IHn in Hm as (w2 & Hr2 & Hs2).
      apply IHr in Hm1 as (w1 & Hr1 & Hs1).
      exists (w1 ++ w2). split; [by eapply reach_trans|].
      exists w1, w2, (grp m1). split; [done|].
      destruct Hr2 as [E2 _]. rewrite <- E2. split; [done|].
      destruct Hr1 as [_ <-]. exact Hs2.
    + intros (w & [Hr Hp] & w1 & w2 & g1 & -> & Hs1 & Hs2).
      exists (MState (last_char (prev st) w1) (w2 ++ rest m) g1). split.
      * apply IHn. exists w2. split; [split; [done|]|done].
        simpl. by rewrite Hp, last_char_app.
      * apply IHr. exists w1. split; [|done]. split; [|done].
        simpl. by rewrite Hr, (assoc_L (++)).
Qed.

(** The matcher is sound and complete for [sem]. *)
Theorem matches_spec r st m :
  m ∈ matches r st ↔
  ∃ w, reach st w m ∧ sem r (prev st) w (rest m) (grp st) (grp m).
Proof.
  revert st m. induction r as [s|f|f|r IH|r1 IH1 r2 IH2|n r IH|r IH| |];
    intros st m.
  - simpl. rewrite lit_match_spec. split.
    + intros [? ?]. by exists s.
    + intros (w & ? & -> & ?). done.
  - simpl. unfold reach. destruct (rest st) as [|c s'] eqn:E.
    + rewrite elem_of_nil. split; [done|].
      intros (w & [? _] & c & -> & _). done.
    + destruct (f c) eqn:Hc.
      * rewrite list_elem_of_singleton. split.
        -- intros ->. exists [c]. simpl. split; [done|]. by exists c.
        -- intros (w & [Hs Hp] & c' & -> & _ & Hg). simplify_eq/=.
           by apply mstate_eq.
      * rewrite elem_of_nil. split; [done|].
        intros (w & [Hs _] & c' & -> & Hc' & _). simplify_eq/=. congruence.
  - simpl. rewrite plus_match_spec. unfold reach, last_char. split.
    + intros (w & Hw & Hall & Hs & Hp & Hg). exists w.
      rewrite Hp. split; [split; [done|]|done].
      destruct w as [|c w] using rev_ind; [done|]. by rewrite last_snoc.
    + intros (w & [Hs Hp] & Hw & Hall & Hg). exists w.
      repeat split; try done. rewrite Hp.
      destruct w as [|c w _] using rev_ind; [done|]. by rewrite last_snoc.
  - simpl. rewrite elem_of_app, IH, list_elem_of_singleton. split.
    + intros [(w & ? & ?) | ->].
      * exists w. split; [done|by left].
      * exists []. split; [done|by right].
    + intros (w & Hr & [Hs | [-> Hg]]).
      * left. by exists w.
      * right. apply reach_nil in Hr as [? ?]. by apply mstate_eq.
  - simpl. rewrite list_elem_of_bind. split.
    + intros (m1 & Hm & Hm1). apply IH2 in Hm as (w2 & Hr2 & Hs2).
      apply IH1 in Hm1 as (w1 & Hr1 & Hs1).
      exists (w1 ++ w2). split; [by eapply reach_trans|].
      exists w1, w2, (grp m1). split; [done|].
      destruct Hr2 as [E2 _]. rewrite <- E2. split; [done|].
      destruct Hr1 as [_ <-]. exact Hs2.
    + intros (w & [Hr Hp] & w1 & w2 & g1 & -> & Hs1 & Hs2).
      exists (MState (last_char (prev st) w1) (w2 ++ rest m) g1). split.
      * apply IH2. exists w2. split; [split; [done|]|done].
        simpl. by rewrite Hp, last_char_app.
      * apply IH1. exists w1. split; [|done]. split; [|done].
        simpl. by rewrite Hr, (assoc_L (++)).
  - by apply rep_spec.
  - simpl. rewrite list_elem_of_fmap. split.
    + intros (m' & -> & Hm'). apply IH in Hm' as (w & Hr & Hs).
      exists w. simpl. split; [done|]. exists (grp m'). split; [done|].
      by rewrite (consumed_reach _ _ _ Hr).
    + intros (w & Hr & g1 & Hs & Hg).
      exists (MState (prev m) (rest m) g1). split.
      * apply mstate_eq; simpl; try done.
        rewrite Hg. f_equal. symmetry. by apply consumed_reach.
      * apply IH. by exists w.
  - simpl. destruct (at_line_start (prev st)) eqn:E.
    + rewrite list_elem_of_singleton. split.
      * intros ->. by exists [].
      * intros (w & Hr & -> & _ & Hg). apply reach_nil in Hr as [? ?].
        by apply mstate_eq.
    + rewrite elem_of_nil. split; [done|]. intros (w & _ & _ & ? & _). congruence.
  - simpl. destruct (at_line_end (rest st)) eqn:E.
    + rewrite list_elem_of_singleton. split.
      * intros ->. by exists [].
      * intros (w & Hr & -> & _ & Hg). apply reach_nil in Hr as [? ?].
        by apply mstate_eq.
    + rewrite elem_of_nil. split; [done|].
      intros (w & Hr & -> & He & _). apply reach_nil in Hr as [Hr _].
      simpl in Hr. rewrite <- Hr in He. congruence.
Qed.

(** ** Matches do not cross a line feed *)

Lemma extend_bind (t : str) (F : mstate → list mstate) l :
  (∀ m, F (extend t m) = extend t <$> F m) →
  (extend t <$> l) ≫= F = extend t <$> (l ≫= F).
Proof.
  intros HF. induction l as [|m l IH]; [done|].
  rewrite fmap_cons, !bind_cons, fmap_app, HF. by f_equal.
Qed.

Lemma lit_match_extend s t st :
  LF ∉ s → lit_match s (extend (LF :: t) st) = extend (LF :: t) <$> lit_match s st.
Proof.
  revert st. induction s as [|c s IH]; intros st Hs; [done|].
  apply not_elem_of_cons in Hs as [Hc Hs]. simpl.
  destruct (rest st) as [|x xs]; simpl.
  - destruct (N.eqb_spec LF c); [done|done].
  - destruct (x =? c)%N; [|done]. by rewrite <- IH.
Qed.

Lemma plus_match_extend f s t g :
  f LF = false →
  plus_match f (s ++ LF :: t) g = extend (LF :: t) <$> plus_match f s g.
Proof.
  intros Hf. induction s as [|c s IH]; simpl.
  - by rewrite Hf.
  - destruct (f c); [|done]. by rewrite fmap_app, IH.
Qed.

Lemma consumed_extend st m t : consumed (extend t st) (extend t m) = consumed st m.
Proof.
  unfold consumed, extend. simpl. rewrite !length_app.
  replace (length (rest st) + length t - (length (rest m) + length t))
    with (length (rest st) - length (rest m)) by lia.
  apply take_app_le. lia.
Qed.

Lemma at_line_end_extend s t : at_line_end (s ++ LF :: t) = at_line_end s.
Proof. by destruct s. Qed.

Lemma rep_extend r n t :
  (∀ st, matches r (extend (LF :: t) st) = extend (LF :: t) <$> matches r st) →
  ∀ st, matches (Rep n r) (extend (LF :: t) st)
        = extend (LF :: t) <$> matches (Rep n r) st.
Proof.
  intros IHr. induction n as [|n IHn]; intros st; [done|].
  change (matches (Rep (S n) r) ?s) with (matches r s ≫= matches (Rep n r)).
  rewrite IHr. by apply extend_bind.
Qed.

(** Up to the first line feed of the subject, a pattern that cannot
    consume a line feed matches the same way whatever follows it. *)
Lemma matches_extend r t st :
  nl_free r →
  matches r (extend (LF :: t) st) = extend (LF :: t) <$> matches r st.
Proof.
  revert st. induction r as [s|f|f|r IH|r1 IH1 r2 IH2|n r IH|r IH| |];
    intros st Hr.
  - by apply lit_match_extend.
  - simpl in *. destruct (rest st) as [|c s']; simpl.
    + by rewrite Hr.
    + by destruct (f c).
  - by apply plus_match_extend.
  - simpl. by rewrite fmap_app, IH.
  - destruct Hr as [Hr1 Hr2]. simpl. rewrite IH1 by done.
    apply extend_bind. intros m. by apply IH2.
  - apply rep_extend. intros st'. by apply IH.
  - simpl. rewrite IH by done. rewrite <- !list_fmap_compose.
    apply list_fmap_ext. intros _ m _. simpl.
    unfold extend at 3. simpl. f_equal. f_equal. apply consumed_extend.
  - simpl. by destruct (at_line_start (prev st)).
  - simpl. rewrite at_line_end_extend. by destruct (at_line_end (rest st)).
Qed.

Lemma match_at_extend r p l t :
  nl_free r →
  match_at r p (l ++ LF :: t) = extend (LF :: t) <$> match_at r p l.
Proof.
  intros Hr. unfold match_at.
  change (MState p (l ++ LF :: t) None) with (extend (LF :: t) (MState p l None)).
  rewrite matches_extend by done. by destruct (matches r _).
Qed.

(** The leftmost match in a buffer lies in the first line that has one. *)
Lemma search_from_line r p l t :
  nl_free r →
  search_from r p (l ++ LF :: t) =
  match search_from r p l with
  | Some m => Some (extend (LF :: t) m)
  | None => search_from r (Some LF) t
  end.
Proof.
  intros Hr. revert p. induction l as [|c l IH]; intros p.
  - pose proof (match_at_extend r p [] t Hr) as E. simpl in *. rewrite E.
    by destruct (match_at r p []).
  - pose proof (match_at_extend r p (c :: l) t Hr) as E. simpl in *. rewrite E.
    destruct (match_at r p (c :: l)); [done|]. apply IH.
Qed.

Lemma unlines_cons l ls : unlines (l :: ls) = l ++ LF :: unlines ls.
Proof. unfold unlines. simpl. by rewrite <- (assoc_L (++)). Qed.

Lemma unlines_app ls1 ls2 : unlines (ls1 ++ ls2) = unlines ls1 ++ unlines ls2.
Proof. unfold unlines. by rewrite fmap_app, concat_app. Qed.

(** Text appended to a buffer of whole lines does not change the
    leftmost match of the buffer. *)
Lemma search_from_stable r p ls x :
  nl_free r → (∀ q, match_at r q [] = None) →
  is_Some (search_from r p (unlines ls)) →
  grp <$> search_from r p (unlines ls ++ x) = grp <$> search_from r p (unlines ls).
Proof.
  intros Hr Hnil. revert p. induction ls as [|l ls IH]; intros p Hsome.
  - simpl in Hsome. rewrite Hnil in Hsome. by destruct Hsome.
  - rewrite unlines_cons in *. rewrite <- (assoc_L (++)). simpl.
    rewrite !search_from_line in * by done.
    destruct (search_from r p l); [done|]. by apply IH.
Qed.

(** ** The three patterns *)

Lemma isdecimal_bounds c : isdecimal c = true → (48 ≤ c)%N.
Proof.
  rewrite isdecimal_spec. intros (z & Hz & Hc).
  assert (Forall (fun z => 48 ≤ z)%N decimal_zeros) as H
    by (unfold decimal_zeros; repeat (constructor; [lia|]); constructor).
  rewrite Forall_forall in H. apply H in Hz. lia.
Qed.

Ltac bool_to_prop :=
  rewrite ?orb_true_iff, ?andb_true_iff, ?negb_true_iff, ?orb_false_iff,
    ?andb_false_iff, ?N.leb_le, ?N.leb_gt, ?N.ltb_lt, ?N.ltb_ge,
    ?N.eqb_eq, ?N.eqb_neq.

Lemma isspace_spec c :
  isspace c = true ↔
  (9 ≤ c ≤ 13 ∨ 28 ≤ c ≤ 32 ∨ c = 133 ∨ c = 160 ∨ c = 5760
   ∨ 8192 ≤ c ≤ 8202 ∨ c = 8232 ∨ c = 8233 ∨ c = 8239 ∨ c = 8287
   ∨ c = 12288)%N.
Proof. unfold isspace. bool_to_prop. tauto. Qed.

Lemma isdecimal_not_space c : isdecimal c = true → isspace c = false.
Proof.
  rewrite isdecimal_spec. intros (z & Hz & Hc).
  apply not_true_iff_false. rewrite isspace_spec.
  assert (Forall (fun z => z = 48 ∨ 1632 ≤ z ≤ 4240 ∨ 6112 ≤ z ≤ 7248 ∨ 42528 ≤ z)%N
            decimal_zeros) as H
    by (unfold decimal_zeros; repeat (constructor; [lia|]); constructor).
  rewrite Forall_forall in H. apply H in Hz. lia.
Qed.

Lemma ptat_re_nl_free : nl_free ptat_re.
Proof. repeat split; try done; by apply (bool_decide_unpack _). Qed.

Lemma avg_re_nl_free : nl_free avg_re.
Proof. repeat split; try done; by apply (bool_decide_unpack _). Qed.

Lemma grid_re_nl_free : nl_free grid_re.
Proof. repeat split; try done; by apply (bool_decide_unpack _). Qed.

Lemma ptat_re_nonempty q : match_at ptat_re q [] = None.
Proof. done. Qed.

Lemma avg_re_nonempty q : match_at avg_re q [] = None.
Proof. done. Qed.

Lemma forallb_Forall {A} (f : A → bool) l :
  forallb f l = true ↔ Forall (fun x => f x = true) l.
Proof.
  induction l as [|x l IH]; simpl.
  - split; [constructor|done].
  - rewrite andb_true_iff, IH, Forall_cons. done.
Qed.

Lemma sem_decimal_re p w t g g' :
  sem decimal_re p w t g g' ↔ decimal_text w ∧ g' = g.
Proof.
  unfold decimal_text. simpl. change (lit "-") with [45%N].
  change (lit ".") with [46%N]. split.
  - intros (w1 & w2 & g1 & -> & H1 & w3 & w4 & g2 & -> & (H3 & H4 & ->)
            & w5 & w6 & g3 & -> & (-> & ->) & (H6 & H7 & ->)).
    split; [|by destruct H1 as [[_ ->]|[_ ->]]].
    exists w1, w3, w6. split; [done|]. split; [|done].
    destruct H1 as [[-> _]|[-> _]]; auto.
  - intros [(sg & ip & fp & -> & Hsg & Hip & Hipd & Hfp & Hfpd) ->].
    exists sg, (ip ++ 46%N :: fp), g. split; [done|]. split.
    { destruct Hsg as [->| ->]; auto. }
    exists ip, (46%N :: fp), g. split; [done|]. split; [done|].
    exists [46%N], fp, g. done.
Qed.

Lemma span_decimal_inv s ds r :
  span_decimal s = (ds, r) →
  s = ds ++ r ∧ Forall (fun c => isdecimal c = true) ds.
Proof.
  revert ds r. induction s as [|c s IH]; intros ds r; simpl.
  - intros [= <- <-]. done.
  - destruct (isdecimal c) eqn:Hc.
    + destruct (span_decimal s) as [ds' r'] eqn:E. intros [= <- <-].
      destruct (IH _ _ eq_refl) as [-> ?]. split; [done|by constructor].
    + intros [= <- <-]. done.
Qed.

Lemma span_decimal_app ds c r :
  Forall (fun c => isdecimal c = true) ds → isdecimal c = false →
  span_decimal (ds ++ c :: r) = (ds, c :: r).
Proof.
  intros Hds Hc. induction Hds as [|d ds Hd _ IH]; simpl.
  - by rewrite Hc.
  - by rewrite Hd, IH.
Qed.

Lemma is_unsigned_decimal_spec w :
  is_unsigned_decimal w = true ↔
  ∃ ip fp, w = ip ++ 46%N :: fp
           ∧ ip ≠ [] ∧ Forall (fun c => isdecimal c = true) ip
           ∧ fp ≠ [] ∧ Forall (fun c => isdecimal c = true) fp.
Proof.
  unfold is_unsigned_decimal. split.
  - destruct (span_decimal w) as [ip r] eqn:E.
    apply span_decimal_inv in E as [-> Hip].
    destruct ip as [|d ip]; [done|]. destruct r as [|c [|f fp]]; try done.
    rewrite andb_true_iff, N.eqb_eq, forallb_Forall. intros [-> Hfp].
    by exists (d :: ip), (f :: fp).
  - intros (ip & fp & -> & Hip & Hipd & Hfp & Hfpd).
    rewrite span_decimal_app by done.
    destruct ip as [|d ip]; [done|]. destruct fp as [|f fp]; [done|].
    rewrite andb_true_iff, N.eqb_eq, forallb_Forall. done.
Qed.

Lemma is_signed_decimal_spec w : is_signed_decimal w = true ↔ decimal_text w.
Proof.
  unfold is_signed_decimal, decimal_text. destruct w as [|c w].
  - split; [done|]. intros (sg & ip & fp & E & _). by destruct sg, ip.
  - destruct (N.eqb_spec c 45) as [->|Hc]; rewrite is_unsigned_decimal_spec.
    + split.
      * intros (ip & fp & -> & ?). exists [45%N], ip, fp. auto.
      * intros (sg & ip & fp & E & [->| ->] & Hip & Hipd & ?).
        -- simplify_eq/=. by exists ip, fp.
        -- destruct ip as [|d ip]; [done|]. simplify_eq/=.
           by inversion_clear Hipd.
    + split.
      * intros (ip & fp & -> & ?). exists [], ip, fp. auto.
      * intros (sg & ip & fp & E & [->| ->] & ?).
        -- simplify_eq/=.
        -- by exists ip, fp.
Qed.

Lemma sem_rep_S r n p w t g g' :
  sem (Rep (S n) r) p w t g g' ↔
  ∃ w1 w2 g1, w = w1 ++ w2 ∧ sem r p w1 (w2 ++ t) g g1
              ∧ sem (Rep n r) (last_char p w1) w2 t g1 g'.
Proof. done. Qed.

Lemma join_cons sep w ws :
  join sep (w :: ws) = w ++ concat ((sep ::.) <$> ws).
Proof.
  revert w. induction ws as [|w' ws IH]; intros w.
  - simpl. by rewrite (right_id_L [] (++)).
  - change (join sep (w :: w' :: ws)) with (w ++ sep :: join sep (w' :: ws)).
    by rewrite IH.
Qed.

Lemma sem_sep_decimal p w t g g' :
  sem (Seq (Lit (lit " ")) decimal_re) p w t g g' ↔
  (∃ d, w = SPACE :: d ∧ decimal_text d) ∧ g' = g.
Proof.
  cbn [sem]. change (lit " ") with [SPACE]. split.
  - intros (w1 & w2 & g1 & -> & [-> ->] & H2).
    apply sem_decimal_re in H2 as [? ->]. split; [|done]. by exists w2.
  - intros [(d & -> & Hd) ->]. exists [SPACE], d, g.
    split; [done|]. split; [done|]. by apply sem_decimal_re.
Qed.

Lemma sem_rep_sep n p w t g g' :
  sem (Rep n (Seq (Lit (lit " ")) decimal_re)) p w t g g' ↔
  (∃ ds, length ds = n ∧ Forall decimal_text ds
         ∧ w = concat ((SPACE ::.) <$> ds)) ∧ g' = g.
Proof.
  revert p w g. induction n as [|n IH]; intros p w g.
  - simpl. split.
    + intros [-> ->]. split; [|done]. by exists [].
    + intros [(ds & Hn & _ & ->) ->]. by destruct ds.
  - rewrite sem_rep_S. split.
    + intros (w1 & w2 & g1 & -> & H1 & H2).
      apply sem_sep_decimal in H1 as [(d & -> & Hd) ->].
      apply IH in H2 as [(ds & Hn & Hds & ->) ->]. split; [|done].
      exists (d :: ds). simpl. rewrite Hn.
      split; [done|]. split; [by constructor|done].
    + intros [(ds & Hn & Hds & ->) ->]. destruct ds as [|d ds]; [done|].
      inversion_clear Hds as [|?? Hd Hds']. injection Hn as Hn.
      exists (SPACE :: d), (concat ((SPACE ::.) <$> ds)), g.
      split; [done|]. split.
      * apply sem_sep_decimal. split; [|done]. by exists d.
      * apply IH. split; [|done]. by exists ds.
Qed.

Lemma sem_Seq r1 r2 p w t g g' :
  sem (Seq r1 r2) p w t g g' ↔
  ∃ w1 w2 g1, w = w1 ++ w2 ∧ sem r1 p w1 (w2 ++ t) g g1
              ∧ sem r2 (last_char p w1) w2 t g1 g'.
Proof. done. Qed.

Lemma sem_Group r p w t g g' :
  sem (Group r) p w t g g' ↔ ∃ g1, sem r p w t g g1 ∧ g' = Some w.
Proof. done. Qed.

Lemma sem_row p w t g g' :
  sem (Seq decimal_re (Rep 31 (Seq (Lit (lit " ")) decimal_re))) p w t g g' ↔
  grid_text w ∧ g' = g.
Proof.
  rewrite sem_Seq. unfold grid_text. split.
  - intros (w1 & w2 & g1 & -> & H1 & H2).
    apply sem_decimal_re in H1 as [Hd ->].
    apply sem_rep_sep in H2 as [(ds & Hn & Hds & ->) ->]. split; [|done].
    exists (w1 :: ds). rewrite join_cons. simpl. rewrite Hn.
    split; [done|]. split; [by constructor|done].
  - intros [(ds & Hn & Hds & ->) ->].
    destruct ds as [|d ds]; [done|]. inversion_clear Hds as [|?? Hd Hds'].
    injection Hn as Hn. rewrite join_cons.
    exists d, (concat ((SPACE ::.) <$> ds)), g. split; [done|]. split.
    + by apply sem_decimal_re.
    + apply sem_rep_sep. split; [|done]. by exists ds.
Qed.

(** What the grid pattern matches: at the start of a line, 32 signed
    decimals with single spaces between them, up to the end of the line. *)
Lemma sem_grid_re p w t g g' :
  sem grid_re p w t g g' ↔
  at_line_start p = true ∧ at_line_end t = true ∧ grid_text w ∧ g' = Some w.
Proof.
  unfold grid_re. rewrite sem_Seq. split.
  - intros (w1 & w2 & g1 & -> & (-> & Hp & ->) & H2).
    apply sem_Seq in H2 as (w3 & w4 & g2 & -> & H3 & (-> & Ht & ->)).
    apply sem_Group in H3 as (g3 & H3 & ->).
    apply sem_row in H3 as [H3 _].
    rewrite (right_id_L [] (++)) in *. done.
  - intros (Hp & Ht & Hw & ->).
    exists [], w, g. split; [done|]. split; [done|].
    apply sem_Seq. exists w, [], (Some w).
    split; [by rewrite (right_id_L [] (++))|]. split; [|done].
    apply sem_Group. exists g. split; [|done]. by apply sem_row.
Qed.

(** ** Fields and words of a line *)

Lemma fields_no_sep sep w : sep ∉ w → fields sep w = [w].
Proof.
  induction w as [|c w IH]; [done|]. intros [Hc Hw]%not_elem_of_cons. simpl.
  destruct (N.eqb_spec c sep); [done|]. by rewrite IH.
Qed.

Lemma fields_app_sep sep w s :
  sep ∉ w → fields sep (w ++ sep :: s) = w :: fields sep s.
Proof.
  induction w as [|c w IH]; simpl.
  - by rewrite N.eqb_refl.
  - intros [Hc Hw]%not_elem_of_cons.
    destruct (N.eqb_spec c sep); [done|]. by rewrite IH.
Qed.

Lemma fields_join sep ds :
  ds ≠ [] → Forall (fun d => sep ∉ d) ds → fields sep (join sep ds) = ds.
Proof.
  intros Hne Hds. induction Hds as [|d ds Hd Hds IH]; [done|].
  destruct ds as [|d' ds].
  - by apply fields_no_sep.
  - change (join sep (d :: d' :: ds)) with (d ++ sep :: join sep (d' :: ds)).
    rewrite fields_app_sep by done. by rewrite IH.
Qed.

Lemma fields_nonempty sep l : fields sep l ≠ [].
Proof.
  destruct l as [|c l]; [done|]. simpl.
  by destruct (c =? sep)%N, (fields sep l).
Qed.

Lemma join_fields sep l : join sep (fields sep l) = l.
Proof.
  induction l as [|c l IH]; [done|]. simpl.
  pose proof (fields_nonempty sep l) as Hne.
  destruct (fields sep l) as [|f fs]; [done|].
  rewrite join_cons in IH.
  destruct (N.eqb_spec c sep) as [->|_]; rewrite join_cons; simpl;
    f_equal; exact IH.
Qed.

Lemma elem_of_join sep ds c :
  c ∈ join sep ds → c = sep ∨ ∃ d, d ∈ ds ∧ c ∈ d.
Proof.
  induction ds as [|d ds IH]; [by intros ?%elem_of_nil|].
  destruct ds as [|d' ds].
  - simpl. intros ?. right. exists d. split; [by left|done].
  - change (join sep (d :: d' :: ds)) with (d ++ sep :: join sep (d' :: ds)).
    rewrite elem_of_app, elem_of_cons. intros [?|[?|Hc]]; [|by left|].
    + right. exists d. split; [by left|done].
    + destruct (IH Hc) as [?|(d0 & ? & ?)]; [by left|].
      right. exists d0. split; [by right|done].
Qed.

Lemma decimal_text_chars d c :
  decimal_text d → c ∈ d → c = 45%N ∨ c = 46%N ∨ isdecimal c = true.
Proof.
  intros (sg & ip & fp & -> & Hsg & _ & Hip & _ & Hfp).
  rewrite !elem_of_app, elem_of_cons. rewrite Forall_forall in Hip, Hfp.
  intros [Hc|[Hc|[->|Hc]]]; auto.
  destruct Hsg as [->| ->]; [|by apply elem_of_nil in Hc].
  apply list_elem_of_singleton in Hc. auto.
Qed.

Lemma decimal_text_no_space d c : decimal_text d → c ∈ d → isspace c = false.
Proof.
  intros Hd Hc. destruct (decimal_text_chars d c Hd Hc) as [->|[->|?]];
    [done|done|by apply isdecimal_not_space].
Qed.

Lemma decimal_text_nonempty d : decimal_text d → d ≠ [].
Proof. intros (sg & ip & fp & -> & _). by destruct sg, ip. Qed.

Lemma grid_text_no_space_in_fields ds :
  Forall decimal_text ds → Forall (fun d => SPACE ∉ d) ds.
Proof.
  intros H. eapply Forall_impl; [exact H|]. intros d Hd Hc.
  by apply (decimal_text_no_space d SPACE Hd) in Hc.
Qed.

Lemma grid_text_no_LF w : grid_text w → LF ∉ w.
Proof.
  intros (ds & _ & Hds & ->) Hc.
  apply elem_of_join in Hc as [?|(d & Hd & Hc)]; [done|].
  rewrite Forall_forall in Hds.
  by apply (decimal_text_no_space d LF (Hds d Hd)) in Hc.
Qed.

Lemma grid_text_nonempty w : grid_text w → w ≠ [].
Proof.
  intros (ds & Hn & Hds & ->). destruct ds as [|d ds]; [done|].
  inversion_clear Hds as [|?? Hd _]. apply decimal_text_nonempty in Hd.
  rewrite join_cons. by destruct d.
Qed.

Lemma is_grid_line_spec l : is_grid_line l = true ↔ grid_text l.
Proof.
  unfold is_grid_line, grid_text.
  rewrite andb_true_iff, Nat.eqb_eq, forallb_Forall. split.
  - intros [Hn Hds]. exists (fields SPACE l). split; [done|]. split.
    + eapply Forall_impl; [done|]. intros d. by apply is_signed_decimal_spec.
    + by rewrite join_fields.
  - intros (ds & Hn & Hds & ->).
    rewrite fields_join;
      [|by destruct ds|by apply grid_text_no_space_in_fields].
    split; [done|]. eapply Forall_impl; [done|].
    intros d. by apply is_signed_decimal_spec.
Qed.

(** ** Grid lines in a buffer *)

Lemma app_inv_first_sep (c : char) l t w r :
  l ++ c :: t = w ++ c :: r → c ∉ l → c ∉ w → l = w ∧ t = r.
Proof.
  revert w. induction l as [|x l IH]; intros [|y w] E Hl Hw; simplify_eq/=.
  - done.
  - by apply not_elem_of_cons in Hw as [? _].
  - by apply not_elem_of_cons in Hl as [? _].
  - apply not_elem_of_cons in Hl as [_ Hl]. apply not_elem_of_cons in Hw as [_ Hw].
    destruct (IH w H0 Hl Hw) as [-> ->]. done.
Qed.

Lemma match_at_grid_not_start p s :
  at_line_start p = false → match_at grid_re p s = None.
Proof.
  intros Hp. unfold match_at.
  destruct (matches grid_re (MState p s None)) as [|m ms] eqn:E; [done|].
  assert (m ∈ matches grid_re (MState p s None)) as Hm by (rewrite E; left).
  apply matches_spec in Hm as (w & _ & Hs).
  apply sem_grid_re in Hs as (Hp' & _). simpl in Hp'. congruence.
Qed.

(** At the start of a line the grid pattern matches the whole line or
    nothing. *)
Lemma match_at_grid_line p l t :
  at_line_start p = true → LF ∉ l →
  match_at grid_re p (l ++ LF :: t) =
  if is_grid_line l then Some (MState (last_char p l) (LF :: t) (Some l))
  else None.
Proof.
  intros Hp Hl. unfold match_at.
  destruct (matches grid_re (MState p (l ++ LF :: t) None)) as [|m ms] eqn:E.
  - destruct (is_grid_line l) eqn:G; [|done]. exfalso.
    apply is_grid_line_spec in G.
    assert (MState (last_char p l) (LF :: t) (Some l)
              ∈ matches grid_re (MState p (l ++ LF :: t) None)) as Hm.
    { apply matches_spec. exists l. split; [done|]. by apply sem_grid_re. }
    rewrite E in Hm. by apply elem_of_nil in Hm.
  - assert (m ∈ matches grid_re (MState p (l ++ LF :: t) None)) as Hm
      by (rewrite E; left).
    apply matches_spec in Hm as (w & [Hr Hq] & Hs).
    apply sem_grid_re in Hs as (_ & Ht & Hw & Hg). simpl in *.
    pose proof (grid_text_no_LF w Hw) as HwLF.
    destruct (rest m) as [|c r] eqn:Er.
    + exfalso. apply HwLF. rewrite (right_id_L [] (++)) in Hr. subst w.
      apply elem_of_app. right. left.
    + simpl in Ht. apply N.eqb_eq in Ht as ->.
      apply app_inv_first_sep in Hr as [-> ->]; [|done..].
      apply is_grid_line_spec in Hw. rewrite Hw. f_equal.
      by apply mstate_eq.
Qed.

Lemma match_at_grid_nil p : match_at grid_re p [] = None.
Proof.
  unfold match_at.
  destruct (matches grid_re (MState p [] None)) as [|m ms] eqn:E; [done|].
  assert (m ∈ matches grid_re (MState p [] None)) as Hm by (rewrite E; left).
  apply matches_spec in Hm as (w & [Hr _] & Hs).
  apply sem_grid_re in Hs as (_ & _ & Hw & _). simpl in Hr.
  apply grid_text_nonempty in Hw. by destruct w.
Qed.

Lemma findall_from_0_nil r p :
  findall_from r 0 p [] =
  match match_at r p [] with Some m => [default [] (grp m)] | None => [] end.
Proof. done. Qed.

Lemma findall_from_0_cons r p c s :
  findall_from r 0 p (c :: s) =
  match match_at r p (c :: s) with
  | Some m =>
      default [] (grp m)
        :: findall_from r (length (c :: s) - length (rest m) - 1) (Some c) s
  | None => findall_from r 0 (Some c) s
  end.
Proof. done. Qed.

Lemma findall_from_skip r w p s :
  findall_from r (length w) p (w ++ s) = findall_from r 0 (last_char p w) s.
Proof.
  revert p. induction w as [|c w IH]; intros p; [done|].
  rewrite last_char_cons, <- IH. done.
Qed.

Lemma last_char_not_LF c l :
  LF ∉ c :: l → at_line_start (last_char (Some c) l) = false.
Proof.
  revert c. induction l as [|x l IH]; intros c Hc.
  - apply not_elem_of_cons in Hc as [Hc _]. simpl. by apply N.eqb_neq.
  - rewrite last_char_cons. apply IH.
    by apply not_elem_of_cons in Hc as [_ Hc].
Qed.

Lemma findall_grid_rest_of_line p l t :
  at_line_start p = false → LF ∉ l →
  findall_from grid_re 0 p (l ++ LF :: t) = findall_from grid_re 0 (Some LF) t.
Proof.
  revert p. induction l as [|c l IH]; intros p Hp Hl; simpl app;
    rewrite findall_from_0_cons, match_at_grid_not_start by done; [done|].
  apply not_elem_of_cons in Hl as [Hc Hl]. apply IH; [|done].
  simpl. by apply N.eqb_neq.
Qed.

Lemma findall_grid_line p l t :
  at_line_start p = true → LF ∉ l →
  findall_from grid_re 0 p (l ++ LF :: t) =
  (if is_grid_line l then [l] else []) ++ findall_from grid_re 0 (Some LF) t.
Proof.
  intros Hp Hl. pose proof (match_at_grid_line p l t Hp Hl) as E.
  destruct l as [|c l]; simpl app in *; rewrite findall_from_0_cons, E.
  - done.
  - destruct (is_grid_line (c :: l)); simpl.
    + f_equal. rewrite length_app. simpl.
      replace (length l + S (length t) - length t - 1) with (length l) by lia.
      rewrite findall_from_skip.
      apply (findall_grid_rest_of_line _ []); [|by apply not_elem_of_nil].
      by apply last_char_not_LF.
    + apply not_elem_of_cons in Hl as [Hc Hl].
      apply findall_grid_rest_of_line; [|done]. simpl. by apply N.eqb_neq.
Qed.

(** In a buffer of whole lines, [findall] returns the lines that are grid
    lines, in order. *)
Lemma findall_grid_unlines p ls :
  at_line_start p = true → Forall (fun l => LF ∉ l) ls →
  findall_from grid_re 0 p (unlines ls) = List.filter is_grid_line ls.
Proof.
  intros Hp Hls. revert p Hp. induction Hls as [|l ls Hl _ IH]; intros p Hp.
  - change (unlines []) with (@nil char).
    by rewrite findall_from_0_nil, match_at_grid_nil.
  - rewrite unlines_cons, findall_grid_line by done. simpl.
    rewrite IH by done. by destruct (is_grid_line l).
Qed.

(** ** The words of a grid line, and their values *)

Lemma split_from_word word d s :
  Forall (fun c => isspace c = false) d →
  split_from word (d ++ s) = split_from (word ++ d) s.
Proof.
  intros Hd. revert word. induction Hd as [|c d Hc _ IH]; intros word.
  - by rewrite (right_id_L [] (++)).
  - simpl. rewrite Hc, IH. by rewrite <- (assoc_L (++)).
Qed.

Lemma split_from_space word s :
  split_from word (SPACE :: s) = flush word ++ split_from [] s.
Proof. done. Qed.

Lemma split_join ds :
  Forall (fun d => d ≠ [] ∧ Forall (fun c => isspace c = false) d) ds →
  split (join SPACE ds) = ds.
Proof.
  unfold split. induction 1 as [|d ds [Hne Hd] Hds IH]; [done|].
  destruct ds as [|d' ds].
  - pose proof (split_from_word [] d [] Hd) as E.
    rewrite (right_id_L [] (++)) in E. simpl in *. rewrite E. by destruct d.
  - change (join SPACE (d :: d' :: ds))
      with (d ++ SPACE :: join SPACE (d' :: ds)).
    rewrite split_from_word, split_from_space, IH by done. by destruct d.
Qed.

Lemma decimal_text_word d :
  decimal_text d → d ≠ [] ∧ Forall (fun c => isspace c = false) d.
Proof.
  intros Hd. split; [by apply decimal_text_nonempty|].
  apply Forall_forall. intros c. by apply decimal_text_no_space.
Qed.

(** A grid line splits into its 32 signed decimals. *)
Lemma split_grid_text w :
  grid_text w → length (split w) = 32 ∧ Forall decimal_text (split w).
Proof.
  intros (ds & Hn & Hds & ->). rewrite split_join; [done|].
  eapply Forall_impl; [exact Hds|]. apply decimal_text_word.
Qed.

Lemma to_ascii_decimal c :
  isdecimal c = true → ascii_isdigit (to_ascii c) = true.
Proof.
  intros Hc. unfold to_ascii, ascii_isdigit.
  pose proof (isdecimal_bounds c Hc) as Hlo.
  rewrite (isdecimal_not_space c Hc).
  apply isdecimal_spec in Hc as Hz. destruct Hz as (z & Hz & Hb).
  destruct (N.ltb_spec c 127) as [Hlt|Hge].
  - assert (Forall (fun z => z = 48 ∨ 1632 ≤ z)%N decimal_zeros) as H
      by (unfold decimal_zeros; repeat (constructor; [lia|]); constructor).
    rewrite Forall_forall in H. apply H in Hz. bool_to_prop. lia.
  - unfold isdecimal in Hc. apply bool_decide_eq_true in Hc as [d Hd].
    rewrite Hd. unfold to_decimal in Hd.
    destruct (decimal_block c decimal_zeros) as [z'|] eqn:F; [|done].
    apply decimal_block_Some in F as [_ Hb'].
    simpl in Hd. injection Hd as <-. bool_to_prop. lia.
Qed.

Lemma drop_underscores_id p a :
  p ≠ 95%N → 95%N ∉ a → drop_underscores p a = Some a.
Proof.
  revert p. induction a as [|c a IH]; intros p Hp Ha; simpl.
  - by destruct (N.eqb_spec p 95).
  - apply not_elem_of_cons in Ha as [Hc Ha].
    destruct (N.eqb_spec c 95); [done|].
    destruct (N.eqb_spec p 95); [done|]. simpl. by rewrite IH.
Qed.

Lemma ascii_lstrip_id c a :
  ascii_isspace c = false → ascii_lstrip (c :: a) = c :: a.
Proof. intros Hc. simpl. by rewrite Hc. Qed.

Lemma ascii_strip_id a :
  Forall (fun c => ascii_isspace c = false) a → ascii_strip a = a.
Proof.
  intros Ha. unfold ascii_strip. destruct Ha as [|c a Hc Ha]; [done|].
  rewrite ascii_lstrip_id by done.
  assert (Forall (fun c => ascii_isspace c = false) (rev (c :: a))) as Hr
    by (apply Forall_rev; by constructor).
  destruct (rev (c :: a)) as [|x r] eqn:E.
  - by rewrite <- (rev_involutive (c :: a)), E.
  - inversion_clear Hr. rewrite ascii_lstrip_id by done.
    rewrite <- E. apply rev_involutive.
Qed.

Lemma digits_app ds c r :
  Forall (fun c => ascii_isdigit c = true) ds → ascii_isdigit c = false →
  digits (ds ++ c :: r) = (ds, c :: r).
Proof.
  intros Hds Hc. induction Hds as [|d ds Hd _ IH]; simpl.
  - by rewrite Hc.
  - by rewrite Hd, IH.
Qed.

Lemma digits_all ds :
  Forall (fun c => ascii_isdigit c = true) ds → digits ds = (ds, []).
Proof.
  intros Hds. induction Hds as [|d ds Hd _ IH]; simpl; [done|].
  by rewrite Hd, IH.
Qed.

Lemma ascii_isdigit_spec c : ascii_isdigit c = true ↔ (48 ≤ c ≤ 57)%N.
Proof. unfold ascii_isdigit. bool_to_prop. done. Qed.

Lemma sign_of_digit d s :
  ascii_isdigit d = true → sign_of (d :: s) = (false, d :: s).
Proof.
  rewrite ascii_isdigit_spec. intros Hd. unfold sign_of.
  destruct (N.eqb_spec d 45); [lia|]. destruct (N.eqb_spec d 43); [lia|]. done.
Qed.

Lemma lower_digit d : ascii_isdigit d = true → lower d = d.
Proof.
  rewrite ascii_isdigit_spec. intros Hd. unfold lower.
  destruct (N.leb_spec 65 d); [lia|]. done.
Qed.

(** Digits, a point and digits, with or without a minus sign, denote a
    number. *)
Lemma string_to_double_decimal (neg : bool) ip fp :
  Forall (fun c => ascii_isdigit c = true) ip → ip ≠ [] →
  Forall (fun c => ascii_isdigit c = true) fp → fp ≠ [] →
  is_Some (string_to_double ((if neg then [45%N] else []) ++ ip ++ 46%N :: fp)).
Proof.
  intros Hip Hne Hfp Hnf. destruct ip as [|d ip]; [done|].
  inversion Hip as [|?? Hd Hip']; subst.
  assert (sign_of ((if neg then [45%N] else []) ++ (d :: ip) ++ 46%N :: fp)
          = (neg, (d :: ip) ++ 46%N :: fp)) as Hs.
  { destruct neg; [done|]. by apply sign_of_digit. }
  unfold string_to_double. rewrite Hs.
  assert (48 ≤ d ≤ 57)%N as Hb by by apply ascii_isdigit_spec.
  rewrite !bool_decide_eq_false_2;
    [|simpl; rewrite (lower_digit d Hd); intros [= ? _]; lia..].
  simpl orb. cbv iota.
  pose proof (digits_app (d :: ip) 46%N fp Hip eq_refl) as E.
  rewrite E.
  rewrite N.eqb_refl, (digits_all fp Hfp). simpl. eauto.
Qed.

Lemma decimal_text_float d : decimal_text d → is_Some (py_float d).
Proof.
  intros (sg & ip & fp & -> & Hsg & Hip & Hipd & Hfp & Hfpd).
  unfold py_float. set (neg := bool_decide (sg = [45%N])).
  assert (map to_ascii (sg ++ ip ++ 46%N :: fp)
          = (if neg then [45%N] else []) ++ map to_ascii ip
              ++ 46%N :: map to_ascii fp) as ->
    by (rewrite !map_app; by destruct Hsg as [->| ->]).
  assert (Forall (fun c => ascii_isdigit c = true) (map to_ascii ip)) as Hip'.
  { apply Forall_fmap. eapply Forall_impl; [exact Hipd|].
    intros c. apply to_ascii_decimal. }
  assert (Forall (fun c => ascii_isdigit c = true) (map to_ascii fp)) as Hfp'.
  { apply Forall_fmap. eapply Forall_impl; [exact Hfpd|].
    intros c. apply to_ascii_decimal. }
  set (a := (if neg then [45%N] else []) ++ map to_ascii ip ++ 46%N :: map to_ascii fp).
  assert (Forall (fun c => c = 45 ∨ c = 46 ∨ ascii_isdigit c = true)%N a) as Ha.
  { apply Forall_app. split; [destruct neg; repeat constructor|].
    apply Forall_app. split; [by eapply Forall_impl; [exact Hip'|]; auto|].
    constructor; [auto|]. eapply Forall_impl; [exact Hfp'|]; auto. }
  rewrite drop_underscores_id; [simpl| done |].
  - rewrite ascii_strip_id.
    + apply string_to_double_decimal; try done; by destruct ip, fp.
    + eapply Forall_impl; [exact Ha|]. intros c [->|[->|Hc]]; [done..|].
      apply ascii_isdigit_spec in Hc. unfold ascii_isspace. 
      apply not_true_iff_false. bool_to_prop. lia.
  - rewrite Forall_forall in Ha. intros Hc. apply Ha in Hc as [?|[?|Hc]]; done.
Qed.

(** ** The scalar patterns *)

Lemma sem_Lit s p w t g g' : sem (Lit s) p w t g g' ↔ w = s ∧ g' = g.
Proof. done. Qed.

Lemma sem_group_decimal p w t g g' :
  sem (Group decimal_re) p w t g g' ↔ decimal_text w ∧ g' = Some w.
Proof.
  rewrite sem_Group. split.
  - intros (g1 & [? _]%sem_decimal_re & ->). done.
  - intros [? ->]. exists g. split; [|done]. by apply sem_decimal_re.
Qed.

Lemma sem_ptat_re p w t g g' :
  sem ptat_re p w t g g' ↔
  ∃ d h1 h2, decimal_text d ∧ hexdigit h1 = true ∧ hexdigit h2 = true
             ∧ w = ptat_line d h1 h2 ∧ g' = Some d.
Proof.
  unfold ptat_re, ptat_line. rewrite sem_Seq. split.
  - intros (w1 & w2 & g1 & -> & [-> ->] & H2).
    apply sem_Seq in H2 as (w3 & w4 & g2 & -> & [Hd ->]%sem_group_decimal & H4).
    apply sem_Seq in H4 as (w5 & w6 & g3 & -> & [-> ->] & H6).
    simpl in H6.
    destruct H6 as (x1 & y1 & g4 & -> & (h1 & -> & Hh1 & ->) & x2 & y2 & g5
                    & -> & (h2 & -> & Hh2 & ->) & -> & ->).
    exists w3, h1, h2. done.
  - intros (d & h1 & h2 & Hd & Hh1 & Hh2 & -> & ->).
    exists (lit "PTAT: "), (d ++ lit " C, PEC: 0x" ++ [h1; h2]), g.
    split; [done|]. split; [done|].
    apply sem_Seq. exists d, (lit " C, PEC: 0x" ++ [h1; h2]), (Some d).
    split; [done|]. split; [by apply sem_group_decimal|].
    apply sem_Seq. exists (lit " C, PEC: 0x"), [h1; h2], (Some d).
    split; [done|]. split; [done|]. simpl.
    exists [h1], [h2], (Some d). split; [done|]. split; [by exists h1|].
    exists [h2], [], (Some d). split; [done|]. split; [by exists h2|done].
Qed.

Lemma sem_avg_re p w t g g' :
  sem avg_re p w t g g' ↔ ∃ d, decimal_text d ∧ w = avg_line d ∧ g' = Some d.
Proof.
  unfold avg_re, avg_line. rewrite sem_Seq. split.
  - intros (w1 & w2 & g1 & -> & [-> ->] & H2).
    apply sem_Seq in H2 as (w3 & w4 & g2 & -> & [Hd ->]%sem_group_decimal
                            & [-> ->]).
    by exists w3.
  - intros (d & Hd & -> & ->).
    exists (lit "Avg Pixel Temp: "), (d ++ lit " C"), g.
    split; [done|]. split; [done|].
    apply sem_Seq. exists d, (lit " C"), (Some d).
    split; [done|]. split; [by apply sem_group_decimal|done].
Qed.

Lemma match_at_elem r p s m :
  match_at r p s = Some m → m ∈ matches r (MState p s None).
Proof.
  unfold match_at. destruct (matches r _) as [|m' ms]; [done|].
  intros [= ->]. left.
Qed.

Lemma search_from_elem r p s m :
  search_from r p s = Some m → ∃ q t, m ∈ matches r (MState q t None).
Proof.
  revert p. induction s as [|c s IH]; intros p; simpl.
  - destruct (match_at r p []) eqn:E; [|done]. intros [= ->].
    eexists _, _. by apply match_at_elem.
  - destruct (match_at r p (c :: s)) eqn:E.
    + intros [= ->]. eexists _, _. by apply match_at_elem.
    + apply IH.
Qed.

(** The text a scalar pattern captures is a signed decimal. *)
Lemma search_ptat_group s m :
  search ptat_re s = Some m → ∃ d, grp m = Some d ∧ decimal_text d.
Proof.
  intros (q & t & Hm)%search_from_elem.
  apply matches_spec in Hm as (w & _ & Hs).
  apply sem_ptat_re in Hs as (d & _ & _ & Hd & _ & _ & _ & Hg). by exists d.
Qed.

Lemma search_avg_group s m :
  search avg_re s = Some m → ∃ d, grp m = Some d ∧ decimal_text d.
Proof.
  intros (q & t & Hm)%search_from_elem.
  apply matches_spec in Hm as (w & _ & Hs).
  apply sem_avg_re in Hs as (d & Hd & _ & Hg). by exists d.
Qed.

Lemma float_group_decimal m d :
  grp m = Some d → decimal_text d → ∃ f, float_group m = inr f ∧ py_float d = Some f.
Proof.
  intros Hg Hd. unfold float_group. rewrite Hg.
  destruct (decimal_text_float d Hd) as [f Hf]. rewrite Hf. by exists f.
Qed.

(** Lines 34 and 39 never raise. *)
Lemma update_ptat_total s old :
  ∃ v, update_scalar ptat_re s old = inr v ∧ (is_Some old → is_Some v).
Proof.
  unfold update_scalar. destruct (search ptat_re s) as [m|] eqn:E.
  - apply search_ptat_group in E as (d & Hg & Hd).
    destruct (float_group_decimal m d Hg Hd) as (f & -> & _). by eexists.
  - by exists old.
Qed.

Lemma update_avg_total s old :
  ∃ v, update_scalar avg_re s old = inr v ∧ (is_Some old → is_Some v).
Proof.
  unfold update_scalar. destruct (search avg_re s) as [m|] eqn:E.
  - apply search_avg_group in E as (d & Hg & Hd).
    destruct (float_group_decimal m d Hg Hd) as (f & -> & _). by eexists.
  - by exists old.
Qed.

(** ** Converting the grid *)

Lemma findall_from_elem r k p s g :
  g ∈ findall_from r k p s →
  ∃ q t m, m ∈ matches r (MState q t None) ∧ g = default [] (grp m).
Proof.
  revert k p. induction s as [|c s IH]; intros [|k] p.
  - rewrite findall_from_0_nil. destruct (match_at r p []) as [m|] eqn:E.
    + intros ->%list_elem_of_singleton. eexists _, _, m.
      split; [by apply match_at_elem|done].
    + by intros ?%elem_of_nil.
  - by intros ?%elem_of_nil.
  - rewrite findall_from_0_cons. destruct (match_at r p (c :: s)) as [m|] eqn:E.
    + intros [->|?]%elem_of_cons; [|by eapply IH].
      eexists _, _, m. split; [by apply match_at_elem|done].
    + apply IH.
  - apply IH.
Qed.

(** Everything [findall] returns for the grid pattern is a grid line. *)
Lemma findall_grid_elem s g : g ∈ findall grid_re s → grid_text g.
Proof.
  intros (q & t & m & Hm & ->)%findall_from_elem.
  apply matches_spec in Hm as (w & _ & Hs).
  apply sem_grid_re in Hs as (_ & _ & Hw & ->). done.
Qed.

Lemma row_data_grid_text g :
  grid_text g → ∃ rd, row_data_of g = Some rd ∧ length rd = 32.
Proof.
  intros [Hn Hds]%split_grid_text. unfold row_data_of.
  destruct (mapM_is_Some_2 py_float (split g)) as [rd Hrd].
  - eapply Forall_impl; [exact Hds|]. intros d. apply decimal_text_float.
  - exists rd. split; [done|]. apply length_mapM in Hrd. congruence.
Qed.

Lemma grid_of_grid_text gls :
  Forall grid_text gls →
  ∃ rs, grid_of gls = Some rs ∧ Forall (fun rd => length rd = 32) rs.
Proof.
  induction 1 as [|g gls Hg _ (rs & Hrs & Hall)].
  - by exists [].
  - destruct (row_data_grid_text g Hg) as (rd & Hrd & Hn).
    exists (rd :: rs). unfold grid_of in *. simpl. rewrite Hrd. simpl.
    rewrite Hrs. split; [done|by constructor].
Qed.

Lemma fill_rows_seq gl k n px rs :
  length px = k + n →
  grid_of (take n (drop k gl)) = Some rs → length rs = n →
  Forall (fun rd => length rd = 32) rs →
  fill_rows (seq k n) gl px = (None, take k px ++ rs).
Proof.
  revert k px rs. induction n as [|n IH]; intros k px rs Hpx Hrs Hn Hall.
  - destruct rs; [|done]. simpl.
    by rewrite (right_id_L [] (++)), take_ge by lia.
  - destruct (drop k gl) as [|l gl'] eqn:Hd.
    { unfold grid_of in Hrs. simpl in Hrs. injection Hrs as <-. done. }
    assert (gl !! k = Some l) as Hk.
    { rewrite <- (Nat.add_0_r k), <- lookup_drop, Hd. done. }
    assert (drop (S k) gl = gl') as Hd'.
    { pose proof (drop_S _ _ _ Hk) as E. rewrite Hd in E. congruence. }
    unfold grid_of in Hrs. simpl in Hrs.
    destruct (row_data_of l) as [rd|] eqn:Hrd; [|done]. simpl in Hrs.
    destruct (mapM row_data_of (take n gl')) as [rs'|] eqn:Hrs'; [|done].
    simpl in Hrs. injection Hrs as <-. simpl in Hn. injection Hn as Hn.
    inversion_clear Hall as [|?? Hlen Hall'].
    simpl. rewrite Hk, Hrd, (proj2 (Nat.eqb_eq _ _) Hlen).
    etrans.
    { apply (IH (S k) _ rs'); [rewrite length_insert; lia| |done..].
      unfold grid_of. by rewrite Hd'. }
    f_equal. rewrite (take_S_r _ _ rd); [|apply list_lookup_insert_eq; lia].
    rewrite take_insert_ge by lia. by rewrite <- (assoc_L (++)).
Qed.

(** When the first 32 lines all convert, the loop of lines 46-49 leaves
    exactly their values in the array. *)
Lemma fill_rows_grid gl px rs :
  length px = 32 → 32 ≤ length gl →
  grid_of (take 32 gl) = Some rs →
  Forall (fun rd => length rd = 32) rs →
  fill_rows (seq 0 32) gl px = (None, rs).
Proof.
  intros Hpx Hgl Hrs Hall.
  rewrite (fill_rows_seq gl 0 32 px rs); try done.
  unfold grid_of in Hrs. apply length_mapM in Hrs.
  rewrite length_take in Hrs. lia.
Qed.

Lemma fill_rows_value_error rows gl px :
  Forall (fun row => row < length gl) rows →
  Exists (fun row => ∃ l, gl !! row = Some l ∧ row_data_of l = None) rows →
  ∃ px', fill_rows rows gl px = (Some ValueError, px').
Proof.
  intros Hin Hex. revert px.
  induction Hin as [|row rows Hrow _ IH]; intros px; [by inversion Hex|].
  simpl. destruct (lookup_lt_is_Some_2 gl row Hrow) as [l Hl]. rewrite Hl.
  destruct (row_data_of l) as [rd|] eqn:Hrd; [|by eexists].
  apply IH. inversion_clear Hex as [?? (l' & Hl' & Hn)|]; [|done].
  congruence.
Qed.

Lemma fill_rows_outcome rows gl px :
  Forall (fun row => row < length gl) rows →
  (fill_rows rows gl px).1 = None ∨ (fill_rows rows gl px).1 = Some ValueError.
Proof.
  intros Hin. revert px. induction Hin as [|row rows Hrow _ IH]; intros px.
  - by left.
  - simpl. destruct (lookup_lt_is_Some_2 gl row Hrow) as [l ->].
    destruct (row_data_of l); [apply IH|by right].
Qed.

(** ** One iteration *)

Lemma seq_lt_length {A} (l : list A) n :
  n ≤ length l → Forall (fun i => i < length l) (seq 0 n).
Proof.
  intros Hn. apply Forall_forall. intros i Hi%list_elem_of_In%in_seq. lia.
Qed.

Lemma fill_rows_no_error rows gl px :
  Forall (fun row => ∃ l, gl !! row = Some l ∧ is_Some (row_data_of l)) rows →
  (fill_rows rows gl px).1 = None.
Proof.
  intros Hrows. revert px.
  induction Hrows as [|row rows (l & Hl & [rd Hrd]) _ IH]; intros px; [done|].
  simpl. rewrite Hl, Hrd. apply IH.
Qed.

Lemma fill_rows_shape rows gl px :
  shape_ok px → shape_ok (fill_rows rows gl px).2.
Proof.
  revert px. induction rows as [|row rows IH]; intros px Hpx; [done|].
  simpl. destruct (gl !! row) as [l|]; [|done].
  destruct (row_data_of l) as [rd|]; [|done]. apply IH.
  destruct (Nat.eqb_spec (length rd) 32) as [Hlen|_]; [|done].
  destruct Hpx as [Hn Hall]. split.
  - by rewrite length_insert.
  - by apply Forall_insert.
Qed.

(** The [try] block either returns the frame or, on [ValueError], empties
    the buffer and goes on; it lets no exception through. *)
Lemma grid_branch_outcome p a px gl :
  32 ≤ length gl →
  (∃ px', grid_branch p a px gl = Return (p, a, Some px'))
  ∨ (∃ px', grid_branch p a px gl = Continue (Locals p a px' [])).
Proof.
  intros Hgl. unfold grid_branch.
  destruct (fill_rows_outcome (seq 0 32) gl px (seq_lt_length gl 32 Hgl)) as [E|E];
    destruct (fill_rows (seq 0 32) gl px) as [e px']; simpl in E; subst e.
  - left. by exists px'.
  - right. by exists px'.
Qed.

Lemma findall_rows_convert s rows :
  32 ≤ length (findall grid_re s) →
  Forall (fun row => row < 32) rows →
  Forall (fun row => ∃ l, findall grid_re s !! row = Some l
                          ∧ is_Some (row_data_of l)) rows.
Proof.
  intros Hlen Hrows. eapply Forall_impl; [exact Hrows|]. intros row Hrow.
  simpl in Hrow.
  destruct (lookup_lt_is_Some_2 (findall grid_re s) row) as [l Hl]; [lia|].
  exists l. split; [done|].
  destruct (row_data_grid_text l) as (rd & -> & _); [|done].
  eapply findall_grid_elem, list_elem_of_lookup_2, Hl.
Qed.

(** What [scan] does, once it is known that lines 34 and 39 do not
    raise. *)
Lemma scan_unfold st :
  ∃ p a,
    update_scalar ptat_re (buffer st) (ptat st) = inr p
    ∧ update_scalar avg_re (buffer st) (avg_temp st) = inr a
    ∧ (is_Some (ptat st) → is_Some p) ∧ (is_Some (avg_temp st) → is_Some a)
    ∧ scan st =
      if bool_decide (is_Some a) && bool_decide (is_Some p) then
        if 32 <=? length (findall grid_re (buffer st))
        then grid_branch p a (pixels st) (findall grid_re (buffer st))
        else Continue (reset_if_large (Locals p a (pixels st) (buffer st)))
      else Continue (reset_if_large (Locals p a (pixels st) (buffer st))).
Proof.
  destruct (update_ptat_total (buffer st) (ptat st)) as (p & Hp & Hp').
  destruct (update_avg_total (buffer st) (avg_temp st)) as (a & Ha & Ha').
  exists p, a. unfold scan. rewrite Hp, Ha. done.
Qed.

Lemma scan_no_raise st e : scan st ≠ Raise e.
Proof.
  destruct (scan_unfold st) as (p & a & _ & _ & _ & _ & ->).
  destruct (_ && _); [|done].
  destruct (Nat.leb_spec 32 (length (findall grid_re (buffer st)))); [|done].
  by destruct (grid_branch_outcome p a (pixels st) _ H)
    as [[px' ->]|[px' ->]].
Qed.

Lemma body_no_raise st raw e : body st raw ≠ Raise e.
Proof.
  unfold body. destruct (strip raw); [done|]. apply scan_no_raise.
Qed.

(** A [return] inside the loop hands back both scalars and the array. *)
Lemma scan_return st v :
  scan st = Return v →
  ∃ p a px,
    v = (Some p, Some a, Some px)
    ∧ update_scalar ptat_re (buffer st) (ptat st) = inr (Some p)
    ∧ update_scalar avg_re (buffer st) (avg_temp st) = inr (Some a)
    ∧ 32 ≤ length (findall grid_re (buffer st))
    ∧ fill_rows (seq 0 32) (findall grid_re (buffer st)) (pixels st)
      = (None, px).
Proof.
  destruct (scan_unfold st) as (p & a & Hp & Ha & _ & _ & ->).
  destruct (bool_decide (is_Some a) && bool_decide (is_Some p)) eqn:E;
    [|done].
  apply andb_true_iff in E as [[a' ->]%bool_decide_eq_true
                               [p' ->]%bool_decide_eq_true].
  destruct (Nat.leb_spec 32 (length (findall grid_re (buffer st)))); [|done].
  unfold grid_branch.
  destruct (fill_rows _ _ _) as [[[]|] px]; try done.
  intros [= <-]. by exists p', a', px.
Qed.

Lemma body_return st raw v :
  body st raw = Return v → ∃ p a px, v = (Some p, Some a, Some px).
Proof.
  unfold body. destruct (strip raw); [done|].
  intros (p & a & px & -> & _)%scan_return. by exists p, a, px.
Qed.

(** An iteration that goes on leaves the buffer empty or as it was, and
    short. *)
Lemma scan_continue st st' :
  scan st = Continue st' →
  update_scalar ptat_re (buffer st) (ptat st) = inr (ptat st')
  ∧ update_scalar avg_re (buffer st) (avg_temp st) = inr (avg_temp st')
  ∧ (buffer st' = []
     ∨ (buffer st' = buffer st ∧ (len (buffer st) ≤ 10000)%Z
        ∧ pixels st' = pixels st)).
Proof.
  destruct (scan_unfold st) as (p & a & Hp & Ha & _ & _ & ->).
  assert (∀ st', Continue (reset_if_large (Locals p a (pixels st) (buffer st)))
                 = Continue st' →
            @inr exn _ p = inr (ptat st') ∧ @inr exn _ a = inr (avg_temp st')
            ∧ (buffer st' = []
               ∨ (buffer st' = buffer st ∧ (len (buffer st) ≤ 10000)%Z
                  ∧ pixels st' = pixels st))) as Hreset.
  { intros st1 [= <-]. unfold reset_if_large. simpl.
    destruct (Z.ltb_spec 10000 (len (buffer st))); simpl;
      (split; [done|split; [done|]]); [by left|by right]. }
  rewrite Hp, Ha.
  destruct (_ && _); [|by apply Hreset].
  destruct (Nat.leb_spec 32 (length (findall grid_re (buffer st))));
    [|by apply Hreset].
  destruct (grid_branch_outcome p a (pixels st) _ H) as [[px' ->]|[px' ->]];
    [done|]. intros [= <-]. simpl. split; [done|split; [done|by left]].
Qed.

(** ** The loop *)

Lemma example_world_frame :
  parse_uart_data example_world = Some (Returned example_frame).
Proof. vm_compute. reflexivity. Qed.

(** Whatever the loop returns is the timeout value or was returned by an
    iteration that started in a reachable state. *)
Lemma loop_result start nows port st r :
  reachable st → loop start nows port st = Some r →
  r = Returned no_data
  ∨ ∃ st' raw v, reachable st' ∧ body st' raw = Return v ∧ r = Returned v.
Proof.
  revert port st. induction nows as [|now nows IH]; intros port st Hst; [done|].
  simpl. destruct (in_window _ _); [|intros [= <-]; by left].
  destruct port as [|raw port]; [done|].
  destruct (body st raw) as [st'|v|e] eqn:E.
  - apply IH. by eapply reachable_step.
  - intros [= <-]. right. by exists st, raw, v.
  - by apply body_no_raise in E.
Qed.

Lemma parse_result ser r :
  parse_uart_data ser = Some r →
  r = Returned no_data
  ∨ ∃ st raw v, reachable st ∧ body st raw = Return v ∧ r = Returned v.
Proof.
  unfold parse_uart_data. destruct (clock ser) as [|start nows]; [done|].
  apply loop_result. constructor.
Qed.

Lemma returned_complete_or_nothing ser v :
  parse_uart_data ser = Some (Returned v) →
  (∃ p a px, v = (Some p, Some a, Some px)) ∨ v = (None, None, None).
Proof.
  intros [[= ->]|(st & raw & v' & _ & Hb & [= ->])]%parse_result.
  - by right.
  - left. by eapply body_return.
Qed.

(** C4: parse_uart_data never returns a partial frame: whatever it
    returns is either a complete frame (ptat, avg_temp and pixels all
    present) or the no-data result (all three absent), because the grid
    is scanned only once both scalars are present. *)
Theorem no_partial_frame ser v :
  parse_uart_data ser = Some (Returned v) →
  (∃ p a px, v = (Some p, Some a, Some px)) ∨ v = (None, None, None).
Proof. apply returned_complete_or_nothing. Qed.

Lemma no_partial_frame_witness :
  parse_uart_data example_world = Some (Returned example_frame)
  ∧ ((∃ p a px, example_frame = (Some p, Some a, Some px))
     ∨ example_frame = (None, None, None)).
Proof.
  split; [exact example_world_frame|].
  apply (no_partial_frame example_world). exact example_world_frame.
Defined.

Lemma body_continue st raw st' :
  body st raw = Continue st' →
  (strip raw = [] ∧ st' = st)
  ∨ (strip raw ≠ []
     ∧ scan (Locals (ptat st) (avg_temp st) (pixels st)
               (buffer st ++ strip raw ++ [LF])) = Continue st').
Proof.
  unfold body. destruct (strip raw) as [|c l].
  - intros [= <-]. by left.
  - intros H. by right.
Qed.

(** C6: at the start of every read iteration the buffer holds at most
    10000 characters; whenever appending a line makes the buffer exceed
    10000 characters and the loop goes on, the buffer is empty before the
    next read; and no iteration raises. *)
Theorem buffer_bounded :
  (∀ st, reachable st → (len (buffer st) ≤ 10000)%Z)
  ∧ (∀ st raw st',
       strip raw ≠ [] →
       (10000 < len (buffer st ++ strip raw ++ [LF]))%Z →
       body st raw = Continue st' → buffer st' = [])
  ∧ (∀ st raw e, body st raw ≠ Raise e).
Proof.
  split; [|split].
  - induction 1 as [|st raw st' _ IH Hb]; [done|].
    apply body_continue in Hb as [[_ ->]|[_ Hs]]; [done|].
    apply scan_continue in Hs as (_ & _ & [->|(-> & Hlen & _)]); [done|].
    exact Hlen.
  - intros st raw st' Hne Hlen Hb.
    apply body_continue in Hb as [[? _]|[_ Hs]]; [done|].
    apply scan_continue in Hs as (_ & _ & [?|(_ & Hle & _)]); [done|].
    simpl in Hle. lia.
  - intros st raw e. apply body_no_raise.
Qed.

Lemma buffer_bounded_witness :
  (len (buffer initial) ≤ 10000)%Z
  ∧ (strip long_line ≠ []
     ∧ (10000 < len (buffer initial ++ strip long_line ++ [LF]))%Z
     ∧ body initial long_line = Continue initial
     ∧ buffer initial = []).
Proof.
  split; [exact (proj1 buffer_bounded initial reachable_initial)|].
  assert (strip long_line ≠ []) as H1
    by (intros H; apply (f_equal length) in H; vm_compute in H; discriminate H).
  assert (10000 < len (buffer initial ++ strip long_line ++ [LF]))%Z as H2
    by (vm_compute; reflexivity).
  assert (body initial long_line = Continue initial) as H3
    by (vm_compute; reflexivity).
  split; [exact H1|]. split; [exact H2|]. split; [exact H3|].
  exact (proj1 (proj2 buffer_bounded) initial long_line initial H1 H2 H3).
Defined.

(** C7: for every numeric parse failure while converting the matched grid
    lines to floats (some word of one of the first 32 lines is not a
    number), the handler empties the buffer and the loop goes on to its
    next iteration, keeping both scalars, instead of raising or
    returning. *)
Theorem numeric_error_resets p a px gl :
  32 ≤ length gl →
  Exists (fun row => ∃ l, gl !! row = Some l ∧ row_data_of l = None)
    (seq 0 32) →
  ∃ px', grid_branch p a px gl = Continue (Locals p a px' []).
Proof.
  intros Hlen Hex. unfold grid_branch.
  destruct (fill_rows_value_error (seq 0 32) gl px) as [px' ->];
    [by apply seq_lt_length|done|].
  by exists px'.
Qed.

Lemma numeric_error_resets_witness :
  ∃ px', grid_branch (Some f25_3) (Some f24_8) (zeros 32 32)
           (replicate 32 (lit "abc"))
         = Continue (Locals (Some f25_3) (Some f24_8) px' []).
Proof.
  apply numeric_error_resets.
  - vm_compute. lia.
  - apply Exists_cons_hd. exists (lit "abc"). split; reflexivity.
Defined.

Lemma scan_returns st p a :
  update_scalar ptat_re (buffer st) (ptat st) = inr (Some p) →
  update_scalar avg_re (buffer st) (avg_temp st) = inr (Some a) →
  32 ≤ length (findall grid_re (buffer st)) →
  ∃ px, scan st = Return (Some p, Some a, Some px).
Proof.
  intros Hp Ha Hlen.
  destruct (scan_unfold st) as (p' & a' & Hp' & Ha' & _ & _ & ->).
  rewrite Hp in Hp'. rewrite Ha in Ha'. simplify_eq.
  rewrite !bool_decide_eq_true_2 by done. cbn [andb].
  destruct (Nat.leb_spec 32 (length (findall grid_re (buffer st))));
    [|lia]. unfold grid_branch.
  assert ((fill_rows (seq 0 32) (findall grid_re (buffer st)) (pixels st)).1
          = None) as E.
  { apply fill_rows_no_error. apply findall_rows_convert; [done|].
    apply Forall_forall. intros i Hi%list_elem_of_In%in_seq. lia. }
  destruct (fill_rows _ _ _) as [e px]. simpl in E. subst e. by exists px.
Qed.

(** C8: the numeric-parse-error branch is unreachable: every string that
    the grid pattern matches splits into exactly 32 words, each of which
    converts to a float; so the conversion of matched lines never fails,
    and whenever both scalars are present and at least 32 grid lines are
    matched, the iteration returns a frame. *)
Theorem grid_conversion_never_fails :
  (∀ s g, g ∈ findall grid_re s →
          length (split g) = 32 ∧ Forall (fun w => is_Some (py_float w)) (split g))
  ∧ (∀ s px, 32 ≤ length (findall grid_re s) →
             (fill_rows (seq 0 32) (findall grid_re s) px).1 = None)
  ∧ (∀ st p a,
       update_scalar ptat_re (buffer st) (ptat st) = inr (Some p) →
       update_scalar avg_re (buffer st) (avg_temp st) = inr (Some a) →
       32 ≤ length (findall grid_re (buffer st)) →
       ∃ px, scan st = Return (Some p, Some a, Some px)).
Proof.
  split; [|split].
  - intros s g [Hn Hds]%findall_grid_elem%split_grid_text. split; [done|].
    eapply Forall_impl; [exact Hds|]. apply decimal_text_float.
  - intros s px Hlen. apply fill_rows_no_error.
    apply findall_rows_convert; [done|].
    apply Forall_forall. intros i Hi%list_elem_of_In%in_seq. lia.
  - apply scan_returns.
Qed.

Lemma grid_conversion_never_fails_witness :
  (length (split zeros_line) = 32
   ∧ Forall (fun w => is_Some (py_float w)) (split zeros_line))
  ∧ (fill_rows (seq 0 32) (findall grid_re example_buffer) (zeros 32 32)).1
    = None
  ∧ ∃ px, scan example_locals = Return (Some f25_3, Some f24_8, Some px).
Proof.
  assert (32 ≤ length (findall grid_re example_buffer)) as Hlen
    by (vm_compute; lia).
  split; [|split].
  - apply (proj1 grid_conversion_never_fails example_buffer).
    apply (list_elem_of_lookup_2 _ 0). vm_compute. reflexivity.
  - by apply (proj1 (proj2 grid_conversion_never_fails)).
  - apply (proj2 (proj2 grid_conversion_never_fails) example_locals);
      [vm_compute; reflexivity..|exact Hlen].
Defined.

(** ** Timeout *)

(** Once the clock has passed the deadline at some check, and the port
    delivers a line at every earlier check, the function returns. *)
Lemma loop_total start nows k t port st :
  nows !! k = Some t → in_window start t = false → k ≤ length port →
  ∃ v, loop start nows port st = Some (Returned v).
Proof.
  revert k port st. induction nows as [|now nows IH]; intros k port st Hk Ht Hp;
    [done|].
  simpl. destruct (in_window start now) eqn:E; [|by eexists].
  destruct k as [|k].
  { simpl in Hk. injection Hk as ->. congruence. }
  destruct port as [|raw port]; [simpl in Hp; lia|].
  destruct (body st raw) as [st'|v|e] eqn:Hb.
  - apply (IH k); [done|done|simpl in Hp; lia].
  - by eexists.
  - by apply body_no_raise in Hb.
Qed.

Lemma unlines_snoc ls l : unlines (ls ++ [l]) = unlines ls ++ l ++ [LF].
Proof.
  rewrite unlines_app, unlines_cons. change (unlines []) with (@nil N). done.
Qed.

Lemma scan_few_lines st :
  length (findall grid_re (buffer st)) < 32 →
  ∃ p a, scan st = Continue (reset_if_large (Locals p a (pixels st) (buffer st))).
Proof.
  intros Hlen. destruct (scan_unfold st) as (p & a & _ & _ & _ & _ & ->).
  exists p, a. destruct (_ && _); [|done].
  destruct (Nat.leb_spec 32 (length (findall grid_re (buffer st)))); [lia|done].
Qed.

Lemma reset_if_large_buffer st :
  buffer (reset_if_large st) = [] ∨ buffer (reset_if_large st) = buffer st.
Proof. unfold reset_if_large. destruct (_ <? _)%Z; auto. Qed.

(** A stream with fewer than 32 grid lines never yields a frame. *)
Lemma loop_few_grid_lines start nows port st ls r :
  buffer st = unlines ls → Forall (fun l => LF ∉ l) ls →
  Forall (fun raw => LF ∉ strip raw) port →
  length (List.filter is_grid_line ls)
    + length (List.filter (fun raw => is_grid_line (strip raw)) port) < 32 →
  loop start nows port st = Some r → r = Returned no_data.
Proof.
  revert port st ls.
  induction nows as [|now nows IH]; intros port st ls Hb Hls Hport Hn; [done|].
  simpl. destruct (in_window _ _); [|by intros [= <-]].
  destruct port as [|raw port]; [done|].
  inversion_clear Hport as [|?? Hraw Hport']. simpl in Hn.
  unfold body. destruct (strip raw) as [|c l] eqn:Hline.
  - by apply (IH port st ls).
  - set (st1 := Locals _ _ _ _).
    assert (buffer st1 = unlines (ls ++ [c :: l])) as Hb1
      by (by rewrite unlines_snoc, <- Hb).
    assert (Forall (fun l => LF ∉ l) (ls ++ [c :: l])) as Hls1
      by (apply Forall_app; by repeat constructor).
    assert (findall grid_re (buffer st1)
            = List.filter is_grid_line (ls ++ [c :: l])) as Hf
      by (rewrite Hb1; by apply findall_grid_unlines).
    rewrite List.filter_app in Hf.
    destruct (scan_few_lines st1) as (p & a & ->).
    { rewrite Hf, length_app. simpl.
      destruct (is_grid_line (c :: l)); simpl in *; lia. }
    destruct (reset_if_large_buffer (Locals p a (pixels st1) (buffer st1)))
      as [E|E].
    + apply (IH port _ []); try done.
      destruct (is_grid_line (c :: l)); simpl in *; lia.
    + apply (IH port _ (ls ++ [c :: l])); try done.
      * by rewrite E.
      * rewrite List.filter_app, length_app. simpl.
        destruct (is_grid_line (c :: l)); simpl in *; lia.
Qed.

(** C5: for every input stream on which the clock passes PARSE_TIMEOUT
    (with a line delivered at every earlier check), parse_uart_data
    returns, and what it returns is a complete frame or else
    (None, None, None): it neither raises nor returns partial data.  In
    particular a stream with fewer than 32 grid lines yields
    (None, None, None). *)
Theorem timeout_returns_no_data ser start nows k t :
  clock ser = start :: nows →
  nows !! k = Some t → in_window start t = false →
  k ≤ length (port ser) →
  (∃ v, parse_uart_data ser = Some (Returned v)
        ∧ ((∃ p a px, v = (Some p, Some a, Some px)) ∨ v = no_data))
  ∧ (Forall (fun raw => LF ∉ strip raw) (port ser) →
     length (List.filter (fun raw => is_grid_line (strip raw)) (port ser)) < 32 →
     parse_uart_data ser = Some (Returned no_data)).
Proof.
  intros Hc Hk Ht Hp.
  assert (∃ v, parse_uart_data ser = Some (Returned v)) as [v Hv].
  { unfold parse_uart_data. rewrite Hc. by eapply loop_total. }
  split.
  - exists v. split; [done|]. by apply returned_complete_or_nothing in Hv.
  - intros Hport Hn. rewrite Hv. f_equal.
    unfold parse_uart_data in Hv. rewrite Hc in Hv.
    by apply (loop_few_grid_lines start nows (port ser) initial []) in Hv.
Qed.

Lemma timeout_returns_no_data_witness :
  (∃ v, parse_uart_data no_grid_world = Some (Returned v)
        ∧ ((∃ p a px, v = (Some p, Some a, Some px)) ∨ v = no_data))
  ∧ parse_uart_data no_grid_world = Some (Returned no_data).
Proof.
  assert (in_window (seconds 0) (seconds 11) = false) as Ht by reflexivity.
  assert (2 ≤ length (port no_grid_world)) as Hp by (simpl; lia).
  assert (clock no_grid_world = seconds 0 :: (seconds <$> [1; 2; 11]%Q)) as Hc
    by reflexivity.
  assert ((seconds <$> [1; 2; 11]%Q) !! 2 = Some (seconds 11)) as Hk
    by reflexivity.
  destruct (timeout_returns_no_data no_grid_world (seconds 0)
              (seconds <$> [1; 2; 11]%Q) 2 (seconds 11) Hc Hk Ht Hp)
    as [H1 H2].
  split; [exact H1|]. apply H2.
  - repeat constructor; by apply (bool_decide_unpack _).
  - vm_compute. lia.
Defined.

(** ** The leftmost match of a scalar pattern *)

Lemma match_at_lit_prev c s r p q t :
  match_at (Seq (Lit (c :: s)) r) p t = match_at (Seq (Lit (c :: s)) r) q t.
Proof. unfold match_at. cbn [matches lit_match rest grp]. by destruct t. Qed.

Lemma search_from_lit_prev c s r p q t :
  search_from (Seq (Lit (c :: s)) r) p t = search_from (Seq (Lit (c :: s)) r) q t.
Proof.
  destruct t; cbn [search_from]; by rewrite (match_at_lit_prev c s r p q).
Qed.

Lemma update_scalar_grp r s s' old old' :
  is_Some (search r s) → grp <$> search r s' = grp <$> search r s →
  update_scalar r s' old' = update_scalar r s old.
Proof.
  unfold update_scalar, float_group. intros [m Hm] E. rewrite Hm in *.
  destruct (search r s') as [m'|]; [|done]. simpl in E. by injection E as ->.
Qed.

Lemma search_unlines_first c s r' pre l post m :
  let r := Seq (Lit (c :: s)) r' in
  nl_free r →
  Forall (fun l' => search r l' = None) pre → search r l = Some m →
  grp <$> search r (unlines (pre ++ l :: post)) = Some (grp m).
Proof.
  intros r Hr Hpre Hl. unfold search in *.
  induction Hpre as [|l' pre Hl' _ IH]; simpl app; rewrite unlines_cons,
    search_from_line by done.
  - by rewrite Hl.
  - rewrite Hl'. unfold r. by rewrite (search_from_lit_prev c s r' _ None).
Qed.

Lemma first_match_wins_lit c s r' :
  let r := Seq (Lit (c :: s)) r' in
  nl_free r → (∀ q, match_at r q [] = None) → first_match_wins r.
Proof.
  intros r Hr Hnil. subst r. split.
  - intros pre l post m old Hpre Hl.
    apply update_scalar_grp; [by rewrite Hl|].
    rewrite (search_unlines_first c s r' pre l post m Hr Hpre Hl).
    by rewrite Hl.
  - intros ls more old old' Hsome. apply update_scalar_grp; [done|].
    by apply search_from_stable.
Qed.

Lemma duplicate_world_frame :
  parse_uart_data duplicate_world = Some (Returned example_frame).
Proof. vm_compute. reflexivity. Qed.

(** C10: between buffer resets each scalar comes from the earliest
    matching occurrence in the buffer: it is read from the first line
    that matches, and lines that follow (duplicates included) do not
    change it; so a stream with two PTAT lines and two average lines
    yields the values of the first of each. *)
Theorem first_scalar_wins :
  first_match_wins ptat_re ∧ first_match_wins avg_re
  ∧ parse_uart_data duplicate_world = Some (Returned example_frame).
Proof.
  split; [|split].
  - apply (first_match_wins_lit 80%N (lit "TAT: ")); [apply ptat_re_nl_free|].
    apply ptat_re_nonempty.
  - apply (first_match_wins_lit 65%N (lit "vg Pixel Temp: "));
      [apply avg_re_nl_free|]. apply avg_re_nonempty.
  - exact duplicate_world_frame.
Qed.

Lemma first_scalar_wins_witness :
  update_scalar ptat_re
    (unlines ([zeros_line] ++ lit "PTAT: 25.3 C, PEC: 0x1F"
                :: [lit "PTAT: 99.9 C, PEC: 0x2A"])) None
  = inr (Some f25_3)
  ∧ update_scalar avg_re
      (unlines [lit "Avg Pixel Temp: 24.8 C"]
         ++ unlines [lit "Avg Pixel Temp: 11.1 C"]) None
    = inr (Some f24_8).
Proof.
  split.
  - pose proof (proj1 (proj1 first_scalar_wins) [zeros_line]
                  (lit "PTAT: 25.3 C, PEC: 0x1F")
                  [lit "PTAT: 99.9 C, PEC: 0x2A"]) as H.
    destruct (search ptat_re (lit "PTAT: 25.3 C, PEC: 0x1F")) as [m|] eqn:E;
      [|by vm_compute in E].
    rewrite (H m None); [by vm_compute|by repeat constructor|done].
  - rewrite (proj2 (proj1 (proj2 first_scalar_wins))
               [lit "Avg Pixel Temp: 24.8 C"] _ None None);
      [by vm_compute|vm_compute; by eexists].
Defined.

(** ** The grid of a returned frame *)

Lemma scan_pixels_shape st st' :
  shape_ok (pixels st) → scan st = Continue st' → shape_ok (pixels st').
Proof.
  intros Hpx. destruct (scan_unfold st) as (p & a & _ & _ & _ & _ & ->).
  assert (∀ st', Continue (reset_if_large (Locals p a (pixels st) (buffer st)))
                 = Continue st' → shape_ok (pixels st')) as Hreset.
  { intros st1 [= <-]. unfold reset_if_large. by destruct (_ <? _)%Z. }
  destruct (_ && _); [|by apply Hreset].
  destruct (_ <=? _); [|by apply Hreset]. unfold grid_branch.
  pose proof (fill_rows_shape (seq 0 32) (findall grid_re (buffer st))
                (pixels st) Hpx) as Hs.
  destruct (fill_rows _ _ _) as [[[]|] px']; try done.
  by intros [= <-].
Qed.

Lemma zeros_shape : shape_ok (zeros 32 32).
Proof. split; [done|]. by repeat constructor. Qed.

Lemma reachable_shape st : reachable st → shape_ok (pixels st).
Proof.
  induction 1 as [|st raw st' _ IH Hb]; [apply zeros_shape|].
  apply body_continue in Hb as [[_ ->]|[_ Hs]]; [done|].
  by apply scan_pixels_shape in Hs.
Qed.

(** The array of a returned frame holds the values of the first 32 grid
    lines of the buffer. *)
Lemma scan_return_grid st v :
  length (pixels st) = 32 → scan st = Return v →
  ∃ p a px,
    v = (Some p, Some a, Some px)
    ∧ grid_of (take 32 (findall grid_re (buffer st))) = Some px
    ∧ shape_ok px.
Proof.
  intros Hpx (p & a & px & -> & _ & _ & Hlen & Hfill)%scan_return.
  exists p, a, px. split; [done|].
  destruct (grid_of_grid_text (take 32 (findall grid_re (buffer st))))
    as (rs & Hrs & Hall).
  { apply Forall_take, Forall_forall. intros g. apply findall_grid_elem. }
  rewrite (fill_rows_grid _ _ rs Hpx Hlen Hrs Hall) in Hfill.
  injection Hfill as <-. split; [done|]. split; [|done].
  unfold grid_of in Hrs. apply length_mapM in Hrs.
  rewrite length_take in Hrs. lia.
Qed.

Lemma fill_rows_ext rows gl gl' px :
  Forall (fun row => gl !! row = gl' !! row) rows →
  fill_rows rows gl px = fill_rows rows gl' px.
Proof.
  intros Hrows. revert px.
  induction Hrows as [|row rows Hrow _ IH]; intros px; [done|].
  simpl. rewrite <- Hrow. destruct (gl !! row) as [l|]; [|done].
  destruct (row_data_of l); [|done]. apply IH.
Qed.

Lemma fill_rows_app gl more px :
  32 ≤ length gl →
  fill_rows (seq 0 32) (gl ++ more) px = fill_rows (seq 0 32) gl px.
Proof.
  intros Hlen. apply fill_rows_ext, Forall_forall.
  intros i Hi%list_elem_of_In%in_seq. apply lookup_app_l. lia.
Qed.

Lemma search_lit_absent l r c p s :
  c ∈ l → c ∉ s → search_from (Seq (Lit l) r) p s = None.
Proof.
  intros Hl. revert p.
  assert (∀ p s, c ∉ s → match_at (Seq (Lit l) r) p s = None) as Hm.
  { intros p s' Hs. unfold match_at. cbn [matches].
    destruct (lit_match l (MState p s' None)) as [|m ms] eqn:E; [done|].
    assert (m ∈ lit_match l (MState p s' None)) as Hin by (rewrite E; left).
    apply lit_match_spec in Hin as [[Hr _] _]. simpl in Hr. subst s'.
    exfalso. apply Hs, elem_of_app. by left. }
  induction s as [|x s IH]; intros p Hs; cbn [search_from];
    rewrite Hm by done; [done|].
  apply IH. by apply not_elem_of_cons in Hs as [_ ?].
Qed.

Lemma grid_text_chars w c :
  grid_text w → c ∈ w →
  c = 45%N ∨ c = 46%N ∨ c = SPACE ∨ isdecimal c = true.
Proof.
  intros (ds & _ & Hds & ->) [->|(d & Hd & Hc)]%elem_of_join; [auto|].
  rewrite Forall_forall in Hds.
  destruct (decimal_text_chars d c (Hds d Hd) Hc) as [?|[?|?]]; auto.
Qed.

Lemma elem_of_unlines c ls :
  c ∈ unlines ls → c = LF ∨ ∃ l, l ∈ ls ∧ c ∈ l.
Proof.
  induction ls as [|l ls IH]; [by intros ?%elem_of_nil|].
  rewrite unlines_cons, elem_of_app, elem_of_cons.
  intros [?|[?|Hc]]; [|by left|].
  - right. exists l. split; [left|done].
  - destruct (IH Hc) as [?|(l' & ? & ?)]; [by left|].
    right. exists l'. split; [by right|done].
Qed.

(** Grid lines hold no scalar. *)
Lemma search_grid_lines l r c p extra :
  c ∈ l → c ≠ LF → c ≠ 45%N → c ≠ 46%N → c ≠ SPACE → isdecimal c = false →
  Forall grid_text extra →
  search_from (Seq (Lit l) r) p (unlines extra) = None.
Proof.
  intros Hl ????? Hex. apply (search_lit_absent l r c); [done|].
  intros [?|(g & Hg & Hc)]%elem_of_unlines; [done|].
  rewrite Forall_forall in Hex.
  destruct (grid_text_chars g c (Hex g Hg) Hc) as [?|[?|[?|?]]]; congruence.
Qed.

Lemma search_from_none_app r p ls x :
  nl_free r → search_from r p (unlines ls) = None →
  ∃ q, search_from r p (unlines ls ++ x) = search_from r q x.
Proof.
  intros Hr. revert p. induction ls as [|l ls IH]; intros p Hn.
  - by exists p.
  - rewrite unlines_cons in *. rewrite <- (assoc_L (++)). simpl.
    rewrite search_from_line in * by done.
    destruct (search_from r p l); [done|]. by apply IH.
Qed.

(** Grid lines appended to a buffer of whole lines leave a scalar as it
    was. *)
Lemma update_scalar_grid_lines c s r' ls extra old :
  let r := Seq (Lit (c :: s)) r' in
  nl_free r → (∀ q, match_at r q [] = None) →
  c ≠ LF → c ≠ 45%N → c ≠ 46%N → c ≠ SPACE → isdecimal c = false →
  Forall grid_text extra →
  update_scalar r (unlines ls ++ unlines extra) old
  = update_scalar r (unlines ls) old.
Proof.
  intros r Hr Hnil ????? Hex. subst r.
  destruct (search (Seq (Lit (c :: s)) r') (unlines ls)) as [m|] eqn:E.
  - apply update_scalar_grp; [by rewrite E|].
    apply search_from_stable; [done..|]. unfold search in E. by rewrite E.
  - unfold update_scalar. rewrite E. unfold search in *.
    destruct (search_from_none_app _ None ls (unlines extra) Hr E) as [q ->].
    rewrite (search_grid_lines (c :: s) r' c); try done. left.
Qed.

Lemma filter_all {A} (f : A → bool) l :
  Forall (fun x => f x = true) l → List.filter f l = l.
Proof. induction 1 as [|x l Hx _ IH]; simpl; [done|]. by rewrite Hx, IH. Qed.

(** C3: whenever parse_uart_data returns a frame, the pixels grid has
    shape 32x32 and holds the values of the first 32 matching grid lines
    of the buffer of the returning iteration; and for a buffer that
    already yields a frame, extra trailing grid lines change neither the
    returned scalars nor the grid. *)
Theorem grid_from_first_32_lines :
  (∀ ser p a px,
     parse_uart_data ser = Some (Returned (p, a, Some px)) →
     shape_ok px
     ∧ ∃ st raw,
         reachable st ∧ body st raw = Return (p, a, Some px)
         ∧ grid_of (take 32 (findall grid_re (buffer st ++ strip raw ++ [LF])))
           = Some px)
  ∧ (∀ st ls extra v,
       buffer st = unlines ls → Forall (fun l => LF ∉ l) ls →
       Forall (fun l => is_grid_line l = true) extra →
       scan st = Return v →
       scan (Locals (ptat st) (avg_temp st) (pixels st) (unlines (ls ++ extra)))
       = Return v).
Proof.
  split.
  - intros ser p a px [[=]|(st & raw & v & Hst & Hb & [= <-])]%parse_result.
    pose proof (reachable_shape st Hst) as [Hpx _].
    assert (∃ c l, strip raw = c :: l) as (c & l & Hline).
    { unfold body in Hb. destruct (strip raw) as [|c l]; [done|]. by exists c, l. }
    unfold body in Hb. rewrite Hline in Hb.
    apply scan_return_grid in Hb as Hg; [|done].
    destruct Hg as (p' & a' & px' & [= -> -> ->] & Hgrid & Hshape).
    split; [done|]. exists st, raw. split; [done|]. split.
    + unfold body. by rewrite Hline.
    + by rewrite Hline.
  - intros st ls extra v Hb Hls Hex Hv.
    assert (Forall grid_text extra) as Hex'.
    { eapply Forall_impl; [exact Hex|]. intros l. by apply is_grid_line_spec. }
    apply scan_return in Hv as (p & a & px & -> & Hp & Ha & Hlen & Hfill).
    rewrite Hb in Hp, Ha, Hlen, Hfill.
    assert (findall grid_re (unlines (ls ++ extra))
            = findall grid_re (unlines ls) ++ extra) as Hf.
    { unfold findall. rewrite !findall_grid_unlines; [|done..|].
      - by rewrite List.filter_app, (filter_all _ extra Hex).
      - apply Forall_app. split; [done|].
        eapply Forall_impl; [exact Hex'|]. apply grid_text_no_LF. }
    set (st2 := Locals _ _ _ _).
    destruct (scan_returns st2 p a) as [px2 Hret].
    + change (update_scalar ptat_re (unlines (ls ++ extra)) (ptat st)
              = inr (Some p)).
      rewrite unlines_app, <- Hp.
      by apply (update_scalar_grid_lines 80%N (lit "TAT: "));
        [apply ptat_re_nl_free|apply ptat_re_nonempty|..].
    + change (update_scalar avg_re (unlines (ls ++ extra)) (avg_temp st)
              = inr (Some a)).
      rewrite unlines_app, <- Ha.
      by apply (update_scalar_grid_lines 65%N (lit "vg Pixel Temp: "));
        [apply avg_re_nl_free|apply avg_re_nonempty|..].
    + change (32 ≤ length (findall grid_re (unlines (ls ++ extra)))).
      rewrite Hf, length_app. lia.
    + rewrite Hret.
      apply scan_return in Hret as (p2 & a2 & px2' & Heq & _ & _ & _ & H2).
      change (fill_rows (seq 0 32) (findall grid_re (unlines (ls ++ extra)))
                (pixels st) = (None, px2')) in H2.
      rewrite Hf, fill_rows_app, Hfill in H2 by done. congruence.
Qed.

Lemma grid_from_first_32_lines_witness :
  (shape_ok (zeros 32 32)
   ∧ ∃ st raw,
       reachable st
       ∧ body st raw = Return (Some f25_3, Some f24_8, Some (zeros 32 32))
       ∧ grid_of (take 32 (findall grid_re (buffer st ++ strip raw ++ [LF])))
         = Some (zeros 32 32))
  ∧ scan (Locals None None (zeros 32 32)
            (unlines (example_lines ++ [zeros_line; zeros_line])))
    = Return example_frame.
Proof.
  split.
  - apply (proj1 grid_from_first_32_lines example_world).
    exact example_world_frame.
  - apply (proj2 grid_from_first_32_lines example_locals example_lines
             [zeros_line; zeros_line] example_frame).
    + reflexivity.
    + apply (bool_decide_unpack _). vm_compute. reflexivity.
    + repeat constructor.
    + vm_compute. reflexivity.
Defined.


(** ** Scalars and buffer resets *)

Lemma after_reset_reachable : reachable after_reset.
Proof.
  eapply (reachable_step _ (sent long_line)).
  - eapply (reachable_step _ (sent (lit "Avg Pixel Temp: 24.8 C"))).
    + eapply (reachable_step _ (sent (lit "PTAT: 25.3 C, PEC: 0x1F")));
        [apply reachable_initial|]. vm_compute. reflexivity.
    + vm_compute. reflexivity.
  - vm_compute. reflexivity.
Qed.

(** C9: emptying the buffer (on size overflow or on a numeric parse
    error) leaves ptat and avg_temp as they were, and an iteration whose
    buffer holds no match for a scalar keeps the value it had; so a
    returned frame may combine scalars read before a reset with grid
    lines read after it, as happens when a line of 10001 characters stands
    between the scalars and the grid. *)
Theorem scalars_survive_reset :
  (∀ st, ptat (reset_if_large st) = ptat st
         ∧ avg_temp (reset_if_large st) = avg_temp st)
  ∧ (∀ p a px gl st',
       grid_branch p a px gl = Continue st' →
       ptat st' = p ∧ avg_temp st' = a ∧ buffer st' = [])
  ∧ (∀ st raw st',
       body st raw = Continue st' →
       (search ptat_re (buffer st ++ strip raw ++ [LF]) = None →
        ptat st' = ptat st)
       ∧ (search avg_re (buffer st ++ strip raw ++ [LF]) = None →
          avg_temp st' = avg_temp st))
  ∧ (reachable after_reset
     ∧ loop (seconds 0) (ticks 0 40) (sent <$> replicate 32 zeros_line) after_reset
       = Some (Returned example_frame))
  ∧ parse_uart_data reset_world = Some (Returned example_frame).
Proof.
  split; [|split; [|split; [|split]]].
  - intros st. unfold reset_if_large. by destruct (_ <? _)%Z.
  - intros p a px gl st'. unfold grid_branch.
    destruct (fill_rows _ _ _) as [[[]|] px']; try done. by intros [= <-].
  - intros st raw st' [[_ ->]|[_ Hs]]%body_continue; [done|].
    apply scan_continue in Hs as (Hp & Ha & _). simpl in Hp, Ha.
    unfold update_scalar in Hp, Ha. split; intros E; rewrite E in *; congruence.
  - split; [apply after_reset_reachable|]. vm_compute. reflexivity.
  - vm_compute. reflexivity.
Qed.

Lemma scalars_survive_reset_witness :
  (∀ st', grid_branch (Some f25_3) (Some f24_8) (zeros 32 32)
            (replicate 32 (lit "abc")) = Continue st' →
          ptat st' = Some f25_3 ∧ avg_temp st' = Some f24_8 ∧ buffer st' = [])
  ∧ (body after_reset (sent zeros_line)
     = Continue (Locals (Some f25_3) (Some f24_8) (zeros 32 32)
                   (zeros_line ++ [LF]))
     ∧ search ptat_re (buffer after_reset ++ strip (sent zeros_line) ++ [LF])
       = None
     ∧ ptat (Locals (Some f25_3) (Some f24_8) (zeros 32 32)
               (zeros_line ++ [LF])) = ptat after_reset).
Proof.
  split.
  - intros st'. apply (proj1 (proj2 scalars_survive_reset)).
  - assert (body after_reset (sent zeros_line)
            = Continue (Locals (Some f25_3) (Some f24_8) (zeros 32 32)
                          (zeros_line ++ [LF]))) as Hb
      by (vm_compute; reflexivity).
    assert (search ptat_re
              (buffer after_reset ++ strip (sent zeros_line) ++ [LF]) = None)
      as Hs by (vm_compute; reflexivity).
    split; [exact Hb|]. split; [exact Hs|].
    exact (proj1 (proj1 (proj2 (proj2 scalars_survive_reset)) _ _ _ Hb) Hs).
Defined.

(** ** A buffer that holds a whole frame *)

Lemma search_first_line r p l t m :
  nl_free r → match_at r p l = Some m →
  search_from r p (l ++ LF :: t) = Some (extend (LF :: t) m).
Proof.
  intros Hr Hm. rewrite search_from_line by done.
  destruct l; cbn [search_from]; by rewrite Hm.
Qed.

Lemma ptat_line_unfold d h1 h2 t :
  ptat_line d h1 h2 ++ t
  = [80; 84; 65; 84; 58; 32]%N
      ++ (d ++ SPACE :: [67; 44; 32; 80; 69; 67; 58; 32; 48; 120; h1; h2]%N ++ t).
Proof.
  unfold ptat_line. by rewrite <- !(assoc_L (++)).
Qed.

Lemma avg_line_unfold d t :
  avg_line d ++ t
  = [65; 118; 103; 32; 80; 105; 120; 101; 108; 32; 84; 101; 109; 112; 58; 32]%N
      ++ (d ++ SPACE :: [67%N] ++ t).
Proof.
  unfold avg_line. by rewrite <- !(assoc_L (++)).
Qed.

Lemma match_at_ptat_line p d h1 h2 t :
  decimal_text d → hexdigit h1 = true → hexdigit h2 = true →
  ∃ m, match_at ptat_re p (ptat_line d h1 h2 ++ t) = Some m ∧ grp m = Some d.
Proof.
  intros Hd Hh1 Hh2. unfold match_at.
  set (st := MState p (ptat_line d h1 h2 ++ t) None).
  assert (MState (last_char p (ptat_line d h1 h2)) t (Some d)
            ∈ matches ptat_re st) as Hin.
  { apply matches_spec. exists (ptat_line d h1 h2). split; [done|].
    apply sem_ptat_re. by exists d, h1, h2. }
  destruct (matches ptat_re st) as [|m ms] eqn:E; [by apply elem_of_nil in Hin|].
  exists m. split; [done|].
  assert (m ∈ matches ptat_re st) as Hm by (rewrite E; left).
  apply matches_spec in Hm as (w & [Hr _] & Hs).
  apply sem_ptat_re in Hs as (d' & h1' & h2' & Hd' & _ & _ & -> & ->).
  f_equal. unfold st in Hr. cbn [rest] in Hr.
  rewrite !ptat_line_unfold in Hr. apply app_inv_head in Hr.
  apply app_inv_first_sep in Hr as [-> _]; [done|..];
    intros Hc; by eapply decimal_text_no_space in Hc.
Qed.

Lemma match_at_avg_line p d t :
  decimal_text d →
  ∃ m, match_at avg_re p (avg_line d ++ t) = Some m ∧ grp m = Some d.
Proof.
  intros Hd. unfold match_at.
  set (st := MState p (avg_line d ++ t) None).
  assert (MState (last_char p (avg_line d)) t (Some d) ∈ matches avg_re st)
    as Hin.
  { apply matches_spec. exists (avg_line d). split; [done|].
    apply sem_avg_re. by exists d. }
  destruct (matches avg_re st) as [|m ms] eqn:E; [by apply elem_of_nil in Hin|].
  exists m. split; [done|].
  assert (m ∈ matches avg_re st) as Hm by (rewrite E; left).
  apply matches_spec in Hm as (w & [Hr _] & Hs).
  apply sem_avg_re in Hs as (d' & Hd' & -> & ->).
  f_equal. unfold st in Hr. cbn [rest] in Hr.
  rewrite !avg_line_unfold in Hr. apply app_inv_head in Hr.
  apply app_inv_first_sep in Hr as [-> _]; [done|..];
    intros Hc; by eapply decimal_text_no_space in Hc.
Qed.

Lemma elem_of_ptat_line c d h1 h2 :
  c ∈ ptat_line d h1 h2 →
  c ∈ lit "PTAT:  C, PEC: 0x" ∨ c ∈ d ∨ c = h1 ∨ c = h2.
Proof.
  unfold ptat_line. rewrite !elem_of_app, !elem_of_cons, elem_of_nil.
  intros [Hc|[?|[Hc|[?|[?|[]]]]]]; auto; left;
    revert c Hc; apply Forall_forall; repeat constructor;
    by apply (bool_decide_unpack _).
Qed.

Lemma elem_of_avg_line c d :
  c ∈ avg_line d → c ∈ lit "Avg Pixel Temp:  C" ∨ c ∈ d.
Proof.
  unfold avg_line. rewrite !elem_of_app.
  intros [Hc|[?|Hc]]; auto; left;
    revert c Hc; apply Forall_forall; repeat constructor;
    by apply (bool_decide_unpack _).
Qed.

(** A character that is in no part of a PTAT line. *)
Lemma not_in_ptat_line c d h1 h2 :
  decimal_text d → hexdigit h1 = true → hexdigit h2 = true →
  c ∉ lit "PTAT:  C, PEC: 0x" → c ≠ 45%N → c ≠ 46%N → isdecimal c = false →
  hexdigit c = false →
  c ∉ ptat_line d h1 h2.
Proof.
  intros Hd Hh1 Hh2 Hl ?? Hdec Hhex [?|[Hc|[->| ->]]]%elem_of_ptat_line;
    [done| |congruence..].
  destruct (decimal_text_chars d c Hd Hc) as [?|[?|?]]; congruence.
Qed.

Lemma not_in_avg_line c d :
  decimal_text d →
  c ∉ lit "Avg Pixel Temp:  C" → c ≠ 45%N → c ≠ 46%N → isdecimal c = false →
  c ∉ avg_line d.
Proof.
  intros Hd Hl ?? Hdec [?|Hc]%elem_of_avg_line; [done|].
  destruct (decimal_text_chars d c Hd Hc) as [?|[?|?]]; congruence.
Qed.

Lemma not_grid_line_with c l :
  c ∈ l → c ≠ 45%N → c ≠ 46%N → c ≠ SPACE → isdecimal c = false →
  is_grid_line l = false.
Proof.
  intros Hc ????. apply not_true_iff_false. intros Hg%is_grid_line_spec.
  destruct (grid_text_chars l c Hg Hc) as [?|[?|[?|?]]]; congruence.
Qed.

Lemma ptat_line_head d h1 h2 : 80%N ∈ ptat_line d h1 h2.
Proof. unfold ptat_line. apply elem_of_app. left. by apply (bool_decide_unpack _). Qed.

Lemma avg_line_head d : 65%N ∈ avg_line d.
Proof. unfold avg_line. apply elem_of_app. left. by apply (bool_decide_unpack _). Qed.

Lemma update_ptat_first_line d h1 h2 t old f :
  decimal_text d → hexdigit h1 = true → hexdigit h2 = true →
  py_float d = Some f →
  update_scalar ptat_re (ptat_line d h1 h2 ++ LF :: t) old = inr (Some f).
Proof.
  intros Hd Hh1 Hh2 Hf.
  destruct (match_at_ptat_line None d h1 h2 [] Hd Hh1 Hh2) as (m & Hm & Hg).
  rewrite (right_id_L [] (++)) in Hm.
  unfold update_scalar, search.
  rewrite (search_first_line _ _ _ _ m ptat_re_nl_free Hm).
  unfold float_group. cbn [extend grp]. by rewrite Hg, Hf.
Qed.

Lemma update_avg_second_line l d t old f :
  118%N ∉ l → decimal_text d → py_float d = Some f →
  update_scalar avg_re (l ++ LF :: avg_line d ++ LF :: t) old = inr (Some f).
Proof.
  intros Hl Hd Hf.
  destruct (match_at_avg_line (Some LF) d [] Hd) as (m & Hm & Hg).
  rewrite (right_id_L [] (++)) in Hm.
  unfold update_scalar, search.
  rewrite (search_from_line _ _ _ _ avg_re_nl_free).
  unfold avg_re at 1.
  rewrite (search_lit_absent _ _ 118%N None l);
    [|by apply (bool_decide_unpack _)|done].
  rewrite (search_first_line _ _ _ _ m avg_re_nl_free Hm).
  unfold float_group. cbn [extend grp]. by rewrite Hg, Hf.
Qed.

Lemma findall_frame_lines d1 h1 h2 d2 rows :
  decimal_text d1 → hexdigit h1 = true → hexdigit h2 = true →
  decimal_text d2 → Forall (fun l => is_grid_line l = true) rows →
  findall grid_re (unlines (ptat_line d1 h1 h2 :: avg_line d2 :: rows)) = rows.
Proof.
  intros Hd1 Hh1 Hh2 Hd2 Hrows. unfold findall.
  rewrite findall_grid_unlines; [|done|].
  - cbn [List.filter].
    rewrite (not_grid_line_with 80%N) by (done || apply ptat_line_head).
    rewrite (not_grid_line_with 65%N) by (done || apply avg_line_head).
    by apply filter_all.
  - constructor; [|constructor].
    + apply not_in_ptat_line; try done. by apply (bool_decide_unpack _).
    + apply not_in_avg_line; try done. by apply (bool_decide_unpack _).
    + eapply Forall_impl; [exact Hrows|]. intros l Hl%is_grid_line_spec.
      by apply grid_text_no_LF.
Qed.

(** The iteration that completes a buffer of a PTAT line, an average
    line and 32 grid lines returns their values. *)
Lemma body_frame st raw dp h1 h2 da rows :
  strip raw ≠ [] →
  buffer st ++ strip raw ++ [LF]
  = unlines (ptat_line dp h1 h2 :: avg_line da :: rows) →
  decimal_text dp → hexdigit h1 = true → hexdigit h2 = true →
  decimal_text da →
  length rows = 32 → Forall (fun l => is_grid_line l = true) rows →
  length (pixels st) = 32 →
  ∃ fp fa px,
    py_float dp = Some fp ∧ py_float da = Some fa ∧ grid_of rows = Some px
    ∧ body st raw = Return (Some fp, Some fa, Some px).
Proof.
  intros Hne Hbuf Hdp Hh1 Hh2 Hda Hn Hrows Hpx.
  destruct (decimal_text_float dp Hdp) as [fp Hfp].
  destruct (decimal_text_float da Hda) as [fa Hfa].
  exists fp, fa.
  unfold body. destruct (strip raw) as [|c l] eqn:E; [done|].
  rewrite Hbuf. set (st1 := Locals _ _ _ _).
  assert (findall grid_re (buffer st1) = rows) as Hfind
    by by apply findall_frame_lines.
  destruct (scan_returns st1 fp fa) as [px Hret].
  - unfold st1. cbn [buffer ptat]. rewrite unlines_cons.
    by apply update_ptat_first_line.
  - unfold st1. cbn [buffer avg_temp]. rewrite !unlines_cons.
    apply update_avg_second_line; try done.
    apply not_in_ptat_line; try done. by apply (bool_decide_unpack _).
  - rewrite Hfind. lia.
  - exists px. split; [exact Hfp|]. split; [exact Hfa|]. split; [|exact Hret].
    apply scan_return_grid in Hret as (? & ? & px' & Heq & Hg & _); [|done].
    rewrite Hfind, take_ge in Hg by lia. by simplify_eq.
Qed.

(** ** Which lines count as grid lines *)

(** Against C2 as stated: a line whose 32 signed decimals are separated
    by tabs, or by more than one space, is not matched, and a stream whose
    grid comes in such lines yields no frame. *)
Lemma any_whitespace_not_recognised :
  is_grid_line_any_space tab_line = true
  ∧ findall grid_re (unlines [tab_line]) = []
  ∧ is_grid_line_any_space wide_line = true
  ∧ findall grid_re (unlines [wide_line]) = []
  ∧ parse_uart_data tab_world = Some (Returned no_data).
Proof. by vm_compute. Qed.

(** C2 (amended): for every line of the buffer, the parser recognises the
    line as a grid line if and only if the line consists of exactly 32
    signed decimals with exactly one space character between neighbours;
    every such line, and no other, is counted toward the required 32 grid
    lines. *)
Theorem grid_lines_recognised ls :
  Forall (fun l => LF ∉ l) ls →
  findall grid_re (unlines ls) = List.filter is_grid_line ls.
Proof. intros Hls. by apply findall_grid_unlines. Qed.

Lemma grid_lines_recognised_witness :
  findall grid_re (unlines example_lines) = List.filter is_grid_line example_lines.
Proof.
  apply grid_lines_recognised.
  apply (bool_decide_unpack _). vm_compute. reflexivity.
Defined.

(** ** Feeding a stream line by line *)

Lemma reset_if_large_small st :
  (len (buffer st) ≤ 10000)%Z → reset_if_large st = st.
Proof.
  intros H. unfold reset_if_large. destruct (Z.ltb_spec 10000 (len (buffer st))); [lia|done].
Qed.

Lemma filter_length_app {A} (f : A → bool) l1 l2 :
  length (List.filter f l1) ≤ length (List.filter f (l1 ++ l2)).
Proof. rewrite List.filter_app, length_app. lia. Qed.

Lemma len_unlines_app ls1 ls2 :
  (len (unlines ls1) ≤ len (unlines (ls1 ++ ls2)))%Z.
Proof. unfold len. rewrite unlines_app, length_app. lia. Qed.

(** While fewer than 32 grid lines have arrived and the buffer stays
    within its bound, every line read is appended and the loop goes on. *)
Lemma loop_feed start pending :
  ∀ pre nows raws more st,
    buffer st = unlines pre →
    strip <$> raws = pending →
    Forall (fun l => l ≠ []) pending →
    Forall (fun l => LF ∉ l) (pre ++ pending) →
    length (List.filter is_grid_line (pre ++ pending)) < 32 →
    (len (unlines (pre ++ pending)) ≤ 10000)%Z →
    length raws ≤ length nows →
    Forall (fun t => in_window start t = true) (take (length raws) nows) →
    ∃ st', buffer st' = unlines (pre ++ pending) ∧ pixels st' = pixels st
           ∧ loop start nows (raws ++ more) st
             = loop start (drop (length raws) nows) more st'.
Proof.
  induction pending as [|l pending IH];
    intros pre nows raws more st Hb Hraws Hne Hnl Hgrid Hlen Hnows Hwin.
  - destruct raws; [|done]. exists st. by rewrite (right_id_L [] (++)).
  - destruct raws as [|raw raws]; [done|]. injection Hraws as Hraw Hraws.
    destruct nows as [|now nows]; [simpl in Hnows; lia|].
    simpl in Hwin. inversion_clear Hwin as [|?? Hnow Hwin'].
    inversion_clear Hne as [|?? Hl Hne'].
    rewrite (cons_middle l pre pending), (assoc_L (++)) in Hnl, Hgrid, Hlen |- *.
    set (st1 := Locals (ptat st) (avg_temp st) (pixels st)
                  (buffer st ++ strip raw ++ [LF])).
    assert (buffer st1 = unlines (pre ++ [l])) as Hb1
      by (unfold st1; cbn [buffer]; by rewrite unlines_snoc, Hb, Hraw).
    assert (Forall (fun l => LF ∉ l) (pre ++ [l])) as Hnl1
      by by apply Forall_app in Hnl as [? _].
    destruct (scan_few_lines st1) as (p & a & Hscan).
    { rewrite Hb1. unfold findall. rewrite findall_grid_unlines by done.
      pose proof (filter_length_app is_grid_line (pre ++ [l]) pending). lia. }
    rewrite reset_if_large_small in Hscan.
    2: { cbn [buffer]. rewrite Hb1.
         pose proof (len_unlines_app (pre ++ [l]) pending). lia. }
    destruct (IH (pre ++ [l]) nows raws more
                (Locals p a (pixels st1) (buffer st1)))
      as (st' & Hb' & Hpx' & Hloop); try done; [simpl in Hnows; lia|].
    exists st'. split; [done|]. split; [done|].
    cbn [app loop length drop]. rewrite Hnow.
    unfold body. rewrite Hraw. destruct l as [|c l]; [done|].
    rewrite <- Hraw. fold st1. rewrite Hscan. exact Hloop.
Qed.

Lemma frame_lines_no_LF d1 h1 h2 d2 rows :
  decimal_text d1 → hexdigit h1 = true → hexdigit h2 = true →
  decimal_text d2 → Forall (fun l => is_grid_line l = true) rows →
  Forall (fun l => LF ∉ l) (ptat_line d1 h1 h2 :: avg_line d2 :: rows).
Proof.
  intros Hd1 Hh1 Hh2 Hd2 Hrows. constructor; [|constructor].
  - apply not_in_ptat_line; try done. by apply (bool_decide_unpack _).
  - apply not_in_avg_line; try done. by apply (bool_decide_unpack _).
  - eapply Forall_impl; [exact Hrows|]. intros l Hl%is_grid_line_spec.
    by apply grid_text_no_LF.
Qed.

(** A stream that delivers a PTAT line, an average line and 32 grid
    lines within the window, the first 33 of them within the bound of the
    buffer, yields their values. *)
Lemma stream_frame start nows raws more dp h1 h2 da rows :
  strip <$> raws = ptat_line dp h1 h2 :: avg_line da :: rows →
  34 ≤ length nows →
  Forall (fun t => in_window start t = true) (take 34 nows) →
  decimal_text dp → hexdigit h1 = true → hexdigit h2 = true →
  decimal_text da →
  length rows = 32 → Forall (fun l => is_grid_line l = true) rows →
  (len (unlines (take 33 (ptat_line dp h1 h2 :: avg_line da :: rows)))
   ≤ 10000)%Z →
  ∃ fp fa px,
    py_float dp = Some fp ∧ py_float da = Some fa ∧ grid_of rows = Some px
    ∧ parse_uart_data (World (start :: nows) (raws ++ more))
      = Some (Returned (Some fp, Some fa, Some px)).
Proof.
  intros Hraws Hnows Hwin Hdp Hh1 Hh2 Hda Hn Hrows Hlen.
  set (ls := ptat_line dp h1 h2 :: avg_line da :: rows) in *.
  assert (length raws = 34) as Hraws_len.
  { apply (f_equal length) in Hraws. rewrite length_fmap in Hraws.
    rewrite Hraws. unfold ls. simpl. lia. }
  pose proof (frame_lines_no_LF dp h1 h2 da rows Hdp Hh1 Hh2 Hda Hrows) as Hnl.
  fold ls in Hnl.
  assert (Forall (fun l => l ≠ []) ls) as Hne.
  { unfold ls. constructor; [|constructor].
    - intros E. apply (f_equal length) in E. unfold ptat_line in E.
      rewrite !length_app in E. simpl in E. lia.
    - intros E. apply (f_equal length) in E. unfold avg_line in E.
      rewrite !length_app in E. simpl in E. lia.
    - eapply Forall_impl; [exact Hrows|]. intros l Hl%is_grid_line_spec.
      by apply grid_text_nonempty. }
  destruct (loop_feed start (take 33 ls) [] nows (take 33 raws)
              (drop 33 raws ++ more) initial)
    as (st' & Hb' & Hpx' & Hloop).
  - done.
  - by rewrite fmap_take, Hraws.
  - by apply Forall_take.
  - by apply Forall_take.
  - unfold ls. cbn [take List.filter app].
    rewrite (not_grid_line_with 80%N) by (done || apply ptat_line_head).
    rewrite (not_grid_line_with 65%N) by (done || apply avg_line_head).
    rewrite filter_all by by apply Forall_take.
    rewrite length_take. lia.
  - exact Hlen.
  - rewrite length_take. lia.
  - rewrite length_take, Hraws_len. simpl Nat.min.
    replace (take 33 nows) with (take 33 (take 34 nows))
      by (by rewrite take_take).
    by apply Forall_take.
  - destruct (drop 33 raws) as [|raw [|]] eqn:Hd;
      [apply (f_equal length) in Hd; rewrite length_drop in Hd; simpl in Hd; lia
      | |apply (f_equal length) in Hd; rewrite length_drop in Hd; simpl in Hd; lia].
    assert (ls = take 33 ls ++ [strip raw]) as Hls.
    { rewrite <- (take_drop 33 ls) at 1. f_equal.
      by rewrite <- Hraws, <- fmap_drop, Hd. }
    destruct (body_frame st' raw dp h1 h2 da rows)
      as (fp & fa & px & Hfp & Hfa & Hpx & Hbody); try done.
    + rewrite Forall_forall in Hne. apply Hne. rewrite Hls.
      apply elem_of_app. right. left.
    + rewrite Hb'. change ([] ++ take 33 ls) with (take 33 ls).
      by rewrite <- unlines_snoc, <- Hls.
    + by rewrite Hpx'.
    + exists fp, fa, px. split; [done|]. split; [done|]. split; [done|].
      unfold parse_uart_data. cbn [clock port].
      rewrite <- (take_drop 33 raws) at 1. rewrite Hd, <- (assoc_L (++)), Hloop.
      rewrite length_take, Hraws_len. simpl Nat.min.
      destruct (drop 33 nows) as [|now nows'] eqn:Hdn;
        [apply (f_equal length) in Hdn; rewrite length_drop in Hdn;
         simpl in Hdn; lia|].
      cbn [app loop].
      assert (in_window start now = true) as ->; [|by rewrite Hbody].
      rewrite Forall_forall in Hwin. apply Hwin.
      apply (list_elem_of_lookup_2 _ 33). rewrite lookup_take_lt by lia.
      rewrite <- (Nat.add_0_r 33), <- lookup_drop, Hdn. done.
Qed.

Lemma in_window_forallb start nows :
  forallb (in_window start) nows = true →
  Forall (fun t => in_window start t = true) nows.
Proof. by intros H%forallb_Forall. Qed.

(* ================================================================= *)
(** * Further properties of the parser *)

(** ** What an iteration keeps *)

Lemma scan_continue_pixels st st' :
  scan st = Continue st' → pixels st' = pixels st.
Proof.
  destruct (scan_unfold st) as (p & a & _ & _ & _ & _ & ->).
  assert (∀ st', Continue (reset_if_large (Locals p a (pixels st) (buffer st)))
                 = Continue st' → pixels st' = pixels st) as Hreset.
  { intros st1 [= <-]. unfold reset_if_large. by destruct (_ <? _)%Z. }
  destruct (_ && _); [|by apply Hreset].
  destruct (Nat.leb_spec 32 (length (findall grid_re (buffer st))));
    [|by apply Hreset].
  unfold grid_branch.
  assert ((fill_rows (seq 0 32) (findall grid_re (buffer st)) (pixels st)).1
          = None) as E.
  { apply fill_rows_no_error. apply findall_rows_convert; [done|].
    apply Forall_forall. intros i Hi%list_elem_of_In%in_seq. lia. }
  destruct (fill_rows _ _ _) as [e px]. simpl in E. by subst e.
Qed.

(** X1: whenever the loop reads a line, the array is still the all-zero
    array of line 20: rows are written only in the iteration that
    returns the frame, so no iteration starts from a partly filled
    array. *)
Theorem pixels_zero_until_return st :
  reachable st → pixels st = zeros 32 32.
Proof.
  induction 1 as [|st raw st' _ IH Hb]; [done|].
  apply body_continue in Hb as [[_ ->]|[_ Hs]]; [done|].
  apply scan_continue_pixels in Hs. by rewrite Hs.
Qed.

Lemma pixels_zero_until_return_witness : pixels after_reset = zeros 32 32.
Proof. apply pixels_zero_until_return, after_reset_reachable. Defined.

(** X2: a scalar that has been found stays found for as long as the call
    runs: an iteration that goes on overwrites ptat and avg_temp with new
    values but never sets them back to None, also when it empties the
    buffer. *)
Theorem scalars_stay_found st raw st' :
  body st raw = Continue st' →
  (is_Some (ptat st) → is_Some (ptat st'))
  ∧ (is_Some (avg_temp st) → is_Some (avg_temp st')).
Proof.
  intros [[_ ->]|[_ Hs]]%body_continue; [done|].
  apply scan_continue in Hs as (Hp & Ha & _). cbn [buffer ptat avg_temp] in *.
  destruct (update_ptat_total (buffer st ++ strip raw ++ [LF]) (ptat st))
    as (p & Hp' & Hsp).
  destruct (update_avg_total (buffer st ++ strip raw ++ [LF]) (avg_temp st))
    as (a & Ha' & Hsa).
  rewrite Hp in Hp'. rewrite Ha in Ha'. simplify_eq. done.
Qed.

Lemma scalars_stay_found_witness :
  is_Some (ptat (Locals (Some f25_3) (Some f24_8) (zeros 32 32)
                   (unlines [zeros_line])))
  ∧ is_Some (avg_temp (Locals (Some f25_3) (Some f24_8) (zeros 32 32)
                         (unlines [zeros_line]))).
Proof.
  assert (body after_reset (sent zeros_line)
          = Continue (Locals (Some f25_3) (Some f24_8) (zeros 32 32)
                        (unlines [zeros_line]))) as H
    by (vm_compute; reflexivity).
  destruct (scalars_stay_found _ _ _ H) as [Hp Ha].
  split; [apply Hp|apply Ha]; by eexists.
Defined.

(** ** The lines of the buffer *)

Lemma rstrip_cons c s :
  isspace c = false → ∃ r, rstrip (c :: s) = c :: r.
Proof.
  intros Hc. simpl. destruct (rstrip s); rewrite ?Hc; by eexists.
Qed.

Lemma lstrip_head s : lstrip s = [] ∨ ∃ c s', lstrip s = c :: s' ∧ isspace c = false.
Proof.
  induction s as [|c s IH]; [by left|]. simpl.
  destruct (isspace c) eqn:E; [done|]. right. by exists c, s.
Qed.

Lemma strip_head s c l : strip s = c :: l → isspace c = false.
Proof.
  unfold strip. destruct (lstrip_head s) as [->|(c' & s' & -> & Hc)]; [done|].
  destruct (rstrip_cons c' s' Hc) as [r ->]. by intros [= <- _].
Qed.

Lemma rstrip_idemp s : rstrip (rstrip s) = rstrip s.
Proof.
  induction s as [|c s IH]; [done|]. simpl.
  destruct (rstrip s) as [|c' r] eqn:E.
  - destruct (isspace c) eqn:Hc; [done|]. simpl. by rewrite Hc.
  - cbn [rstrip]. cbn [rstrip] in IH. by rewrite IH.
Qed.

(** [strip] leaves a stripped line as it is. *)
Lemma strip_idemp s : strip (strip s) = strip s.
Proof.
  destruct (strip s) as [|c l] eqn:E; [done|].
  pose proof (strip_head s c l E) as Hc. rewrite <- E.
  unfold strip at 1. rewrite E. cbn [lstrip]. rewrite Hc, <- E.
  apply rstrip_idemp.
Qed.

(** X3: the buffer is always a sequence of whole lines, each followed by
    one line feed; every one of them is non-empty and has no whitespace
    at either end (it is a string that [strip] leaves unchanged). *)
Theorem buffer_of_stripped_lines st :
  reachable st →
  ∃ ls, buffer st = unlines ls ∧ Forall (fun l => l ≠ [] ∧ strip l = l) ls.
Proof.
  induction 1 as [|st raw st' _ (ls & Hb & Hls) Hbody]; [by exists []|].
  apply body_continue in Hbody as [[_ ->]|[Hne Hs]]; [by exists ls|].
  apply scan_continue in Hs as (_ & _ & [E|(E & _)]); [by exists []|].
  exists (ls ++ [strip raw]). cbn [buffer] in E. split.
  - by rewrite E, unlines_snoc, Hb.
  - apply Forall_app. split; [done|]. constructor; [|done].
    split; [done|apply strip_idemp].
Qed.

Lemma buffer_of_stripped_lines_witness :
  ∃ ls, buffer (Locals (Some f25_3) None (zeros 32 32)
                  (unlines [lit "PTAT: 25.3 C, PEC: 0x1F"])) = unlines ls
        ∧ Forall (fun l => l ≠ [] ∧ strip l = l) ls.
Proof.
  apply buffer_of_stripped_lines.
  apply (reachable_step initial (sent (lit "  PTAT: 25.3 C, PEC: 0x1F")));
    [apply reachable_initial|]. vm_compute. reflexivity.
Defined.

(** ** Lines too long for the buffer *)

Lemma long_lines_length ls :
  Forall (fun l => is_grid_line l = true → 322 ≤ length l) ls →
  323 * length (List.filter is_grid_line ls) ≤ length (unlines ls).
Proof.
  induction 1 as [|l ls Hl _ IH]; [simpl; lia|].
  rewrite unlines_cons, !length_app. cbn [List.filter length].
  destruct (is_grid_line l); cbn [length]; [specialize (Hl eq_refl)|]; lia.
Qed.

Lemma loop_long_grid_lines start nows port st ls r :
  buffer st = unlines ls → (len (buffer st) ≤ 10000)%Z →
  Forall (fun l => LF ∉ l) ls →
  Forall (fun l => is_grid_line l = true → 322 ≤ length l) ls →
  Forall (fun raw => LF ∉ strip raw) port →
  Forall (fun raw => is_grid_line (strip raw) = true → 322 ≤ length (strip raw))
    port →
  loop start nows port st = Some r → r = Returned no_data.
Proof.
  revert port st ls.
  induction nows as [|now nows IH]; intros port st ls Hb Hlen Hnl Hls Hport Hlong;
    [done|].
  simpl. destruct (in_window _ _); [|by intros [= <-]].
  destruct port as [|raw port]; [done|].
  inversion_clear Hport as [|?? Hraw Hport'].
  inversion_clear Hlong as [|?? Hrawl Hlong'].
  unfold body. destruct (strip raw) as [|c l] eqn:Hline.
  - by apply (IH port st ls).
  - set (st1 := Locals _ _ _ _).
    assert (buffer st1 = unlines (ls ++ [c :: l])) as Hb1
      by (by rewrite unlines_snoc, <- Hb).
    assert (Forall (fun l => LF ∉ l) (ls ++ [c :: l])) as Hnl1
      by (apply Forall_app; by repeat constructor).
    assert (Forall (fun l => is_grid_line l = true → 322 ≤ length l)
              (ls ++ [c :: l])) as Hls1
      by (apply Forall_app; split; [done|by constructor]).
    destruct (scan_few_lines st1) as (p & a & ->).
    { rewrite Hb1. unfold findall. rewrite findall_grid_unlines by done.
      rewrite List.filter_app, length_app.
      pose proof (long_lines_length ls Hls) as Hbound.
      rewrite <- Hb in Hbound. unfold len in Hlen.
      assert (length (List.filter is_grid_line [c :: l]) ≤ 1)
        by (simpl; destruct (is_grid_line (c :: l)); simpl; lia).
      lia. }
    unfold reset_if_large. cbn [buffer ptat avg_temp pixels].
    destruct (Z.ltb_spec 10000 (len (buffer st1))) as [Hbig|Hsmall].
    + by apply (IH port _ []).
    + by apply (IH port _ (ls ++ [c :: l])).
Qed.

Lemma parse_total ser start nows k t :
  clock ser = start :: nows →
  nows !! k = Some t → in_window start t = false →
  k ≤ length (port ser) →
  ∃ v, parse_uart_data ser = Some (Returned v).
Proof.
  intros Hc Hk Ht Hp. unfold parse_uart_data. rewrite Hc.
  by eapply loop_total.
Qed.

(** X4: the grid of a frame has to fit into the buffer of 10000
    characters together with what precedes it.  A stream whose grid lines
    have 322 characters or more each (32 values of ten characters, say)
    never yields a frame, however well formed it is: 31 such lines with
    their line feeds exceed the bound of line 57, so the buffer is emptied
    before a 32nd can join them, and the call ends with
    (None, None, None). *)
Theorem long_grid_lines_never_parsed ser r :
  Forall (fun raw => LF ∉ strip raw) (port ser) →
  Forall (fun raw => is_grid_line (strip raw) = true → 322 ≤ length (strip raw))
    (port ser) →
  parse_uart_data ser = Some r → r = Returned no_data.
Proof.
  intros Hport Hlong. unfold parse_uart_data.
  destruct (clock ser) as [|start nows]; [done|].
  by apply (loop_long_grid_lines start nows (port ser) initial []).
Qed.

Lemma long_grid_lines_never_parsed_witness :
  is_grid_line long_value_line = true
  ∧ parse_uart_data long_value_world = Some (Returned no_data).
Proof.
  split; [vm_compute; reflexivity|].
  assert (in_window (seconds 0) (seconds 11) = false) as Ht by reflexivity.
  destruct (parse_total long_value_world (seconds 0) (ticks 0 34 ++ [seconds 11]) 34 (seconds 11)
              eq_refl) as [v Hv]; [vm_compute; reflexivity|exact Ht|simpl; lia|].
  rewrite Hv. f_equal.
  apply (long_grid_lines_never_parsed long_value_world _); [..|exact Hv].
  - apply Forall_forall. intros raw Hraw.
    assert (forallb (fun raw => bool_decide (LF ∉ strip raw))
              (port long_value_world) = true) as H
      by (vm_compute; reflexivity).
    rewrite forallb_forall in H. apply list_elem_of_In, H in Hraw.
    by apply bool_decide_eq_true in Hraw.
  - apply Forall_forall. intros raw Hraw.
    assert (forallb (fun raw => negb (is_grid_line (strip raw))
                                || (322 <=? length (strip raw)))
              (port long_value_world) = true) as H
      by (vm_compute; reflexivity).
    rewrite forallb_forall in H. apply list_elem_of_In, H in Hraw.
    intros Hg. rewrite Hg in Hraw. by apply Nat.leb_le in Hraw.
Defined.

(** ** Frames and the boundary between them *)

Lemma search_whole_line r l m :
  match_at r None l = Some m → search r l = Some m.
Proof. unfold search. intros H. destruct l; cbn [search_from]; by rewrite H. Qed.

Lemma grid_lines_no_LF rows :
  Forall (fun l => is_grid_line l = true) rows → Forall (fun l => LF ∉ l) rows.
Proof.
  intros H. eapply Forall_impl; [exact H|]. intros l Hl%is_grid_line_spec.
  by apply grid_text_no_LF.
Qed.

Lemma search_none_grid_lines c s r' rows :
  c ≠ 45%N → c ≠ 46%N → c ≠ SPACE → isdecimal c = false →
  Forall (fun l => is_grid_line l = true) rows →
  Forall (fun l => search (Seq (Lit (c :: s)) r') l = None) rows.
Proof.
  intros ???? H. eapply Forall_impl; [exact H|]. intros l Hl%is_grid_line_spec.
  apply (search_lit_absent _ _ c); [left|].
  intros Hc. destruct (grid_text_chars l c Hl Hc) as [?|[?|[?|?]]]; congruence.
Qed.

(** The iteration that completes a buffer in which grid lines stand
    before the two scalar lines and after them, 32 in all. *)
Lemma body_frame_between st raw old dp h1 h2 da new :
  strip raw ≠ [] →
  buffer st ++ strip raw ++ [LF]
  = unlines (old ++ ptat_line dp h1 h2 :: avg_line da :: new) →
  decimal_text dp → hexdigit h1 = true → hexdigit h2 = true →
  decimal_text da →
  length old + length new = 32 →
  Forall (fun l => is_grid_line l = true) old →
  Forall (fun l => is_grid_line l = true) new →
  length (pixels st) = 32 →
  ∃ fp fa px,
    py_float dp = Some fp ∧ py_float da = Some fa
    ∧ grid_of (old ++ new) = Some px
    ∧ body st raw = Return (Some fp, Some fa, Some px).
Proof.
  intros Hne Hbuf Hdp Hh1 Hh2 Hda Hn Hold Hnew Hpx.
  destruct (decimal_text_float dp Hdp) as [fp Hfp].
  destruct (decimal_text_float da Hda) as [fa Hfa].
  exists fp, fa.
  unfold body. destruct (strip raw) as [|c l] eqn:E; [done|].
  rewrite Hbuf. set (st1 := Locals _ _ _ _).
  assert (118%N ∉ ptat_line dp h1 h2) as Hv.
  { apply not_in_ptat_line; try done. by apply (bool_decide_unpack _). }
  assert (findall grid_re (buffer st1) = old ++ new) as Hfind.
  { unfold st1, findall. cbn [buffer]. rewrite findall_grid_unlines; [|done|].
    - rewrite List.filter_app. cbn [List.filter].
      rewrite (not_grid_line_with 80%N) by (done || apply ptat_line_head).
      rewrite (not_grid_line_with 65%N) by (done || apply avg_line_head).
      by rewrite !filter_all.
    - apply Forall_app. split; [by apply grid_lines_no_LF|].
      by apply frame_lines_no_LF. }
  destruct (scan_returns st1 fp fa) as [px Hret].
  - unfold st1. cbn [buffer ptat].
    destruct (match_at_ptat_line None dp h1 h2 [] Hdp Hh1 Hh2) as (m & Hm & Hg).
    rewrite (right_id_L [] (++)) in Hm. apply search_whole_line in Hm.
    destruct (first_match_wins_lit 80%N (lit "TAT: ") _
                ptat_re_nl_free ptat_re_nonempty : first_match_wins ptat_re)
      as [Hfirst _].
    rewrite (Hfirst old _ _ m);
      [|by apply (search_none_grid_lines 80%N (lit "TAT: "))|exact Hm].
    unfold update_scalar. rewrite Hm. unfold float_group.
    by rewrite Hg, Hfp.
  - unfold st1. cbn [buffer avg_temp].
    destruct (match_at_avg_line None da [] Hda) as (m & Hm & Hg).
    rewrite (right_id_L [] (++)) in Hm. apply search_whole_line in Hm.
    rewrite (cons_middle (ptat_line dp h1 h2)), (assoc_L (++)).
    destruct (first_match_wins_lit 65%N (lit "vg Pixel Temp: ") _
                avg_re_nl_free avg_re_nonempty : first_match_wins avg_re)
      as [Hfirst _].
    rewrite (Hfirst (old ++ [_]) _ _ m); [| |exact Hm].
    + unfold update_scalar. rewrite Hm. unfold float_group.
      by rewrite Hg, Hfa.
    + apply Forall_app.
      split; [by apply (search_none_grid_lines 65%N (lit "vg Pixel Temp: "))|].
      constructor; [|done].
      apply (search_lit_absent _ _ 118%N); [by apply (bool_decide_unpack _)|done].
  - rewrite Hfind, length_app. lia.
  - exists px. split; [exact Hfp|]. split; [exact Hfa|]. split; [|exact Hret].
    apply scan_return_grid in Hret as (? & ? & px' & Heq & Hg & _); [|done].
    rewrite Hfind, take_ge in Hg by (rewrite length_app; lia). by simplify_eq.
Qed.

(** X5: grid lines are not tied to the scalar lines they were sent
    with.  When the stream starts in the middle of a frame, so that some
    grid lines of the frame before arrive ahead of the PTAT line and the
    average line, the call returns as soon as the buffer holds 32 grid
    lines: the returned array has the leftover lines as its first rows,
    followed by the first rows of the new frame, and what the stream
    holds after that plays no part. *)
Theorem rows_cross_frame_boundary start nows raws more old dp h1 h2 da new :
  strip <$> raws = old ++ ptat_line dp h1 h2 :: avg_line da :: new →
  length old + length new = 32 → 0 < length new →
  Forall (fun l => is_grid_line l = true) old →
  Forall (fun l => is_grid_line l = true) new →
  is_signed_decimal dp = true → hexdigit h1 = true → hexdigit h2 = true →
  is_signed_decimal da = true →
  34 ≤ length nows →
  Forall (fun t => in_window start t = true) (take 34 nows) →
  (len (unlines (take 33 (old ++ ptat_line dp h1 h2 :: avg_line da :: new)))
   ≤ 10000)%Z →
  ∃ fp fa px,
    py_float dp = Some fp ∧ py_float da = Some fa
    ∧ grid_of (old ++ new) = Some px
    ∧ parse_uart_data (World (start :: nows) (raws ++ more))
      = Some (Returned (Some fp, Some fa, Some px)).
Proof.
  intros Hraws Hn Hnew1 Hold Hnew Hdp%is_signed_decimal_spec Hh1 Hh2
    Hda%is_signed_decimal_spec Hnows Hwin Hlen.
  set (ls := old ++ ptat_line dp h1 h2 :: avg_line da :: new) in *.
  assert (length ls = 34) as Hls_len
    by (unfold ls; rewrite length_app; simpl; lia).
  assert (length raws = 34) as Hraws_len
    by (rewrite <- Hls_len, <- Hraws; by rewrite length_fmap).
  assert (Forall (fun l => LF ∉ l) ls) as Hnl.
  { apply Forall_app. split; [by apply grid_lines_no_LF|].
    by apply frame_lines_no_LF. }
  assert (∀ rows, Forall (fun l => is_grid_line l = true) rows →
                  Forall (fun l : list N => l ≠ []) rows) as Hgne.
  { intros rows H. eapply Forall_impl; [exact H|].
    intros l Hl%is_grid_line_spec. by apply grid_text_nonempty. }
  assert (Forall (fun l => l ≠ []) ls) as Hne.
  { apply Forall_app. split; [by apply Hgne|]. constructor; [|constructor].
    - intros E. apply (f_equal length) in E. unfold ptat_line in E.
      rewrite !length_app in E. simpl in E. lia.
    - intros E. apply (f_equal length) in E. unfold avg_line in E.
      rewrite !length_app in E. simpl in E. lia.
    - by apply Hgne. }
  assert (List.filter is_grid_line ls = old ++ new) as Hgrid.
  { unfold ls. rewrite List.filter_app. cbn [List.filter].
    rewrite (not_grid_line_with 80%N) by (done || apply ptat_line_head).
    rewrite (not_grid_line_with 65%N) by (done || apply avg_line_head).
    by rewrite !filter_all. }
  destruct (drop 33 raws) as [|raw [|]] eqn:Hd;
    [apply (f_equal length) in Hd; rewrite length_drop in Hd; simpl in Hd; lia
    | |apply (f_equal length) in Hd; rewrite length_drop in Hd; simpl in Hd; lia].
  assert (ls = take 33 ls ++ [strip raw]) as Hls.
  { rewrite <- (take_drop 33 ls) at 1. f_equal.
    by rewrite <- Hraws, <- fmap_drop, Hd. }
  assert (is_grid_line (strip raw) = true) as Hlast.
  { assert (strip raw ∈ new) as Hin.
    { assert (drop 33 ls = [strip raw]) as Hdl
        by (by rewrite <- Hraws, <- fmap_drop, Hd).
      unfold ls in Hdl.
      rewrite (cons_middle (ptat_line dp h1 h2)),
        (cons_middle (avg_line da)), !(assoc_L (++)) in Hdl.
      rewrite drop_app_ge in Hdl by (rewrite !length_app; simpl; lia).
      eapply subseteq_drop. rewrite Hdl. left. }
    rewrite Forall_forall in Hnew. by apply Hnew. }
  destruct (loop_feed start (take 33 ls) [] nows (take 33 raws)
              (drop 33 raws ++ more) initial)
    as (st' & Hb' & Hpx' & Hloop).
  - done.
  - by rewrite fmap_take, Hraws.
  - by apply Forall_take.
  - by apply Forall_take.
  - cbn [app]. apply (f_equal length) in Hgrid.
    rewrite Hls, List.filter_app, !length_app in Hgrid. cbn [List.filter] in Hgrid.
    rewrite Hlast in Hgrid. simpl in Hgrid. lia.
  - exact Hlen.
  - rewrite length_take. lia.
  - rewrite length_take, Hraws_len. simpl Nat.min.
    replace (take 33 nows) with (take 33 (take 34 nows))
      by (by rewrite take_take).
    by apply Forall_take.
  - destruct (body_frame_between st' raw old dp h1 h2 da new)
      as (fp & fa & px & Hfp & Hfa & Hpx & Hbody); try done.
    + rewrite Forall_forall in Hne. apply Hne. rewrite Hls.
      apply elem_of_app. right. left.
    + rewrite Hb'. change ([] ++ take 33 ls) with (take 33 ls).
      by rewrite <- unlines_snoc, <- Hls.
    + by rewrite Hpx'.
    + exists fp, fa, px. split; [done|]. split; [done|]. split; [done|].
      unfold parse_uart_data. cbn [clock port].
      rewrite Hd in Hloop.
      rewrite <- (take_drop 33 raws) at 1. rewrite Hd, <- (assoc_L (++)), Hloop.
      rewrite length_take, Hraws_len. simpl Nat.min.
      destruct (drop 33 nows) as [|now nows'] eqn:Hdn;
        [apply (f_equal length) in Hdn; rewrite length_drop in Hdn;
         simpl in Hdn; lia|].
      cbn [app loop].
      assert (in_window start now = true) as ->; [|by rewrite Hbody].
      rewrite Forall_forall in Hwin. apply Hwin.
      apply (list_elem_of_lookup_2 _ 33). rewrite lookup_take_lt by lia.
      rewrite <- (Nat.add_0_r 33), <- lookup_drop, Hdn. done.
Qed.

Lemma rows_cross_frame_boundary_witness :
  ∃ fp fa px,
    py_float (lit "25.3") = Some fp ∧ py_float (lit "24.8") = Some fa
    ∧ grid_of (replicate 2 ones_line ++ replicate 30 zeros_line) = Some px
    ∧ parse_uart_data
        (World (seconds 0 :: ticks 0 34)
           ((sent <$> mid_frame_lines) ++ replicate 2 (sent zeros_line)))
      = Some (Returned (Some fp, Some fa, Some px)).
Proof.
  apply (rows_cross_frame_boundary (seconds 0) (ticks 0 34) (sent <$> mid_frame_lines)
           (replicate 2 (sent zeros_line)) (replicate 2 ones_line)
           (lit "25.3") 49%N 70%N (lit "24.8") (replicate 30 zeros_line)).
  - vm_compute. reflexivity.
  - reflexivity.
  - simpl. lia.
  - repeat constructor.
  - repeat constructor.
  - reflexivity.
  - reflexivity.
  - reflexivity.
  - reflexivity.
  - vm_compute. lia.
  - apply in_window_forallb. vm_compute. reflexivity.
  - vm_compute. discriminate.
Defined.

(** ** The format of the scalar lines *)

(** X6: the pattern of line 32 matches at the start of a text, capturing
    [d], exactly when the text starts with [PTAT: d C, PEC: 0xhh] for a
    signed decimal [d] (an optional minus sign, digits, a point, digits)
    and two hexadecimal digits [hh] of either case; the PEC digits are
    not looked at any further.  Likewise the pattern of line 37 and
    [Avg Pixel Temp: d C]. *)
Theorem scalar_line_formats p s d :
  (match_at ptat_re p s ≫= grp = Some d ↔
   ∃ h1 h2 t, is_signed_decimal d = true ∧ hexdigit h1 = true
              ∧ hexdigit h2 = true ∧ s = ptat_line d h1 h2 ++ t)
  ∧ (match_at avg_re p s ≫= grp = Some d ↔
     ∃ t, is_signed_decimal d = true ∧ s = avg_line d ++ t).
Proof.
  split; split.
  - destruct (match_at ptat_re p s) as [m|] eqn:E; [|done]. cbn. intros Hg.
    apply match_at_elem, matches_spec in E as (w & [Hr _] & Hs).
    apply sem_ptat_re in Hs as (d' & h1 & h2 & Hd & Hh1 & Hh2 & -> & Hg').
    rewrite Hg in Hg'. injection Hg' as <-.
    exists h1, h2, (rest m). by rewrite is_signed_decimal_spec.
  - intros (h1 & h2 & t & Hd%is_signed_decimal_spec & Hh1 & Hh2 & ->).
    by destruct (match_at_ptat_line p d h1 h2 t Hd Hh1 Hh2) as (m & -> & Hg).
  - destruct (match_at avg_re p s) as [m|] eqn:E; [|done]. cbn. intros Hg.
    apply match_at_elem, matches_spec in E as (w & [Hr _] & Hs).
    apply sem_avg_re in Hs as (d' & Hd & -> & Hg').
    rewrite Hg in Hg'. injection Hg' as <-.
    exists (rest m). by rewrite is_signed_decimal_spec.
  - intros (t & Hd%is_signed_decimal_spec & ->).
    by destruct (match_at_avg_line p d t Hd) as (m & -> & Hg).
Qed.

(** ** Blank reads *)

Lemma loop_skip_blank start nows port st v :
  loop start nows port st = Some (Returned v) → v ≠ no_data →
  ∀ nows',
    Forall (fun t => in_window start t = true) nows' →
    length (List.filter (fun raw => negb (is_blank raw)) port) ≤ length nows' →
    loop start nows' (List.filter (fun raw => negb (is_blank raw)) port) st
    = Some (Returned v).
Proof.
  revert port st. induction nows as [|now nows IH]; intros port st; [done|].
  simpl. destruct (in_window _ _); [|by intros [= <-]].
  destruct port as [|raw port]; [done|].
  intros Hloop Hv nows' Hwin Hlen. cbn [List.filter] in Hlen |- *.
  unfold body in Hloop. destruct (strip raw) as [|c l] eqn:Hline.
  - assert (is_blank raw = true) as Hb
      by (unfold is_blank; by rewrite Hline).
    rewrite Hb in Hlen |- *. by apply IH.
  - assert (is_blank raw = false) as Hb
      by (unfold is_blank; by rewrite Hline).
    rewrite Hb in Hlen |- *. cbn [negb] in *.
    destruct nows' as [|now' nows']; [simpl in Hlen; lia|].
    inversion_clear Hwin as [|?? Hnow Hwin'].
    cbn [loop]. rewrite Hnow. unfold body. rewrite Hline.
    destruct (scan _) as [st'|v'|e]; [|done..].
    apply IH; [done..|]. cbn [length] in Hlen. lia.
Qed.

(** X7: reads that deliver nothing but whitespace (a [readline] that
    timed out, an empty line) are passed over without a trace: when a
    stream yields a frame, the stream without its blank reads yields the
    same frame, provided its lines too are read before the deadline. *)
Theorem blank_reads_skipped start nows port v nows' :
  parse_uart_data (World (start :: nows) port) = Some (Returned v) →
  v ≠ no_data →
  Forall (fun t => in_window start t = true) nows' →
  length (List.filter (fun raw => negb (is_blank raw)) port) ≤ length nows' →
  parse_uart_data
    (World (start :: nows') (List.filter (fun raw => negb (is_blank raw)) port))
  = Some (Returned v).
Proof. intros H Hv Hwin Hlen. by apply (loop_skip_blank start nows). Qed.

Lemma blank_world_frame :
  parse_uart_data blank_world = Some (Returned example_frame).
Proof. vm_compute. reflexivity. Qed.

Lemma blank_reads_skipped_witness :
  parse_uart_data
    (World (seconds 0 :: ticks 0 34)
       (List.filter (fun raw => negb (is_blank raw)) (port blank_world)))
  = Some (Returned example_frame).
Proof.
  apply (blank_reads_skipped (seconds 0) (ticks 0 40) (port blank_world) example_frame
           (ticks 0 34)).
  - exact blank_world_frame.
  - discriminate.
  - apply in_window_forallb. vm_compute. reflexivity.
  - vm_compute. lia.
Defined.

(* ================================================================= *)
(** * The caller *)

(** ** What a call leaves of the stream *)

(** The result is that of [parse_uart_data]. *)
Lemma loop_io_result start nows port st :
  fst <$> loop_io start nows port st = loop start nows port st.
Proof.
  revert port st. induction nows as [|now nows IH]; intros port st; [done|].
  simpl. destruct (in_window _ _); [|done]. destruct port as [|raw port]; [done|].
  destruct (body st raw); [apply IH|done..].
Qed.

Lemma parse_io_result ser :
  fst <$> parse_uart_data_io ser = parse_uart_data ser.
Proof.
  unfold parse_uart_data_io, parse_uart_data.
  destruct (clock ser); [done|]. apply loop_io_result.
Qed.

(** [loop_feed], with the rest of the world. *)
Lemma loop_io_feed start pending :
  ∀ pre nows raws more st,
    buffer st = unlines pre →
    strip <$> raws = pending →
    Forall (fun l => l ≠ []) pending →
    Forall (fun l => LF ∉ l) (pre ++ pending) →
    length (List.filter is_grid_line (pre ++ pending)) < 32 →
    (len (unlines (pre ++ pending)) ≤ 10000)%Z →
    length raws ≤ length nows →
    Forall (fun t => in_window start t = true) (take (length raws) nows) →
    ∃ st', buffer st' = unlines (pre ++ pending) ∧ pixels st' = pixels st
           ∧ loop_io start nows (raws ++ more) st
             = loop_io start (drop (length raws) nows) more st'.
Proof.
  induction pending as [|l pending IH];
    intros pre nows raws more st Hb Hraws Hne Hnl Hgrid Hlen Hnows Hwin.
  - destruct raws; [|done]. exists st. by rewrite (right_id_L [] (++)).
  - destruct raws as [|raw raws]; [done|]. injection Hraws as Hraw Hraws.
    destruct nows as [|now nows]; [simpl in Hnows; lia|].
    simpl in Hwin. inversion_clear Hwin as [|?? Hnow Hwin'].
    inversion_clear Hne as [|?? Hl Hne'].
    rewrite (cons_middle l pre pending), (assoc_L (++)) in Hnl, Hgrid, Hlen |- *.
    set (st1 := Locals (ptat st) (avg_temp st) (pixels st)
                  (buffer st ++ strip raw ++ [LF])).
    assert (buffer st1 = unlines (pre ++ [l])) as Hb1
      by (unfold st1; cbn [buffer]; by rewrite unlines_snoc, Hb, Hraw).
    assert (Forall (fun l => LF ∉ l) (pre ++ [l])) as Hnl1
      by by apply Forall_app in Hnl as [? _].
    destruct (scan_few_lines st1) as (p & a & Hscan).
    { rewrite Hb1. unfold findall. rewrite findall_grid_unlines by done.
      pose proof (filter_length_app is_grid_line (pre ++ [l]) pending). lia. }
    rewrite reset_if_large_small in Hscan.
    2: { cbn [buffer]. rewrite Hb1.
         pose proof (len_unlines_app (pre ++ [l]) pending). lia. }
    destruct (IH (pre ++ [l]) nows raws more
                (Locals p a (pixels st1) (buffer st1)))
      as (st' & Hb' & Hpx' & Hloop); try done; [simpl in Hnows; lia|].
    exists st'. split; [done|]. split; [done|].
    cbn [app loop_io length drop]. rewrite Hnow.
    unfold body. rewrite Hraw. destruct l as [|c l]; [done|].
    rewrite <- Hraw. fold st1. rewrite Hscan. exact Hloop.
Qed.

(** [rows_cross_frame_boundary], with the rest of the world. *)
Lemma frame_between_io start nows clock' raws more old dp h1 h2 da new :
  strip <$> raws = old ++ ptat_line dp h1 h2 :: avg_line da :: new →
  length old + length new = 32 → 0 < length new →
  Forall (fun l => is_grid_line l = true) old →
  Forall (fun l => is_grid_line l = true) new →
  is_signed_decimal dp = true → hexdigit h1 = true → hexdigit h2 = true →
  is_signed_decimal da = true →
  length nows = 34 →
  Forall (fun t => in_window start t = true) nows →
  (len (unlines (take 33 (old ++ ptat_line dp h1 h2 :: avg_line da :: new)))
   ≤ 10000)%Z →
  ∃ fp fa px,
    py_float dp = Some fp ∧ py_float da = Some fa
    ∧ grid_of (old ++ new) = Some px
    ∧ parse_uart_data_io (World (start :: nows ++ clock') (raws ++ more))
      = Some (Returned (Some fp, Some fa, Some px), World clock' more).
Proof.
  intros Hraws Hn Hnew1 Hold Hnew Hdp%is_signed_decimal_spec Hh1 Hh2
    Hda%is_signed_decimal_spec Hnows Hwin Hlen.
  set (ls := old ++ ptat_line dp h1 h2 :: avg_line da :: new) in *.
  assert (length ls = 34) as Hls_len
    by (unfold ls; rewrite length_app; simpl; lia).
  assert (length raws = 34) as Hraws_len
    by (rewrite <- Hls_len, <- Hraws; by rewrite length_fmap).
  assert (Forall (fun l => LF ∉ l) ls) as Hnl.
  { apply Forall_app. split; [by apply grid_lines_no_LF|].
    by apply frame_lines_no_LF. }
  assert (∀ rows, Forall (fun l => is_grid_line l = true) rows →
                  Forall (fun l : list N => l ≠ []) rows) as Hgne.
  { intros rows H. eapply Forall_impl; [exact H|].
    intros l Hl%is_grid_line_spec. by apply grid_text_nonempty. }
  assert (Forall (fun l => l ≠ []) ls) as Hne.
  { apply Forall_app. split; [by apply Hgne|]. constructor; [|constructor].
    - intros E. apply (f_equal length) in E. unfold ptat_line in E.
      rewrite !length_app in E. simpl in E. lia.
    - intros E. apply (f_equal length) in E. unfold avg_line in E.
      rewrite !length_app in E. simpl in E. lia.
    - by apply Hgne. }
  assert (List.filter is_grid_line ls = old ++ new) as Hgrid.
  { unfold ls. rewrite List.filter_app. cbn [List.filter].
    rewrite (not_grid_line_with 80%N) by (done || apply ptat_line_head).
    rewrite (not_grid_line_with 65%N) by (done || apply avg_line_head).
    by rewrite !filter_all. }
  destruct (drop 33 raws) as [|raw [|]] eqn:Hd;
    [apply (f_equal length) in Hd; rewrite length_drop in Hd; simpl in Hd; lia
    | |apply (f_equal length) in Hd; rewrite length_drop in Hd; simpl in Hd; lia].
  assert (ls = take 33 ls ++ [strip raw]) as Hls.
  { rewrite <- (take_drop 33 ls) at 1. f_equal.
    by rewrite <- Hraws, <- fmap_drop, Hd. }
  assert (is_grid_line (strip raw) = true) as Hlast.
  { assert (strip raw ∈ new) as Hin.
    { assert (drop 33 ls = [strip raw]) as Hdl
        by (by rewrite <- Hraws, <- fmap_drop, Hd).
      unfold ls in Hdl.
      rewrite (cons_middle (ptat_line dp h1 h2)),
        (cons_middle (avg_line da)), !(assoc_L (++)) in Hdl.
      rewrite drop_app_ge in Hdl by (rewrite !length_app; simpl; lia).
      eapply subseteq_drop. rewrite Hdl. left. }
    rewrite Forall_forall in Hnew. by apply Hnew. }
  destruct (loop_io_feed start (take 33 ls) [] (nows ++ clock') (take 33 raws)
              (drop 33 raws ++ more) initial)
    as (st' & Hb' & Hpx' & Hloop).
  - done.
  - by rewrite fmap_take, Hraws.
  - by apply Forall_take.
  - by apply Forall_take.
  - cbn [app]. apply (f_equal length) in Hgrid.
    rewrite Hls, List.filter_app, !length_app in Hgrid. cbn [List.filter] in Hgrid.
    rewrite Hlast in Hgrid. simpl in Hgrid. lia.
  - exact Hlen.
  - rewrite length_take, length_app. lia.
  - rewrite length_take, Hraws_len. simpl Nat.min.
    rewrite take_app_le by lia. by apply Forall_take.
  - destruct (body_frame_between st' raw old dp h1 h2 da new)
      as (fp & fa & px & Hfp & Hfa & Hpx & Hbody); try done.
    + rewrite Forall_forall in Hne. apply Hne. rewrite Hls.
      apply elem_of_app. right. left.
    + rewrite Hb'. change ([] ++ take 33 ls) with (take 33 ls).
      by rewrite <- unlines_snoc, <- Hls.
    + by rewrite Hpx'.
    + exists fp, fa, px. split; [done|]. split; [done|]. split; [done|].
      unfold parse_uart_data_io. cbn [clock port].
      rewrite Hd in Hloop.
      rewrite <- (take_drop 33 raws) at 1. rewrite Hd, <- (assoc_L (++)), Hloop.
      rewrite length_take, Hraws_len. simpl Nat.min.
      rewrite drop_app_le by lia.
      destruct (drop 33 nows) as [|now [|]] eqn:Hdn;
        [apply (f_equal length) in Hdn; rewrite length_drop in Hdn;
         simpl in Hdn; lia| |
         apply (f_equal length) in Hdn; rewrite length_drop in Hdn;
         simpl in Hdn; lia].
      cbn [app loop_io].
      assert (in_window start now = true) as ->; [|by rewrite Hbody].
      rewrite Forall_forall in Hwin. apply Hwin.
      apply (list_elem_of_lookup_2 _ 33).
      rewrite <- (Nat.add_0_r 33), <- lookup_drop, Hdn. done.
Qed.

Lemma frame_read_io start nows clock' raws more dp da rows :
  frame_reads raws dp da rows →
  length nows = 34 →
  Forall (fun t => in_window start t = true) nows →
  ∃ fp fa px,
    py_float dp = Some fp ∧ py_float da = Some fa ∧ grid_of rows = Some px
    ∧ parse_uart_data_io (World (start :: nows ++ clock') (raws ++ more))
      = Some (Returned (Some fp, Some fa, Some px), World clock' more).
Proof.
  intros (h1 & h2 & Hraws & Hdp & Hh1 & Hh2 & Hda & Hn & Hrows & Hlen) Hnows Hwin.
  apply (frame_between_io start nows clock' raws more [] dp h1 h2 da rows);
    try done; simpl; lia.
Qed.

(** X8: a call that finds a frame stops reading there.  On a stream that
    begins with the 34 lines of a well-formed frame, read within the
    window, the call returns the frame after 34 reads and 35 readings of
    the clock, and leaves everything behind them for the next call. *)
Theorem call_reads_one_frame start nows clock' raws more dp da rows :
  frame_reads raws dp da rows →
  length nows = 34 →
  Forall (fun t => in_window start t = true) nows →
  ∃ fp fa px,
    py_float dp = Some fp ∧ py_float da = Some fa ∧ grid_of rows = Some px
    ∧ parse_uart_data_io (World (start :: nows ++ clock') (raws ++ more))
      = Some (Returned (Some fp, Some fa, Some px), World clock' more).
Proof. apply frame_read_io. Qed.

Lemma example_frame_reads :
  frame_reads (sent <$> example_lines) (lit "25.3") (lit "24.8")
    (replicate 32 zeros_line).
Proof.
  exists 49%N, 70%N. split; [vm_compute; reflexivity|].
  split; [reflexivity|]. split; [reflexivity|]. split; [reflexivity|].
  split; [reflexivity|]. split; [reflexivity|].
  split; [repeat constructor|vm_compute; discriminate].
Qed.

Lemma call_reads_one_frame_witness :
  ∃ fp fa px,
    py_float (lit "25.3") = Some fp ∧ py_float (lit "24.8") = Some fa
    ∧ grid_of (replicate 32 zeros_line) = Some px
    ∧ parse_uart_data_io
        (World (seconds 0 :: ticks 0 34 ++ [seconds 20])
           ((sent <$> example_lines) ++ [sent zeros_line]))
      = Some (Returned (Some fp, Some fa, Some px),
              World [seconds 20] [sent zeros_line]).
Proof.
  apply (call_reads_one_frame (seconds 0) (ticks 0 34) [seconds 20] (sent <$> example_lines)
           [sent zeros_line] (lit "25.3") (lit "24.8")
           (replicate 32 zeros_line)).
  - exact example_frame_reads.
  - reflexivity.
  - apply in_window_forallb. vm_compute. reflexivity.
Defined.

(** ** The main loop *)

Lemma parse_io_cases ser r ser' :
  parse_uart_data_io ser = Some (r, ser') →
  r = Returned no_data ∨ ∃ p a px, r = Returned (Some p, Some a, Some px).
Proof.
  intros H. pose proof (parse_io_result ser) as Hr. rewrite H in Hr.
  simpl in Hr. symmetry in Hr. destruct r as [v|e].
  - apply returned_complete_or_nothing in Hr as [(p & a & px & ->)| ->].
    + right. by exists p, a, px.
    + by left.
  - by apply parse_result in Hr as [?|(? & ? & ? & _ & _ & ?)].
Qed.

(** [visualize_heatmap], for a frame whose title can be formatted, makes
    the calls of [calls_of] until one raises. *)
Lemma visualize_attempt np_min np_max raises ptat avg_temp t px fig im :
  title ptat avg_temp = inr t →
  visualize_heatmap np_min np_max raises ptat avg_temp px fig im
  = match attempt raises fig (calls_of np_min np_max t px fig im) with
    | (fig', None) => (fig', inr (default (length fig) im))
    | (fig', Some c) => (fig', inl (Within c))
    end.
Proof.
  intros Ht. unfold visualize_heatmap, mbind, display_bind, invoke, eval, mret,
    display_ret, calls_of.
  destruct im as [i|]; cbn [attempt default];
    repeat (try rewrite Ht;
            match goal with
            | |- context [raises ?f ?c] => destruct (raises f c)
            end; [reflexivity|]);
    reflexivity.
Qed.

Lemma attempt_spec raises cs :
  ∀ fig fig' o,
    attempt raises fig cs = (fig', o) →
    ∃ made,
      fig' = fig ++ made
      ∧ match o with
        | None => made = cs
        | Some c => raises fig' c = true ∧ ∃ rest, cs = made ++ c :: rest
        end.
Proof.
  induction cs as [|c cs IH]; intros fig fig' o; cbn [attempt].
  - intros [= <- <-]. exists []. by rewrite (right_id_L [] (++)).
  - destruct (raises fig c) eqn:E.
    + intros [= <- <-]. exists []. rewrite (right_id_L [] (++)).
      split; [done|]. split; [done|]. by exists cs.
    + intros (made & -> & Ho)%IH. exists (c :: made).
      split; [by rewrite <- (assoc_L (++))|].
      destruct o as [c'|]; [|by rewrite Ho].
      destruct Ho as (Hc & rest & ->). split; [done|]. by exists rest.
Qed.


(** A turn of the loop either finds no frame and leaves the figure
    alone, or sets out to display a complete frame and gets as far as the
    first call that raises. *)
Lemma main_iteration_cases np_min np_max raises ser fig im out :
  main_iteration np_min np_max raises ser fig im = Some out →
  (∃ ser', parse_uart_data_io ser = Some (Returned no_data, ser')
           ∧ out = (ser', fig, inr im))
  ∨ (∃ ser' p a px t fig' o,
       parse_uart_data_io ser = Some (Returned (Some p, Some a, Some px), ser')
       ∧ title (Some p) (Some a) = inr t
       ∧ attempt raises fig (calls_of np_min np_max t px fig im) = (fig', o)
       ∧ out = (ser', fig',
                match o with
                | None => inr (Some (default (length fig) im))
                | Some c => inl (Within c)
                end)).
Proof.
  unfold main_iteration.
  destruct (parse_uart_data_io ser) as [[r ser']|] eqn:E; [|done].
  destruct (parse_io_cases _ _ _ E) as [->|(p & a & px & ->)].
  - intros [= <-]. left. by exists ser'.
  - cbn [received format_scalar].
    assert (∃ t, title (Some p) (Some a) = inr t) as [t Ht]
      by (eexists; reflexivity).
    rewrite (visualize_attempt np_min np_max raises _ _ t px fig im Ht).
    destruct (attempt _ _ _) as [fig' o] eqn:Ha.
    intros H. right. exists ser', p, a, px, t, fig', o.
    split; [done|]. split; [done|]. split; [done|].
    destruct o; by injection H as <-.
Qed.

(** X9: formatting never fails in the main loop.  Line 94 tests
    [pixels] alone before lines 95 and 72 or 77 format [ptat] and
    [avg_temp] with [.1f], which raises [TypeError] on [None]; since
    [parse_uart_data] returns all three values or none of them, and lets
    no exception through, the scalars are numbers whenever they are
    formatted.  So a turn that ends with an exception ends with one that
    comes out of a call on the figure, which may raise at any time.  A
    turn that ends without one goes on with the image it had, if it had
    one, and a turn without a frame leaves the figure as it was and goes
    on. *)
Theorem turn_raises_only_within_calls np_min np_max raises ser fig im
    ser' fig' r :
  main_iteration np_min np_max raises ser fig im = Some (ser', fig', r) →
  (∀ e, r ≠ inl (Own e))
  ∧ (∀ c, r = inl (Within c) → raises fig' c = true)
  ∧ (∀ im', r = inr im' → is_Some im → im' = im)
  ∧ (parse_uart_data ser = Some (Returned no_data) → fig' = fig ∧ r = inr im).
Proof.
  intros [(ser1 & Hp & [= -> -> ->])
         |(ser1 & p & a & px & t & fig1 & o & Hp & Ht & Ha & [= -> -> ->])]
         %main_iteration_cases.
  - repeat split; try done. by intros im' [= ->].
  - apply attempt_spec in Ha as (made & -> & Ho).
    split; [by destruct o|]. split; [|split].
    + intros c Hc. destruct o as [c'|]; [|done]. injection Hc as ->.
      by destruct Ho.
    + intros im' Him [j ->]. destruct o; [done|]. by injection Him as <-.
    + rewrite <- parse_io_result, Hp. done.
Qed.

Lemma updates_calls_of np_min np_max t px fig i :
  Forall (updates i) (calls_of np_min np_max t px fig (Some i)).
Proof. by repeat constructor. Qed.

Lemma main_iteration_ok np_min np_max raises ser fig im ser' fig' r :
  figure_ok fig im →
  main_iteration np_min np_max raises ser fig im = Some (ser', fig', r) →
  figure_begun fig'
  ∧ match r with
    | inr im' => figure_ok fig' im'
    | inl (Within _) => True
    | inl (Own _) => False
    end.
Proof.
  intros Hok [(ser1 & Hp & [= -> -> ->])
             |(ser1 & p & a & px & t & fig1 & o & Hp & Ht & Ha & [= -> -> ->])]
             %main_iteration_cases.
  - split; [|done]. destruct im as [i|].
    + destruct Hok as (-> & px0 & rest & -> & Hrest). right. right.
      by exists px0, rest.
    + left. exact Hok.
  - apply attempt_spec in Ha as (made & -> & Ho).
    destruct im as [i|].
    + destruct Hok as (-> & px0 & rest & -> & Hrest).
      assert (Forall (updates 0) made) as Hmade.
      { pose proof (updates_calls_of np_min np_max t px
                      (Imshow px0 :: Colorbar 0 :: rest) 0) as Hall.
        destruct o as [c|]; [|by rewrite Ho].
        destruct Ho as (_ & rest' & Hcs). rewrite Hcs in Hall.
        by apply Forall_app in Hall as [? _]. }
      assert (figure_ok ((Imshow px0 :: Colorbar 0 :: rest) ++ made) (Some 0))
        as Hok'.
      { split; [done|]. exists px0, (rest ++ made). split; [done|].
        by apply Forall_app. }
      split; [|by destruct o].
      right. right. exists px0, (rest ++ made). split; [done|].
      by apply Forall_app.
    + simpl in Hok. subst fig. cbn [app calls_of length default] in *.
      destruct o as [c|].
      * destruct Ho as (_ & rest & Hcs). split; [|done].
        destruct made as [|m1 [|m2 made]].
        -- by left.
        -- injection Hcs as <- _. right. left. by exists px.
        -- injection Hcs as <- <- Hcs. right. right. exists px, made.
           split; [done|].
           assert (Forall (updates 0) (made ++ c :: rest)) as Hall
             by (rewrite <- Hcs; by repeat constructor).
           by apply Forall_app in Hall as [? _].
      * subst made.
        assert (figure_ok
                  [Imshow px; Colorbar 0; SetTitle t; SetXlabel (lit "Column");
                   SetYlabel (lit "Row"); Draw; FlushEvents] (Some 0)) as Hok'.
        { split; [done|]. eexists px, _. split; [reflexivity|].
          by repeat constructor. }
        split; [|exact Hok'].
        right. right. destruct Hok' as (_ & px' & rest & Heq & Hrest).
        by exists px', rest.
Qed.

Lemma main_loop_ok np_min np_max raises n ser fig im ser' fig' r :
  figure_ok fig im →
  main_loop np_min np_max raises n ser fig im = Some (ser', fig', r) →
  figure_begun fig'
  ∧ match r with
    | inr im' => figure_ok fig' im'
    | inl (Within _) => True
    | inl (Own _) => False
    end.
Proof.
  revert ser fig im. induction n as [|n IH]; intros ser fig im Hok.
  - intros [= <- <- <-]. split; [|done]. destruct im as [i|].
    + destruct Hok as (-> & px0 & rest & -> & Hrest). right. right.
      by exists px0, rest.
    + left. exact Hok.
  - cbn [main_loop].
    destruct (main_iteration np_min np_max raises ser fig im)
      as [[[ser1 fig1] r1]|] eqn:E; [|done].
    pose proof (main_iteration_ok _ _ _ _ _ _ _ _ _ Hok E) as [Hb Hr].
    destruct r1 as [e|im1]; [by intros [= <- <- <-]|].
    by apply IH.
Qed.

(** X10: however many turns the main loop takes from an empty figure,
    and whichever calls on the figure raise, at most one call of
    [imshow] and at most one of [colorbar] return, with the first frame
    that is displayed: every later frame goes into that image with
    [set_data] and [set_clim], and [imshow] and [colorbar] are not called
    again.  While the loop goes on, the image it holds is that one; and
    no exception comes from the parser or from formatting. *)
Theorem one_image_one_colorbar np_min np_max raises n ser ser' fig r :
  main_loop np_min np_max raises n ser [] None = Some (ser', fig, r) →
  figure_begun fig
  ∧ (∀ im, r = inr im → figure_ok fig im)
  ∧ (∀ e, r ≠ inl (Own e)).
Proof.
  intros H. apply main_loop_ok in H as [Hb Hr]; [|done].
  split; [done|]. split.
  - by intros im ->.
  - intros e ->. done.
Qed.

(** ** Frames on the wire and frames on the screen *)





(** The first turn on [two_frames_world] when [colorbar] raises: the
    figure is left with the image alone. *)
Lemma colorbar_raises_turn :
  ∃ px,
    main_iteration (fun _ => zero) (fun _ => zero) colorbar_raises
      two_frames_world [] None
    = Some (World (seconds 20 :: ticks 20 34 ++ [])
              ((sent <$> example_lines) ++ []),
            [Imshow px], inl (Within (Colorbar 0))).
Proof.
  destruct (frame_read_io (seconds 0) (ticks 0 34)
              (seconds 20 :: ticks 20 34 ++ [])
              (sent <$> example_lines) ((sent <$> example_lines) ++ [])
              (lit "25.3") (lit "24.8") (replicate 32 zeros_line)
              example_frame_reads eq_refl)
    as (fp & fa & px & _ & _ & _ & Hparse).
  { apply in_window_forallb. vm_compute. reflexivity. }
  exists px. unfold main_iteration, two_frames_world. rewrite Hparse.
  reflexivity.
Qed.

Lemma one_image_one_colorbar_witness :
  ∃ ser' fig r,
    main_loop (fun _ => zero) (fun _ => zero) colorbar_raises 2
      two_frames_world [] None
    = Some (ser', fig, r)
    ∧ figure_begun fig
    ∧ (∀ im, r = inr im → figure_ok fig im)
    ∧ (∀ e, r ≠ inl (Own e)).
Proof.
  destruct colorbar_raises_turn as [px Hturn].
  assert (main_loop (fun _ => zero) (fun _ => zero) colorbar_raises 2
            two_frames_world [] None
          = Some (World (seconds 20 :: ticks 20 34 ++ [])
                    ((sent <$> example_lines) ++ []),
                  [Imshow px], inl (Within (Colorbar 0)))) as Hloop
    by (cbn [main_loop]; by rewrite Hturn).
  eexists _, _, _. split; [exact Hloop|].
  exact (one_image_one_colorbar _ _ _ _ _ _ _ _ Hloop).
Defined.

Lemma turn_raises_only_within_calls_witness :
  ∃ ser' fig r,
    main_iteration (fun _ => zero) (fun _ => zero) colorbar_raises
      two_frames_world [] None
    = Some (ser', fig, r)
    ∧ (∀ e, r ≠ inl (Own e))
    ∧ (∀ c, r = inl (Within c) → colorbar_raises fig c = true)
    ∧ (∀ im', r = inr im' → is_Some (@None nat) → im' = None)
    ∧ (parse_uart_data two_frames_world = Some (Returned no_data)
       → fig = [] ∧ r = inr None).
Proof.
  destruct colorbar_raises_turn as [px Hturn].
  eexists _, _, _. split; [exact Hturn|].
  exact (turn_raises_only_within_calls _ _ _ _ _ _ _ _ _ Hturn).
Defined.

(* ================================================================= *)
(** * The values of a frame *)

Lemma string_to_double_decimal_value (neg : bool) ip fp :
  Forall (fun c => ascii_isdigit c = true) ip → ip ≠ [] →
  Forall (fun c => ascii_isdigit c = true) fp → fp ≠ [] →
  string_to_double ((if neg then [45%N] else []) ++ ip ++ 46%N :: fp)
  = Some (round_binary64 neg (digits_value (ip ++ fp))
            (10 ^ Z.of_nat (length fp))).
Proof.
  intros Hip Hne Hfp Hnf. destruct ip as [|d ip]; [done|].
  inversion Hip as [|?? Hd Hip']; subst.
  assert (sign_of ((if neg then [45%N] else []) ++ (d :: ip) ++ 46%N :: fp)
          = (neg, (d :: ip) ++ 46%N :: fp)) as Hs.
  { destruct neg; [done|]. by apply sign_of_digit. }
  unfold string_to_double. rewrite Hs.
  assert (48 ≤ d ≤ 57)%N as Hb by by apply ascii_isdigit_spec.
  rewrite !bool_decide_eq_false_2;
    [|simpl; rewrite (lower_digit d Hd); intros [= ? _]; lia..].
  simpl orb. cbv iota.
  pose proof (digits_app (d :: ip) 46%N fp Hip eq_refl) as E.
  rewrite E.
  rewrite N.eqb_refl, (digits_all fp Hfp).
  cbn [app exponent]. destruct fp as [|c fp]; [done|].
  destruct (Z.leb_spec 0 (0 - Z.of_nat (length (c :: fp)))) as [H|H];
    [simpl length in H; lia|].
  by replace (- (0 - Z.of_nat (length (c :: fp))))%Z
    with (Z.of_nat (length (c :: fp))) by lia.
Qed.

Lemma round_binary64_not_nan sign n d : round_binary64 sign n d ≠ S754_nan.
Proof.
  unfold round_binary64. destruct (n <=? 0)%Z; [done|].
  repeat match goal with
         | |- context [let '(_, _) := ?x in _] => destruct x
         | |- context [if ?b then _ else _] => destruct b
         end; done.
Qed.

(** The float of a signed decimal: the binary64 number nearest to the
    number its ASCII digits denote. *)
Lemma py_float_decimal d :
  decimal_text d →
  ∃ (neg : bool) ip fp,
    map to_ascii d = (if neg then [45%N] else []) ++ ip ++ 46%N :: fp
    ∧ Forall (fun c => ascii_isdigit c = true) ip ∧ ip ≠ []
    ∧ Forall (fun c => ascii_isdigit c = true) fp ∧ fp ≠ []
    ∧ py_float d = Some (round_binary64 neg (digits_value (ip ++ fp))
                           (10 ^ Z.of_nat (length fp))).
Proof.
  intros (sg & ip & fp & -> & Hsg & Hip & Hipd & Hfp & Hfpd).
  unfold py_float. set (neg := bool_decide (sg = [45%N])).
  assert (map to_ascii (sg ++ ip ++ 46%N :: fp)
          = (if neg then [45%N] else []) ++ map to_ascii ip
              ++ 46%N :: map to_ascii fp) as ->
    by (rewrite !map_app; by destruct Hsg as [->| ->]).
  assert (Forall (fun c => ascii_isdigit c = true) (map to_ascii ip)) as Hip'.
  { apply Forall_fmap. eapply Forall_impl; [exact Hipd|].
    intros c. apply to_ascii_decimal. }
  assert (Forall (fun c => ascii_isdigit c = true) (map to_ascii fp)) as Hfp'.
  { apply Forall_fmap. eapply Forall_impl; [exact Hfpd|].
    intros c. apply to_ascii_decimal. }
  exists neg, (map to_ascii ip), (map to_ascii fp).
  split; [done|]. split; [done|]. split; [by destruct ip|].
  split; [done|]. split; [by destruct fp|].
  set (a := (if neg then [45%N] else []) ++ map to_ascii ip ++ 46%N :: map to_ascii fp).
  assert (Forall (fun c => c = 45 ∨ c = 46 ∨ ascii_isdigit c = true)%N a) as Ha.
  { apply Forall_app. split; [destruct neg; repeat constructor|].
    apply Forall_app. split; [by eapply Forall_impl; [exact Hip'|]; auto|].
    constructor; [auto|]. eapply Forall_impl; [exact Hfp'|]; auto. }
  rewrite drop_underscores_id; [simpl| done |].
  - rewrite ascii_strip_id.
    + unfold a. apply string_to_double_decimal_value;
        [done|by destruct ip|done|by destruct fp].
    + eapply Forall_impl; [exact Ha|]. intros c [->|[->|Hc]]; [done..|].
      apply ascii_isdigit_spec in Hc. unfold ascii_isspace.
      apply not_true_iff_false. bool_to_prop. lia.
  - rewrite Forall_forall in Ha. intros Hc. apply Ha in Hc as [?|[?|Hc]]; done.
Qed.

(** The float of a signed decimal is a number. *)
Lemma decimal_text_not_nan d f :
  decimal_text d → py_float d = Some f → f ≠ S754_nan.
Proof.
  intros (neg & ip & fp & _ & _ & _ & _ & _ & ->)%py_float_decimal [= <-].
  apply round_binary64_not_nan.
Qed.

Lemma row_data_not_nan g rd :
  grid_text g → row_data_of g = Some rd → Forall (fun v => v ≠ S754_nan) rd.
Proof.
  intros [_ Hds]%split_grid_text Hrd%mapM_Some_1.
  induction Hrd as [|d f ds rd Hf _ IH]; [done|].
  inversion_clear Hds as [|?? Hd Hds']. constructor; [|by apply IH].
  by apply (decimal_text_not_nan d).
Qed.

Lemma update_scalar_not_nan r s old p :
  (∀ m, search r s = Some m → ∃ d, grp m = Some d ∧ decimal_text d) →
  (∀ q, old = Some q → q ≠ S754_nan) →
  update_scalar r s old = inr (Some p) → p ≠ S754_nan.
Proof.
  intros Hr Hold. unfold update_scalar.
  destruct (search r s) as [m|]; [|intros [= ->]; by apply Hold].
  destruct (Hr m eq_refl) as (d & Hg & Hd).
  destruct (float_group_decimal m d Hg Hd) as (f & -> & Hf).
  intros [= <-]. by apply (decimal_text_not_nan d).
Qed.

Lemma reachable_scalars_not_nan st :
  reachable st →
  (∀ q, ptat st = Some q → q ≠ S754_nan)
  ∧ (∀ q, avg_temp st = Some q → q ≠ S754_nan).
Proof.
  induction 1 as [|st raw st' _ [IHp IHa] Hb]; [done|].
  apply body_continue in Hb as [[_ ->]|[_ Hs]]; [done|].
  apply scan_continue in Hs as (Hp & Ha & _). cbn [buffer ptat avg_temp] in *.
  split; intros q Hq; rewrite Hq in *.
  - by apply (update_scalar_not_nan _ _ _ _ (search_ptat_group _) IHp Hp).
  - by apply (update_scalar_not_nan _ _ _ _ (search_avg_group _) IHa Ha).
Qed.

(** X12: every value of a returned frame is a number.  The patterns let
    through nothing but digits, a point and a minus sign, so that no text
    such as [nan] reaches [float]: neither scalar nor any element of the
    array is a NaN, which would spoil the [np.min] and [np.max] of line
    78. *)
Theorem frame_values_are_numbers ser p a px :
  parse_uart_data ser = Some (Returned (Some p, Some a, Some px)) →
  p ≠ S754_nan ∧ a ≠ S754_nan
  ∧ Forall (Forall (fun v => v ≠ S754_nan)) px.
Proof.
  intros [[=]|(st & raw & v & Hst & Hb & [= <-])]%parse_result.
  destruct (reachable_scalars_not_nan st Hst) as [Hp Ha].
  pose proof (reachable_shape st Hst) as [Hlen _].
  unfold body in Hb. destruct (strip raw) as [|c l]; [done|].
  set (st1 := Locals _ _ _ _) in Hb.
  pose proof Hb as (p' & a' & px' & Heq & Hup & Hua & _)%scan_return.
  injection Heq as -> -> ->.
  apply scan_return_grid in Hb as (? & ? & px'' & Heq & Hg & _); [|done].
  injection Heq as _ _ <-.
  split; [|split].
  - by apply (update_scalar_not_nan _ _ _ _ (search_ptat_group _) Hp Hup).
  - by apply (update_scalar_not_nan _ _ _ _ (search_avg_group _) Ha Hua).
  - unfold grid_of in Hg. apply mapM_Some_1 in Hg.
    assert (Forall grid_text (take 32 (findall grid_re (buffer st1)))) as Hgt
      by (apply Forall_take, Forall_forall; intros g; apply findall_grid_elem).
    induction Hg as [|g rd gs rs Hrd _ IH]; [done|].
    inversion_clear Hgt as [|?? Hg1 Hgt']. constructor; [|by apply IH].
    by apply (row_data_not_nan g).
Qed.

Lemma frame_values_are_numbers_witness :
  f25_3 ≠ S754_nan ∧ f24_8 ≠ S754_nan
  ∧ Forall (Forall (fun v => v ≠ S754_nan)) (zeros 32 32).
Proof. exact (frame_values_are_numbers _ _ _ _ example_world_frame). Defined.

(* ================================================================= *)
(** * What the title shows *)

(** ** Rounding to tenths *)

Lemma round_half_even_near (num den n : N) :
  (0 < den)%N →
  (2 * (Z.abs (Z.of_N num - Z.of_N n * Z.of_N den)) < Z.of_N den)%Z →
  round_half_even num den = n.
Proof.
  intros Hden Hnear. unfold round_half_even.
  pose proof (N.div_mod num den ltac:(lia)) as Hdm.
  pose proof (N.mod_lt num den ltac:(lia)) as Hlt.
  set (q := (num / den)%N) in *. set (r := (num mod den)%N) in *.
  destruct (Z.le_gt_cases (Z.of_N n * Z.of_N den) (Z.of_N num)) as [Hge|Hlt'].
  - assert (q = n) as -> by nia.
    destruct (N.compare_spec (2 * r) den) as [E|E|E]; [nia|done|nia].
  - assert (q + 1 = n)%N as <- by nia.
    destruct (N.compare_spec (2 * r) den) as [E|E|E]; [nia|nia|done].
Qed.

(** The nearest integer to [a / 10], as [round_binary64] computes it. *)
Lemma nearest_tenth (a : Z) :
  (50 ≤ a)%Z →
  let q' := (if (10 <? 2 * (a mod 10)) || ((10 =? 2 * (a mod 10)) && Z.odd (a / 10))
             then a / 10 + 1 else a / 10)%Z in
  (0 < q' ∧ Z.abs (10 * q' - a) ≤ 5)%Z.
Proof.
  intros Ha.
  pose proof (Z.div_mod a 10 ltac:(lia)) as Hdm.
  pose proof (Z.mod_pos_bound a 10 ltac:(lia)) as Hr.
  set (q := (a / 10)%Z) in *. set (r := (a mod 10)%Z) in *.
  destruct (Z.ltb_spec 10 (2 * r)); cbn [orb andb]; cbv zeta; [lia|].
  destruct (Z.eqb_spec 10 (2 * r)); cbn [orb andb]; [|lia].
  destruct (Z.odd q); lia.
Qed.

Lemma round_binary64_tenths neg n :
  (0 < n < 10 ^ 15)%Z →
  ∃ m p,
    round_binary64 neg n 10 = S754_finite neg m (Zneg p)
    ∧ (4 ≤ Zpos p)%Z
    ∧ (2 * Z.abs (10 * Zpos m - n * 2 ^ Zpos p) < 2 ^ Zpos p)%Z.
Proof.
  intros [Hn0 Hn]. unfold round_binary64.
  destruct (Z.leb_spec n 0); [lia|].
  change (Z.log2 10) with 3%Z.
  pose proof (Z.log2_nonneg n) as HL0.
  assert (Z.log2 n < 50)%Z as HL by (apply Z.log2_lt_pow2; lia).
  set (e1 := (Z.log2 n - 3 - 52)%Z).
  destruct (Z.leb_spec 0 e1) as [?|_]; [lia|].
  set (e2 := (if (n * 2 ^ (- e1) / 10 <? 2 ^ 52)%Z then (e1 - 1)%Z else e1)).
  assert (e1 - 1 ≤ e2 ≤ e1)%Z as He2 by (unfold e2; destruct (_ <? _)%Z; lia).
  rewrite (Z.max_l e2 (-1074)) by lia.
  destruct (Z.leb_spec 0 e2) as [?|_]; [lia|].
  set (k := (- e2)%Z). assert (6 ≤ k ≤ 56)%Z as Hk by lia.
  assert (2 ^ 6 ≤ 2 ^ k)%Z as Hpow by (apply Z.pow_le_mono_r; lia).
  destruct (nearest_tenth (n * 2 ^ k)) as [Hq0 Hq]; [nia|].
  set (q' := if ((10 <? 2 * ((n * 2 ^ k) mod 10))
                 || ((10 =? 2 * ((n * 2 ^ k) mod 10))
                     && Z.odd ((n * 2 ^ k) / 10)))%Z
             then ((n * 2 ^ k) / 10 + 1)%Z else ((n * 2 ^ k) / 10)%Z) in *.
  destruct (Z.eqb_spec q' (2 ^ 53)) as [E|E].
  - change (2 ^ 52 =? 0)%Z with false. cbv iota.
    destruct (Z.ltb_spec 971 (e2 + 1)); [lia|].
    destruct (e2 + 1)%Z as [|p|p] eqn:Ep; [lia..|].
    exists (Z.to_pos (2 ^ 52)), p. split; [done|].
    assert (Z.pos p = k - 1)%Z as -> by lia.
    assert (2 ^ k = 2 * 2 ^ (k - 1))%Z as Hk2
      by (rewrite <- Z.pow_succ_r by lia; f_equal; lia).
    split; [lia|]. rewrite Z2Pos.id by lia. nia.
  - destruct (Z.eqb_spec q' 0); [lia|].
    destruct (Z.ltb_spec 971 e2); [lia|].
    destruct e2 as [|p|p] eqn:Ep; [lia..|].
    exists (Z.to_pos q'), p. split; [done|].
    assert (Z.pos p = k)%Z as -> by lia.
    split; [lia|]. rewrite Z2Pos.id by lia. lia.
Qed.

(** ** Digits *)

Lemma digit_cases c :
  ascii_isdigit c = true →
  (c = 48 ∨ c = 49 ∨ c = 50 ∨ c = 51 ∨ c = 52 ∨ c = 53 ∨ c = 54 ∨ c = 55
   ∨ c = 56 ∨ c = 57)%N.
Proof. intros H%ascii_isdigit_spec. lia. Qed.

Ltac each_digit H :=
  apply digit_cases in H;
  repeat (destruct H as [H|H]); subst.

Lemma digit_uint_spec c d d' :
  ascii_isdigit c = true →
  uint_str (digit_uint c d) = c :: uint_str d
  ∧ Decimal.revapp (digit_uint c d) d' = Decimal.revapp d (digit_uint c d')
  ∧ DecimalPos.Unsigned.of_lu (digit_uint c d')
    = (c - 48 + 10 * DecimalPos.Unsigned.of_lu d')%N
  ∧ (c ≠ 48%N → Decimal.unorm (digit_uint c d) = digit_uint c d).
Proof. intros Hc. each_digit Hc; done. Qed.

Lemma uint_str_of_digits s :
  Forall (fun c => ascii_isdigit c = true) s → uint_str (uint_of_digits s) = s.
Proof.
  induction 1 as [|c s Hc _ IH]; [done|].
  cbn [uint_of_digits].
  destruct (digit_uint_spec c (uint_of_digits s) Decimal.Nil Hc) as [-> _].
  by rewrite IH.
Qed.

Lemma digits_value_snoc s c :
  digits_value (s ++ [c]) = (10 * digits_value s + (Z.of_N c - 48))%Z.
Proof. unfold digits_value. by rewrite fold_left_app. Qed.

Lemma of_lu_revapp_digits s d' :
  Forall (fun c => ascii_isdigit c = true) s →
  Z.of_N (DecimalPos.Unsigned.of_lu (Decimal.revapp (uint_of_digits s) d'))
  = fold_left (fun acc c => (10 * acc + (Z.of_N c - 48))%Z) s
      (Z.of_N (DecimalPos.Unsigned.of_lu d')).
Proof.
  intros Hs. revert d'. induction Hs as [|c s Hc _ IH]; intros d'; [done|].
  cbn [uint_of_digits fold_left].
  destruct (digit_uint_spec c (uint_of_digits s) d' Hc) as (_ & -> & E & _).
  rewrite IH, E. f_equal. apply ascii_isdigit_spec in Hc. lia.
Qed.

Lemma of_uint_digits s :
  Forall (fun c => ascii_isdigit c = true) s →
  Z.of_N (N.of_uint (uint_of_digits s)) = digits_value s.
Proof.
  intros Hs. unfold N.of_uint. rewrite DecimalPos.Unsigned.of_uint_alt.
  unfold Decimal.rev. by rewrite of_lu_revapp_digits.
Qed.

Lemma unorm_digits s :
  Forall (fun c => ascii_isdigit c = true) s → s ≠ [] →
  (list.head s = Some 48%N → s = [48%N]) →
  Decimal.unorm (uint_of_digits s) = uint_of_digits s.
Proof.
  intros Hs Hne Hz. destruct Hs as [|c s Hc Hs]; [done|].
  destruct (N.eq_dec c 48%N) as [->|Hc48].
  - by rewrite (Hz eq_refl).
  - cbn [uint_of_digits]. by apply (digit_uint_spec c _ Decimal.Nil Hc).
Qed.

(** The decimal notation of the number that digits denote is those
    digits. *)
Lemma decimal_str_digits s :
  Forall (fun c => ascii_isdigit c = true) s → s ≠ [] →
  (list.head s = Some 48%N → s = [48%N]) →
  decimal_str (Z.to_N (digits_value s)) = s.
Proof.
  intros Hs Hne Hz. unfold decimal_str.
  rewrite <- (of_uint_digits s Hs), N2Z.id, DecimalN.Unsigned.to_of.
  rewrite unorm_digits by done. by apply uint_str_of_digits.
Qed.

Lemma digits_value_bound s :
  Forall (fun c => ascii_isdigit c = true) s →
  (0 ≤ digits_value s < 10 ^ Z.of_nat (length s))%Z.
Proof.
  induction s as [|c s IH] using rev_ind; [done|].
  intros [Hs [Hc%ascii_isdigit_spec _]%Forall_cons]%Forall_app.
  rewrite digits_value_snoc, length_app, Nat2Z.inj_add, Z.pow_add_r by lia.
  specialize (IH Hs). change (10 ^ Z.of_nat (length [c]))%Z with 10%Z. lia.
Qed.

(** ** From the wire to the title *)

Lemma map_to_ascii_id s :
  Forall (fun c => (c < 127)%N) s → map to_ascii s = s.
Proof.
  induction 1 as [|c s Hc _ IH]; [done|]. cbn [map]. rewrite IH.
  unfold to_ascii. by destruct (N.ltb_spec c 127); [|lia].
Qed.

Lemma py_float_one_decimal (neg : bool) ip f :
  Forall (fun c => ascii_isdigit c = true) ip → ip ≠ [] →
  ascii_isdigit f = true →
  py_float ((if neg then [45%N] else []) ++ ip ++ [46%N; f])
  = Some (round_binary64 neg (digits_value (ip ++ [f])) 10).
Proof.
  intros Hip Hne Hf.
  set (a := (if neg then [45%N] else []) ++ ip ++ [46%N; f]).
  assert (Forall (fun c => c = 45 ∨ c = 46 ∨ ascii_isdigit c = true)%N a) as Ha.
  { apply Forall_app. split; [destruct neg; repeat constructor|].
    apply Forall_app. split; [by eapply Forall_impl; [exact Hip|]; auto|].
    constructor; [auto|]. constructor; [auto|]. constructor. }
  assert (∀ c, (c = 45 ∨ c = 46 ∨ ascii_isdigit c = true)%N →
               (c < 127)%N ∧ c ≠ 95%N ∧ ascii_isspace c = false) as Hchar.
  { intros c [->|[->|Hc%ascii_isdigit_spec]]; [done..|].
    split; [lia|]. split; [lia|]. unfold ascii_isspace.
    apply not_true_iff_false. bool_to_prop. lia. }
  unfold py_float. rewrite map_to_ascii_id.
  2: { eapply Forall_impl; [exact Ha|]. intros c Hc. by apply Hchar. }
  rewrite drop_underscores_id; [|done|].
  2: { rewrite Forall_forall in Ha. intros Hc%Ha. by apply Hchar in Hc as (_ & ? & _). }
  cbn [mbind option_bind]. rewrite ascii_strip_id.
  2: { eapply Forall_impl; [exact Ha|]. intros c Hc. by apply Hchar. }
  unfold a. rewrite (string_to_double_decimal_value neg ip [f]); try done.
  by repeat constructor.
Qed.

Lemma format_1f_tenths neg n :
  (0 < n < 10 ^ 15)%Z →
  format_1f (round_binary64 neg n 10)
  = (if neg then lit "-" else []) ++ decimal_str (Z.to_N n / 10)
      ++ lit "." ++ decimal_str (Z.to_N n mod 10).
Proof.
  intros Hn. destruct (round_binary64_tenths neg n Hn) as (m & p & -> & Hp & Hnear).
  cbn [format_1f]. rewrite (round_half_even_near _ _ (Z.to_N n)); [done| |].
  - apply N.neq_0_lt_0, N.pow_nonzero. lia.
  - rewrite N2Z.inj_mul, N2Z.inj_pow, Z2N.id by lia.
    change (Z.of_N 10) with 10%Z. change (Z.of_N 2) with 2%Z.
    by rewrite !N2Z.inj_pos.
Qed.

Lemma decimal_str_digit f :
  ascii_isdigit f = true → decimal_str (f - 48) = [f].
Proof. intros Hf. each_digit Hf; done. Qed.

(** X13: a reading is shown as it was sent.  For scalars sent with one
    digit after the point (at most fourteen digits before it, no
    superfluous zero in front), converting the text with [float] and
    formatting the float with [.1f] gives the text back, so the title of
    lines 72 and 77 shows both readings digit for digit as the sensor
    sent them. *)
Theorem title_shows_what_was_sent dp da :
  one_decimal dp → one_decimal da →
  title (py_float dp) (py_float da)
  = inr (lit "Thermal Heatmap" ++ [LF] ++ lit "PTAT: " ++ dp ++ [DEGREE]
           ++ lit "C | Avg: " ++ da ++ [DEGREE] ++ lit "C").
Proof.
  assert (∀ d, one_decimal d → ∃ x, py_float d = Some x ∧ format_1f x = d)
    as Hround.
  { intros d (neg & ip & f & -> & Hip & Hne & Hlen & Hz & Hf).
    eexists. split; [by apply py_float_one_decimal|].
    pose proof (digits_value_bound ip Hip) as Hv.
    pose proof Hf as Hf'%ascii_isdigit_spec.
    rewrite digits_value_snoc.
    set (v := digits_value ip) in *.
    destruct (Z.eq_dec (10 * v + (Z.of_N f - 48))%Z 0%Z) as [E|E].
    - rewrite E. assert (v = 0%Z) as Hv0 by lia. assert (f = 48%N) as -> by lia.
      pose proof (decimal_str_digits ip Hip Hne Hz) as Hs. fold v in Hs.
      rewrite Hv0 in Hs. rewrite <- Hs. by destruct neg.
    - assert (10 ^ Z.of_nat (length ip) ≤ 10 ^ 14)%Z
        by (apply Z.pow_le_mono_r; lia).
      rewrite format_1f_tenths by lia.
      assert (Z.to_N (10 * v + (Z.of_N f - 48)) = 10 * Z.to_N v + (f - 48))%N
        as -> by lia.
      assert ((10 * Z.to_N v + (f - 48)) / 10 = Z.to_N v)%N as ->
        by (symmetry; apply (N.div_unique _ _ _ (f - 48)); lia).
      assert ((10 * Z.to_N v + (f - 48)) mod 10 = f - 48)%N as ->
        by (symmetry; apply (N.mod_unique _ _ (Z.to_N v)); lia).
      unfold v.
      by rewrite (decimal_str_digits ip Hip Hne Hz), (decimal_str_digit f Hf). }
  intros (xp & -> & Hp)%Hround (xa & -> & Ha)%Hround.
  unfold title. cbn [format_scalar]. by rewrite Hp, Ha.
Qed.

Lemma title_shows_what_was_sent_witness :
  title (py_float (lit "25.3")) (py_float (lit "-4.0"))
  = inr (lit "Thermal Heatmap" ++ [LF] ++ lit "PTAT: " ++ lit "25.3" ++ [DEGREE]
           ++ lit "C | Avg: " ++ lit "-4.0" ++ [DEGREE] ++ lit "C").
Proof.
  apply title_shows_what_was_sent.
  - exists false, (lit "25"), 51%N. split; [reflexivity|].
    split; [by repeat constructor|]. split; [done|]. split; [simpl; lia|].
    split; [done|reflexivity].
  - exists true, (lit "4"), 48%N. split; [reflexivity|].
    split; [by repeat constructor|]. split; [done|]. split; [simpl; lia|].
    split; [done|reflexivity].
Defined.

(* ================================================================= *)
(** * Bytes that are no text *)

Lemma continuation_no_lead b : continuation b = true → (b < 194)%N.
Proof. unfold continuation. bool_to_prop. lia. Qed.

Lemma decode_ignore_dropped x bs :
  (128 ≤ Byte.to_N x)%N → no_lead x →
  decode_ignore (x :: bs) = decode_ignore bs.
Proof.
  intros Hx Hl. unfold no_lead in Hl. cbn [decode_ignore].
  destruct (N.ltb_spec (Byte.to_N x) 128) as [?|_]; [lia|].
  assert (∀ b1, two_bytes (Byte.to_N x) b1 = false) as H2.
  { intros b1. unfold two_bytes. apply not_true_iff_false. repeat bool_to_prop. lia. }
  assert (∀ b1 b2, three_bytes (Byte.to_N x) b1 b2 = false) as H3.
  { intros b1 b2. unfold three_bytes. apply not_true_iff_false. repeat bool_to_prop.
    lia. }
  assert (∀ b1 b2 b3, four_bytes (Byte.to_N x) b1 b2 b3 = false) as H4.
  { intros b1 b2 b3. unfold four_bytes. apply not_true_iff_false. repeat bool_to_prop.
    lia. }
  destruct bs as [|x1 [|x2 [|x3 bs]]]; rewrite ?H2, ?H3, ?H4; done.
Qed.

Lemma decode_ignore_no_lead bs :
  Forall no_lead bs →
  decode_ignore bs = Byte.to_N <$> List.filter is_ascii bs.
Proof.
  induction 1 as [|x bs Hx _ IH]; [done|].
  cbn [List.filter]. unfold is_ascii at 1.
  destruct (N.ltb_spec (Byte.to_N x) 128) as [Hlt|Hge].
  - cbn [decode_ignore fmap list_fmap].
    destruct (N.ltb_spec (Byte.to_N x) 128) as [_|?]; [|lia]. by rewrite IH.
  - by rewrite decode_ignore_dropped.
Qed.

Lemma filter_ascii_no_lead bs : Forall no_lead (List.filter is_ascii bs).
Proof.
  apply Forall_forall. intros x [_ Hx]%list_elem_of_In%filter_In.
  unfold is_ascii in Hx. apply N.ltb_lt in Hx. left. lia.
Qed.

Lemma filter_idemp {A} (f : A → bool) l :
  List.filter f (List.filter f l) = List.filter f l.
Proof.
  induction l as [|x l IH]; [done|]. simpl.
  destruct (f x) eqn:E; simpl; by rewrite ?E, IH.
Qed.

(** X14: bytes that are no text are dropped.  A byte that can begin no
    UTF-8 character of more than one byte (80 to C1 and F5 to FF: the FF
    of an idle or glitching line, say) never reaches the buffer, wherever
    it stands among ASCII text; so on a stream of ASCII text with such
    bytes strewn in, the call returns what it returns on the stream
    without them. *)
Theorem stray_bytes_ignored clock reads :
  Forall (Forall no_lead) reads →
  decode_ignore <$> reads
  = (fun bs => Byte.to_N <$> List.filter is_ascii bs) <$> reads
  ∧ parse_uart_data_bytes clock reads
    = parse_uart_data_bytes clock (List.filter is_ascii <$> reads).
Proof.
  intros H.
  assert (decode_ignore <$> reads
          = decode_ignore <$> (List.filter is_ascii <$> reads)) as E.
  { induction H as [|bs reads Hbs _ IH]; [done|]. cbn [fmap list_fmap].
    f_equal; [|exact IH].
    rewrite (decode_ignore_no_lead bs Hbs).
    rewrite (decode_ignore_no_lead _ (filter_ascii_no_lead bs)).
    by rewrite filter_idemp. }
  split.
  - induction H as [|bs reads Hbs _ IH]; [done|]. cbn [fmap list_fmap].
    f_equal; [by apply decode_ignore_no_lead|]. apply IH.
    cbn [fmap list_fmap] in E. by injection E.
  - unfold parse_uart_data_bytes. by rewrite E.
Qed.

Lemma stray_bytes_ignored_witness :
  decode_ignore <$> [xff :: bytes "PTAT: 25.3 C, " ++ x80 :: bytes "PEC: 0x1F"]
  = [lit "PTAT: 25.3 C, PEC: 0x1F"]
  ∧ parse_uart_data_bytes (seconds <$> [0; 1; 11]%Q)
      [xff :: bytes "PTAT: 25.3 C, " ++ x80 :: bytes "PEC: 0x1F"]
    = parse_uart_data_bytes (seconds <$> [0; 1; 11]%Q) [bytes "PTAT: 25.3 C, PEC: 0x1F"].
Proof.
  apply (stray_bytes_ignored (seconds <$> [0; 1; 11]%Q)
           [xff :: bytes "PTAT: 25.3 C, " ++ x80 :: bytes "PEC: 0x1F"]).
  constructor; [|constructor].
  apply Forall_forall. intros x Hx.
  assert (forallb (fun x => (Byte.to_N x <? 194)%N || (244 <? Byte.to_N x)%N)
            (xff :: bytes "PTAT: 25.3 C, " ++ x80 :: bytes "PEC: 0x1F") = true)
    as H by (vm_compute; reflexivity).
  rewrite forallb_forall in H. apply list_elem_of_In, H in Hx.
  unfold no_lead. revert Hx. bool_to_prop. lia.
Defined.

(* ================================================================= *)
(** * Scalar lines among other text *)

Lemma search_skip c l r' junk s p :
  c ∉ junk →
  ∃ q, search_from (Seq (Lit (c :: l)) r') p (junk ++ s)
       = search_from (Seq (Lit (c :: l)) r') q s.
Proof.
  revert p. induction junk as [|x junk IH]; intros p Hc; [by exists p|].
  apply not_elem_of_cons in Hc as [Hx Hc].
  destruct (IH (Some x) Hc) as [q Hq]. exists q. rewrite <- Hq.
  cbn [app search_from]. unfold match_at. cbn [matches lit_match rest].
  by destruct (N.eqb_spec x c) as [->|_].
Qed.

Lemma search_match_at r p s m :
  match_at r p s = Some m → search_from r p s = Some m.
Proof. intros H. destruct s; cbn [search_from]; by rewrite H. Qed.

(** X15: the scalar patterns are searched for, not matched against whole
    lines.  A PTAT reading is found wherever it stands in the buffer:
    text before it (with no capital P or A in it) and any text after it,
    also on the same line, are passed over, and the value read is that of
    the decimal between [PTAT: ] and [ C, PEC: 0x]; likewise for the
    average.  A partly garbled scalar line is therefore still read, where
    a grid line has to match as a whole. *)
Theorem scalars_found_among_other_text junk d h1 h2 t old :
  is_signed_decimal d = true → hexdigit h1 = true → hexdigit h2 = true →
  80%N ∉ junk → 65%N ∉ junk →
  ∃ f, py_float d = Some f
       ∧ update_scalar ptat_re (junk ++ ptat_line d h1 h2 ++ t) old
         = inr (Some f)
       ∧ update_scalar avg_re (junk ++ avg_line d ++ t) old = inr (Some f).
Proof.
  intros Hd%is_signed_decimal_spec Hh1 Hh2 HP HA.
  destruct (decimal_text_float d Hd) as [f Hf]. exists f. split; [done|].
  split.
  - unfold update_scalar, search.
    destruct (search_skip 80%N (lit "TAT: ")
                (Seq (Group decimal_re)
                   (Seq (Lit (lit " C, PEC: 0x")) (Rep 2 (Class hexdigit))))
                junk (ptat_line d h1 h2 ++ t) None HP) as [q Hq].
    change (Seq (Lit (80%N :: lit "TAT: ")) _) with ptat_re in Hq. rewrite Hq.
    destruct (match_at_ptat_line q d h1 h2 t Hd Hh1 Hh2) as (m & Hm & Hg).
    rewrite (search_match_at _ _ _ _ Hm). unfold float_group.
    by rewrite Hg, Hf.
  - unfold update_scalar, search.
    destruct (search_skip 65%N (lit "vg Pixel Temp: ")
                (Seq (Group decimal_re) (Lit (lit " C")))
                junk (avg_line d ++ t) None HA) as [q Hq].
    change (Seq (Lit (65%N :: lit "vg Pixel Temp: ")) _) with avg_re in Hq.
    rewrite Hq.
    destruct (match_at_avg_line q d t Hd) as (m & Hm & Hg).
    rewrite (search_match_at _ _ _ _ Hm). unfold float_group.
    by rewrite Hg, Hf.
Qed.

Lemma scalars_found_among_other_text_witness :
  ∃ f, py_float (lit "25.3") = Some f
       ∧ update_scalar ptat_re
           (lit "0.0 0.#" ++ ptat_line (lit "25.3") 49 70 ++ lit "3.5;") None
         = inr (Some f)
       ∧ update_scalar avg_re
           (lit "0.0 0.#" ++ avg_line (lit "25.3") ++ lit "3.5;") None
         = inr (Some f).
Proof.
  apply (scalars_found_among_other_text (lit "0.0 0.#") (lit "25.3") 49%N 70%N
           (lit "3.5;") None); [reflexivity..| |];
    by apply (bool_decide_unpack _).
Defined.

(* ================================================================= *)
(** * The runtime model of the display and of the port on sample inputs *)

(** [f'{float(s):.1f}'] *)
Example format_sample :
  (fun s => format_1f <$> py_float (lit s))
    <$> ["0.25"; "0.35"; "2.5"; "-0.04"; "99.95"; "1e23"; "nan"; "-1e400"]%string
  = (fun s => Some (lit s))
      <$> ["0.2"; "0.3"; "2.5"; "-0.0"; "100.0"; "99999999999999991611392.0";
           "nan"; "-inf"]%string.
Proof. vm_compute. reflexivity. Qed.

(** [bytes.decode('utf-8', errors='ignore')]: a euro sign among ASCII
    letters and a stray FF; a sequence cut short; an overlong form; a
    surrogate; a character of four bytes; a sequence beyond U+10FFFF;
    a lead byte with no continuation. *)
Example decode_sample :
  decode_ignore
    <$> [[x41; xe2; x82; xac; xff; x42]; [x41; xe2; x82]; [xc0; x80; x41];
         [xed; xa0; x80]; [xf0; x9f; x98; x80]; [xf4; x90; x80; x80; x31];
         [xc3; xa9; xc3; x31]]
  = [[65; 8364; 66]; [65]; [65]; []; [128512]; [49]; [233; 49]]%N.
Proof. vm_compute. reflexivity. Qed.

(* ================================================================= *)
(** * A stream out of step *)

(** X16: a stream that is out of step stays out of step.  When a call
    starts [k] grid lines before the scalar lines of the next frame
    ([k] below 32), it returns after the first [32 - k] grid lines of
    that frame and leaves its last [k] grid lines in the port: the next
    call again finds [k] leftover lines before the scalar lines that
    follow, and so does every call after it.  Each array returned is made
    of the end of one frame and the beginning of the next. *)
Theorem shift_is_kept start nows clock' raws_old raw_p raw_a raws_rows more
    k old rows dp h1 h2 da :
  strip <$> raws_old = old → strip raw_p = ptat_line dp h1 h2 →
  strip raw_a = avg_line da → strip <$> raws_rows = rows →
  length old = k → k < 32 → length rows = 32 →
  Forall (fun l => is_grid_line l = true) old →
  Forall (fun l => is_grid_line l = true) rows →
  is_signed_decimal dp = true → hexdigit h1 = true → hexdigit h2 = true →
  is_signed_decimal da = true →
  length nows = 34 →
  Forall (fun t => in_window start t = true) nows →
  (len (unlines (take 33 (old ++ ptat_line dp h1 h2 :: avg_line da
                            :: take (32 - k) rows)))
   ≤ 10000)%Z →
  ∃ fp fa px,
    py_float dp = Some fp ∧ py_float da = Some fa
    ∧ grid_of (old ++ take (32 - k) rows) = Some px
    ∧ parse_uart_data_io
        (World (start :: nows ++ clock')
           (raws_old ++ raw_p :: raw_a :: raws_rows ++ more))
      = Some (Returned (Some fp, Some fa, Some px),
              World clock' (drop (32 - k) raws_rows ++ more))
    ∧ length (drop (32 - k) raws_rows) = k.
Proof.
  intros Hold Hp Ha Hrr <- Hk Hrows Hgo Hgr Hdp Hh1 Hh2 Hda Hnows Hwin Hlen.
  assert (length raws_rows = 32) as Hrr'
    by (rewrite <- Hrr in Hrows; by rewrite length_fmap in Hrows).
  destruct (frame_between_io start nows clock'
              (raws_old ++ raw_p :: raw_a :: take (32 - length old) raws_rows)
              (drop (32 - length old) raws_rows ++ more)
              old dp h1 h2 da (take (32 - length old) rows))
    as (fp & fa & px & Hfp & Hfa & Hpx & Hparse); try done.
  - rewrite fmap_app. cbn [fmap list_fmap].
    by rewrite Hold, Hp, Ha, fmap_take, Hrr.
  - rewrite length_take. lia.
  - rewrite length_take. lia.
  - by apply Forall_take.
  - exists fp, fa, px. split; [done|]. split; [done|]. split; [done|].
    split; [|rewrite length_drop; lia].
    rewrite <- Hparse. do 2 f_equal.
    rewrite <- !(assoc_L (++)). cbn [app]. do 3 f_equal.
    by rewrite (assoc_L (++)), take_drop.
Qed.

Lemma shift_is_kept_witness :
  ∃ fp fa px,
    py_float (lit "25.3") = Some fp ∧ py_float (lit "24.8") = Some fa
    ∧ grid_of (replicate 2 ones_line ++ take (32 - 2) (replicate 32 zeros_line))
      = Some px
    ∧ parse_uart_data_io
        (World (seconds 0 :: ticks 0 34 ++ [seconds 20])
           ((sent <$> replicate 2 ones_line)
              ++ sent (lit "PTAT: 25.3 C, PEC: 0x1F")
              :: sent (lit "Avg Pixel Temp: 24.8 C")
              :: (sent <$> replicate 32 zeros_line) ++ []))
      = Some (Returned (Some fp, Some fa, Some px),
              World [seconds 20]
                (drop (32 - 2) (sent <$> replicate 32 zeros_line) ++ []))
    ∧ length (drop (32 - 2) (sent <$> replicate 32 zeros_line)) = 2.
Proof.
  apply (shift_is_kept (seconds 0) (ticks 0 34) [seconds 20] (sent <$> replicate 2 ones_line)
           (sent (lit "PTAT: 25.3 C, PEC: 0x1F"))
           (sent (lit "Avg Pixel Temp: 24.8 C"))
           (sent <$> replicate 32 zeros_line) [] 2 (replicate 2 ones_line)
           (replicate 32 zeros_line) (lit "25.3") 49%N 70%N (lit "24.8")).
  - vm_compute. reflexivity.
  - vm_compute. reflexivity.
  - vm_compute. reflexivity.
  - vm_compute. reflexivity.
  - reflexivity.
  - lia.
  - reflexivity.
  - repeat constructor.
  - repeat constructor.
  - reflexivity.
  - reflexivity.
  - reflexivity.
  - reflexivity.
  - reflexivity.
  - apply in_window_forallb. vm_compute. reflexivity.
  - vm_compute. discriminate.
Defined.

(* ================================================================= *)
(** * A buffer that contains a frame *)

Lemma lines_read_blank raw raws :
  strip raw = [] → lines_read (raw :: raws) = lines_read raws.
Proof. intros H. unfold lines_read. cbn [omap list_omap]. unfold appended. by rewrite H. Qed.

Lemma lines_read_line raw raws :
  strip raw ≠ [] → lines_read (raw :: raws) = strip raw :: lines_read raws.
Proof.
  intros H. unfold lines_read. cbn [omap list_omap]. unfold appended.
  by destruct (strip raw).
Qed.

Lemma search_prefix_none r ls x :
  nl_free r → (∀ q, match_at r q [] = None) →
  search r (unlines ls ++ x) = None → search r (unlines ls) = None.
Proof.
  intros Hr Hne Hx. destruct (search r (unlines ls)) as [m|] eqn:E; [|done].
  pose proof (search_from_stable r None ls x Hr Hne) as H. unfold search in *.
  rewrite E, Hx in H. by specialize (H (mk_is_Some _ _ eq_refl)).
Qed.

(** An iteration goes on when a scalar is still missing or the buffer
    holds fewer than 32 grid lines. *)
Lemma scan_incomplete st :
  (search ptat_re (buffer st) = None ∧ ptat st = None)
  ∨ (search avg_re (buffer st) = None ∧ avg_temp st = None)
  ∨ length (findall grid_re (buffer st)) < 32 →
  ∃ p a,
    scan st = Continue (reset_if_large (Locals p a (pixels st) (buffer st)))
    ∧ (search ptat_re (buffer st) = None → p = ptat st)
    ∧ (search avg_re (buffer st) = None → a = avg_temp st).
Proof.
  intros H. destruct (scan_unfold st) as (p & a & Hp & Ha & _ & _ & ->).
  exists p, a. split; [|split].
  - destruct H as [[Hs Hn]|[[Hs Hn]|Hlen]].
    + unfold update_scalar in Hp. rewrite Hs, Hn in Hp. injection Hp as <-.
      by rewrite andb_false_r.
    + unfold update_scalar in Ha. rewrite Hs, Hn in Ha. by injection Ha as <-.
    + apply Nat.leb_gt in Hlen. rewrite Hlen. by destruct (_ && _).
  - intros Hs. unfold update_scalar in Hp. rewrite Hs in Hp. by injection Hp.
  - intros Hs. unfold update_scalar in Ha. rewrite Hs in Ha. by injection Ha.
Qed.

Lemma update_scalar_found r b old f :
  update_scalar r b old = inr (Some f) → search r b = None → old = Some f.
Proof. unfold update_scalar. intros H Hs. rewrite Hs in H. by injection H. Qed.

Lemma take_filter_app {A} (f : A → bool) n l1 l2 :
  n ≤ length (List.filter f l1) →
  take n (List.filter f (l1 ++ l2)) = take n (List.filter f l1).
Proof. intros H. rewrite List.filter_app. by apply take_app_le. Qed.

(** The iteration that completes the buffer returns the frame. *)
Lemma scan_complete st ls more fp fa px :
  buffer st = unlines ls → Forall (fun l => LF ∉ l) ls →
  length (pixels st) = 32 →
  is_Some (search ptat_re (unlines ls)) → is_Some (search avg_re (unlines ls)) →
  32 ≤ length (List.filter is_grid_line ls) →
  update_scalar ptat_re (unlines (ls ++ more)) None = inr (Some fp) →
  update_scalar avg_re (unlines (ls ++ more)) None = inr (Some fa) →
  grid_of (take 32 (List.filter is_grid_line (ls ++ more))) = Some px →
  scan st = Return (Some fp, Some fa, Some px).
Proof.
  intros Hb Hnl Hpx Hsp Hsa Hn Hp Ha Hg.
  destruct (first_match_wins_lit 80%N (lit "TAT: ") _
              ptat_re_nl_free ptat_re_nonempty : first_match_wins ptat_re)
    as [_ Hstable_p].
  destruct (first_match_wins_lit 65%N (lit "vg Pixel Temp: ") _
              avg_re_nl_free avg_re_nonempty : first_match_wins avg_re)
    as [_ Hstable_a].
  rewrite unlines_app in Hp, Ha.
  rewrite (Hstable_p ls _ None (ptat st) Hsp) in Hp.
  rewrite (Hstable_a ls _ None (avg_temp st) Hsa) in Ha.
  rewrite take_filter_app in Hg by done.
  assert (findall grid_re (buffer st) = List.filter is_grid_line ls) as Hfind
    by (rewrite Hb; unfold findall; by apply findall_grid_unlines).
  destruct (scan_returns st fp fa) as [px' Hret];
    [by rewrite Hb|by rewrite Hb|rewrite Hfind; lia|].
  rewrite Hret.
  apply scan_return_grid in Hret as (? & ? & px'' & Heq & Hg' & _); [|done].
  rewrite Hfind in Hg'. by simplify_eq.
Qed.

Lemma len_unlines_prefix ls1 ls2 :
  ls2 ≠ [] →
  (len (unlines ls1) ≤ len (unlines (removelast (ls1 ++ ls2))))%Z.
Proof. intros H. rewrite removelast_app by done. apply len_unlines_app. Qed.

(** From a state that has seen every line of its buffer, the loop reads
    on until the buffer contains both scalars and 32 grid lines, and
    returns them, provided the buffer stays within its bound until
    then. *)
Lemma loop_until_complete start fp fa px raws :
  ∀ pre nows more st,
    buffer st = unlines pre →
    (search ptat_re (unlines pre) = None → ptat st = None) →
    (search avg_re (unlines pre) = None → avg_temp st = None) →
    length (pixels st) = 32 →
    Forall (fun l => LF ∉ l) (pre ++ lines_read raws) →
    update_scalar ptat_re (unlines (pre ++ lines_read raws)) None
    = inr (Some fp) →
    update_scalar avg_re (unlines (pre ++ lines_read raws)) None
    = inr (Some fa) →
    32 ≤ length (List.filter is_grid_line (pre ++ lines_read raws)) →
    grid_of (take 32 (List.filter is_grid_line (pre ++ lines_read raws)))
    = Some px →
    search ptat_re (unlines pre) = None ∨ search avg_re (unlines pre) = None
    ∨ length (List.filter is_grid_line pre) < 32 →
    (len (unlines (removelast (pre ++ lines_read raws))) ≤ 10000)%Z →
    length raws ≤ length nows →
    Forall (fun t => in_window start t = true) (take (length raws) nows) →
    loop start nows (raws ++ more) st
    = Some (Returned (Some fp, Some fa, Some px)).
Proof.
  induction raws as [|raw raws IH];
    intros pre nows more st Hb Hip Hia Hpx Hnl Hp Ha Hn Hg Hinc Hlen Hnows Hwin.
  - exfalso. change (lines_read []) with (@nil (list N)) in *.
    rewrite (right_id_L [] (++)) in *.
    destruct Hinc as [Hs|[Hs|Hlt]]; [| |lia].
    + by apply update_scalar_found with (1 := Hp) in Hs.
    + by apply update_scalar_found with (1 := Ha) in Hs.
  - destruct nows as [|now nows]; [simpl in Hnows; lia|].
    simpl in Hwin. inversion_clear Hwin as [|?? Hnow Hwin'].
    cbn [app loop]. rewrite Hnow. unfold body.
    destruct (strip raw) as [|c l] eqn:Hline.
    { rewrite lines_read_blank in * by done.
      apply (IH pre); try done. simpl in Hnows. lia. }
    rewrite lines_read_line in * by (by rewrite Hline).
    rewrite Hline in *. set (line := c :: l) in *.
    rewrite (cons_middle line pre), (assoc_L (++)) in Hnl, Hp, Ha, Hn, Hg, Hlen.
    set (st1 := Locals (ptat st) (avg_temp st) (pixels st)
                  (buffer st ++ line ++ [LF])).
    assert (buffer st1 = unlines (pre ++ [line])) as Hb1
      by (unfold st1; cbn [buffer]; by rewrite unlines_snoc, Hb).
    assert (Forall (fun l => LF ∉ l) (pre ++ [line])) as Hnl1
      by by apply Forall_app in Hnl as [? _].
    assert (findall grid_re (buffer st1)
            = List.filter is_grid_line (pre ++ [line])) as Hfind
      by (rewrite Hb1; unfold findall; by apply findall_grid_unlines).
    destruct (decide (is_Some (search ptat_re (unlines (pre ++ [line])))
                      ∧ is_Some (search avg_re (unlines (pre ++ [line])))
                      ∧ 32 ≤ length (List.filter is_grid_line (pre ++ [line]))))
      as [(Hsp & Hsa & Hfull)|Hnot].
    + by rewrite (scan_complete st1 (pre ++ [line]) (lines_read raws) fp fa px).
    + assert ((search ptat_re (buffer st1) = None ∧ ptat st1 = None)
              ∨ (search avg_re (buffer st1) = None ∧ avg_temp st1 = None)
              ∨ length (findall grid_re (buffer st1)) < 32) as Hinc1.
      { rewrite Hfind, Hb1.
        destruct (search ptat_re (unlines (pre ++ [line]))) as [mp|] eqn:Ep.
        2: { left. split; [done|]. apply Hip.
             rewrite unlines_app in Ep.
             by apply search_prefix_none in Ep;
               [|apply ptat_re_nl_free|apply ptat_re_nonempty]. }
        destruct (search avg_re (unlines (pre ++ [line]))) as [ma|] eqn:Ea.
        2: { right. left. split; [done|]. apply Hia.
             rewrite unlines_app in Ea.
             by apply search_prefix_none in Ea;
               [|apply avg_re_nl_free|apply avg_re_nonempty]. }
        right. right.
        destruct (le_lt_dec 32 (length (List.filter is_grid_line (pre ++ [line]))));
          [|done].
        destruct Hnot. by repeat split. }
      destruct (scan_incomplete st1 Hinc1) as (p & a & Hscan & Hp1 & Ha1).
      rewrite Hscan.
      assert (lines_read raws ≠ []) as Hmore.
      { intros E. rewrite E, (right_id_L [] (++)) in *. rewrite Hfind, Hb1 in Hinc1.
        destruct Hinc1 as [[Hs _]|[[Hs _]|Hlt]]; [| |lia].
        - by apply update_scalar_found with (1 := Hp) in Hs.
        - by apply update_scalar_found with (1 := Ha) in Hs. }
      rewrite reset_if_large_small.
      2: { cbn [buffer]. rewrite Hb1.
           pose proof (len_unlines_prefix (pre ++ [line]) _ Hmore). lia. }
      apply (IH (pre ++ [line])); try done.
      * cbn [ptat]. intros Hs. rewrite <- Hb1 in Hs.
        destruct Hinc1 as [[_ Hn1]|[[_ Hn1]|Hlt]].
        -- by rewrite (Hp1 Hs).
        -- rewrite (Hp1 Hs). cbn [ptat st1]. apply Hip.
           rewrite Hb1, unlines_app in Hs.
           by apply search_prefix_none in Hs;
             [|apply ptat_re_nl_free|apply ptat_re_nonempty].
        -- rewrite (Hp1 Hs). cbn [ptat st1]. apply Hip.
           rewrite Hb1, unlines_app in Hs.
           by apply search_prefix_none in Hs;
             [|apply ptat_re_nl_free|apply ptat_re_nonempty].
      * cbn [avg_temp]. intros Hs. rewrite <- Hb1 in Hs.
        rewrite (Ha1 Hs). cbn [avg_temp st1]. apply Hia.
        rewrite Hb1, unlines_app in Hs.
        by apply search_prefix_none in Hs;
          [|apply avg_re_nl_free|apply avg_re_nonempty].
      * rewrite Hfind, Hb1 in Hinc1.
        destruct Hinc1 as [[Hs _]|[[Hs _]|Hlt]]; auto.
      * simpl in Hnows. lia.
Qed.

Lemma Forall_filter_true {A} (f : A → bool) l :
  Forall (fun x => f x = true) (List.filter f l).
Proof.
  apply Forall_forall. intros x Hx%list_elem_of_In.
  by apply filter_In in Hx as [_ ?].
Qed.

(** What a buffer that contains a frame gives the three searches. *)
Lemma holds_frame_values ls dp h1 h2 da rows :
  holds_frame ls dp h1 h2 da rows →
  ∃ fp fa px,
    py_float dp = Some fp ∧ py_float da = Some fa ∧ grid_of rows = Some px
    ∧ update_scalar ptat_re (unlines ls) None = inr (Some fp)
    ∧ update_scalar avg_re (unlines ls) None = inr (Some fa)
    ∧ 32 ≤ length (List.filter is_grid_line ls).
Proof.
  intros (Hnl & Hdp%is_signed_decimal_spec & Hh1 & Hh2
          & Hda%is_signed_decimal_spec & (bp & ap & Hlp & Hbp)
          & (ba & aa & Hla & Hba) & Hrows & Hn).
  destruct (decimal_text_float dp Hdp) as [fp Hfp].
  destruct (decimal_text_float da Hda) as [fa Hfa].
  destruct (grid_of_grid_text rows) as (px & Hpx & _).
  { rewrite <- Hrows. apply Forall_take.
    eapply Forall_impl; [apply Forall_filter_true|].
    intros l Hl. by apply is_grid_line_spec. }
  exists fp, fa, px. split; [done|]. split; [done|]. split; [done|].
  split; [|split].
  - destruct (match_at_ptat_line None dp h1 h2 [] Hdp Hh1 Hh2) as (m & Hm & Hg).
    rewrite (right_id_L [] (++)) in Hm. apply search_whole_line in Hm.
    destruct (first_match_wins_lit 80%N (lit "TAT: ") _
                ptat_re_nl_free ptat_re_nonempty : first_match_wins ptat_re)
      as [Hfirst _].
    rewrite Hlp, (Hfirst bp _ _ m) by done.
    unfold update_scalar. rewrite Hm. unfold float_group. by rewrite Hg, Hfp.
  - destruct (match_at_avg_line None da [] Hda) as (m & Hm & Hg).
    rewrite (right_id_L [] (++)) in Hm. apply search_whole_line in Hm.
    destruct (first_match_wins_lit 65%N (lit "vg Pixel Temp: ") _
                avg_re_nl_free avg_re_nonempty : first_match_wins avg_re)
      as [Hfirst _].
    rewrite Hla, (Hfirst ba _ _ m) by done.
    unfold update_scalar. rewrite Hm. unfold float_group. by rewrite Hg, Hfa.
  - apply (f_equal length) in Hrows. rewrite length_take in Hrows. lia.
Qed.

Lemma update_scalar_is_Some r b f :
  update_scalar r b None = inr (Some f) → is_Some (search r b).
Proof.
  intros H. destruct (search r b) eqn:E; [done|].
  by apply update_scalar_found with (1 := H) in E.
Qed.

(** The iteration that completes a buffer which contains a frame returns
    the frame. *)
Lemma body_holds_frame st raw ls dp h1 h2 da rows :
  strip raw ≠ [] →
  buffer st ++ strip raw ++ [LF] = unlines ls →
  holds_frame ls dp h1 h2 da rows →
  length (pixels st) = 32 →
  ∃ fp fa px,
    py_float dp = Some fp ∧ py_float da = Some fa ∧ grid_of rows = Some px
    ∧ body st raw = Return (Some fp, Some fa, Some px).
Proof.
  intros Hne Hbuf Hframe Hpx.
  destruct (holds_frame_values _ _ _ _ _ _ Hframe)
    as (fp & fa & px & Hfp & Hfa & Hg & Hp & Ha & Hn).
  destruct Hframe as (Hnl & _ & _ & _ & _ & _ & _ & Hrows & _).
  exists fp, fa, px. split; [done|]. split; [done|]. split; [done|].
  unfold body. destruct (strip raw) as [|c l] eqn:E; [done|].
  apply (scan_complete _ ls []); rewrite ?(right_id_L [] (++)); try done.
  - by apply update_scalar_is_Some in Hp.
  - by apply update_scalar_is_Some in Ha.
  - by rewrite Hrows.
Qed.

(** A call that reads lines which contain a frame, within the window
    and within the bound of the buffer, returns the frame. *)
Lemma stream_holds_frame start nows raws more dp h1 h2 da rows :
  holds_frame (lines_read raws) dp h1 h2 da rows →
  (len (unlines (removelast (lines_read raws))) ≤ 10000)%Z →
  length raws ≤ length nows →
  Forall (fun t => in_window start t = true) (take (length raws) nows) →
  ∃ fp fa px,
    py_float dp = Some fp ∧ py_float da = Some fa ∧ grid_of rows = Some px
    ∧ parse_uart_data (World (start :: nows) (raws ++ more))
      = Some (Returned (Some fp, Some fa, Some px)).
Proof.
  intros Hframe Hlen Hnows Hwin.
  destruct (holds_frame_values _ _ _ _ _ _ Hframe)
    as (fp & fa & px & Hfp & Hfa & Hg & Hp & Ha & Hn).
  destruct Hframe as (Hnl & _ & _ & _ & _ & _ & _ & Hrows & _).
  exists fp, fa, px. split; [done|]. split; [done|]. split; [done|].
  unfold parse_uart_data. cbn [clock port].
  apply (loop_until_complete start fp fa px raws []); try done.
  - cbn [app]. by rewrite Hrows.
  - by left.
Qed.

(** A call on reads whose grid lines have 322 characters or more each
    returns no frame. *)
Lemma parse_long_grid_lines ser r :
  Forall (fun raw => LF ∉ strip raw) (port ser) →
  Forall (fun raw => is_grid_line (strip raw) = true → 322 ≤ length (strip raw))
    (port ser) →
  parse_uart_data ser = Some r → r = Returned no_data.
Proof.
  intros Hport Hlong. unfold parse_uart_data.
  destruct (clock ser) as [|start nows]; [done|].
  by apply (loop_long_grid_lines start nows (port ser) initial []).
Qed.

(** Against C1 as stated: the reads hold a well-formed PTAT line, a
    well-formed average line and 32 well-formed grid lines of 32 decimals
    each, all of them are read within the window, and the call returns
    (None, None, None).  The 32 values of a line have ten characters
    each, so that the lines before the last have more than 10000
    characters together, and the buffer is emptied before the last line
    arrives. *)
Lemma well_formed_frame_not_returned :
  holds_frame (lines_read (port long_value_world))
    (lit "25.3") 49%N 70%N (lit "24.8") (replicate 32 long_value_line)
  ∧ clock long_value_world = seconds 0 :: ticks 0 34 ++ [seconds 11]
  ∧ length (port long_value_world) = 34
  ∧ Forall (fun t => in_window (seconds 0) t = true) (ticks 0 34)
  ∧ (10000 < len (unlines (removelast (lines_read (port long_value_world)))))%Z
  ∧ parse_uart_data long_value_world = Some (Returned no_data).
Proof.
  split; [|split; [reflexivity|split; [reflexivity|split; [|split]]]].
  - split; [|split; [reflexivity|split; [reflexivity|split; [reflexivity|
      split; [reflexivity|split; [|split; [|split]]]]]]].
    + apply (bool_decide_unpack _). vm_compute. reflexivity.
    + exists [], (lit "Avg Pixel Temp: 24.8 C" :: replicate 32 long_value_line).
      split; [vm_compute; reflexivity|constructor].
    + exists [lit "PTAT: 25.3 C, PEC: 0x1F"], (replicate 32 long_value_line).
      split; [vm_compute; reflexivity|].
      constructor; [vm_compute; reflexivity|constructor].
    + vm_compute. reflexivity.
    + reflexivity.
  - apply in_window_forallb. vm_compute. reflexivity.
  - vm_compute. reflexivity.
  - assert (in_window (seconds 0) (seconds 11) = false) as Ht by reflexivity.
    destruct (parse_total long_value_world (seconds 0)
                (ticks 0 34 ++ [seconds 11]) 34 (seconds 11) eq_refl)
      as [v Hv]; [vm_compute; reflexivity|exact Ht|simpl; lia|].
    rewrite Hv. f_equal.
    apply (parse_long_grid_lines long_value_world _); [..|exact Hv].
    + apply Forall_forall. intros raw Hraw.
      assert (forallb (fun raw => bool_decide (LF ∉ strip raw))
                (port long_value_world) = true) as H
        by (vm_compute; reflexivity).
      rewrite forallb_forall in H. apply list_elem_of_In, H in Hraw.
      by apply bool_decide_eq_true in Hraw.
    + apply Forall_forall. intros raw Hraw.
      assert (forallb (fun raw => negb (is_grid_line (strip raw))
                                  || (322 <=? length (strip raw)))
                (port long_value_world) = true) as H
        by (vm_compute; reflexivity).
      rewrite forallb_forall in H. apply list_elem_of_In, H in Hraw.
      intros Hg. rewrite Hg in Hraw. by apply Nat.leb_le in Hraw.
Qed.

(** C1 (amended): for every buffer that contains a well-formed PTAT
    line, a well-formed average-temperature line and 32 well-formed grid
    lines of 32 decimals each, in any order and among other lines (the
    PTAT line and the average line being the first lines of the buffer to
    hold such a reading), the iteration that completes the buffer returns
    exactly the PTAT scalar, the average scalar and the 32x32 grid of
    those values; so does parse_uart_data on every stream whose reads
    deliver such lines within the window, provided that the lines before
    the last fit in the 10000 characters of the buffer, line feeds
    included; in particular, feeding the lines 'PTAT: 25.3 C, PEC: 0x1F',
    'Avg Pixel Temp: 24.8 C' and 32 lines of 32 zeros yields ptat = 25.3,
    avg_temp = 24.8 and an all-zero 32x32 matrix. *)
Theorem well_formed_frame_parsed :
  (∀ st raw ls dp h1 h2 da rows,
     strip raw ≠ [] →
     buffer st ++ strip raw ++ [LF] = unlines ls →
     holds_frame ls dp h1 h2 da rows →
     length (pixels st) = 32 →
     ∃ fp fa px,
       py_float dp = Some fp ∧ py_float da = Some fa ∧ grid_of rows = Some px
       ∧ body st raw = Return (Some fp, Some fa, Some px))
  ∧ (∀ start nows raws more dp h1 h2 da rows,
       holds_frame (lines_read raws) dp h1 h2 da rows →
       (len (unlines (removelast (lines_read raws))) ≤ 10000)%Z →
       length raws ≤ length nows →
       Forall (fun t => in_window start t = true) (take (length raws) nows) →
       ∃ fp fa px,
         py_float dp = Some fp ∧ py_float da = Some fa ∧ grid_of rows = Some px
         ∧ parse_uart_data (World (start :: nows) (raws ++ more))
           = Some (Returned (Some fp, Some fa, Some px)))
  ∧ (is_nearest f25_3 (253 # 10) ∧ is_nearest f24_8 (248 # 10)
     ∧ parse_uart_data example_world
       = Some (Returned (Some f25_3, Some f24_8, Some (zeros 32 32)))).
Proof.
  split; [|split].
  - intros st raw ls dp h1 h2 da rows. apply body_holds_frame.
  - intros start nows raws more dp h1 h2 da rows. apply stream_holds_frame.
  - split; [split; [lia|by vm_compute]|split; [split; [lia|by vm_compute]|]].
    exact example_world_frame.
Qed.

Lemma scattered_holds_frame ls :
  ls = scattered_lines ∨ ls = scattered_lines ++ [lit "end of frame"] →
  holds_frame ls (lit "25.3") 49%N 70%N (lit "24.8")
    (replicate 2 ones_line ++ replicate 30 zeros_line).
Proof.
  intros Hls.
  split; [|split; [reflexivity|split; [reflexivity|split; [reflexivity|
    split; [reflexivity|split; [|split; [|split]]]]]]].
  - apply (bool_decide_unpack _). destruct Hls as [-> | ->]; vm_compute; reflexivity.
  - exists (replicate 2 ones_line
            ++ [lit "Avg Pixel Temp: 24.8 C"; lit "D6T-32L ready"]).
    destruct Hls as [-> | ->];
      [exists (replicate 30 zeros_line)
      |exists (replicate 30 zeros_line ++ [lit "end of frame"])];
      (split; [vm_compute; reflexivity|]);
      repeat constructor; vm_compute; reflexivity.
  - exists (replicate 2 ones_line).
    destruct Hls as [-> | ->];
      [exists (lit "D6T-32L ready" :: lit "PTAT: 25.3 C, PEC: 0x1F"
               :: replicate 30 zeros_line)
      |exists (lit "D6T-32L ready" :: lit "PTAT: 25.3 C, PEC: 0x1F"
               :: replicate 30 zeros_line ++ [lit "end of frame"])];
      (split; [vm_compute; reflexivity|]);
      repeat constructor; vm_compute; reflexivity.
  - destruct Hls as [-> | ->]; vm_compute; reflexivity.
  - reflexivity.
Qed.

Lemma well_formed_frame_parsed_witness :
  (∃ fp fa px,
     py_float (lit "25.3") = Some fp ∧ py_float (lit "24.8") = Some fa
     ∧ grid_of (replicate 2 ones_line ++ replicate 30 zeros_line) = Some px
     ∧ body scattered_locals (sent zeros_line)
       = Return (Some fp, Some fa, Some px))
  ∧ (∃ fp fa px,
       py_float (lit "25.3") = Some fp ∧ py_float (lit "24.8") = Some fa
       ∧ grid_of (replicate 2 ones_line ++ replicate 30 zeros_line) = Some px
       ∧ parse_uart_data (World (seconds 0 :: ticks 0 37) (scattered_reads ++ []))
         = Some (Returned (Some fp, Some fa, Some px))).
Proof.
  destruct well_formed_frame_parsed as (Hbuffer & Hstream & _).
  split.
  - apply (Hbuffer scattered_locals (sent zeros_line) scattered_lines
             (lit "25.3") 49%N 70%N (lit "24.8")).
    + vm_compute. discriminate.
    + vm_compute. reflexivity.
    + apply scattered_holds_frame. by left.
    + reflexivity.
  - apply (Hstream (seconds 0) (ticks 0 37) scattered_reads []
             (lit "25.3") 49%N 70%N (lit "24.8")).
    + apply scattered_holds_frame. right. vm_compute. reflexivity.
    + vm_compute. discriminate.
    + vm_compute. lia.
    + apply in_window_forallb. vm_compute. reflexivity.
Defined.
